(** * ai-todo-manager: filter/sort engine, analysis windows, aggregates and
      request validation, embedded from the TypeScript sources.

    Sources embedded here:
    - [src/unnamed/part_004]  (types/todo.ts: [Priority], [Todo])
    - [src/unnamed/part_002]  (app/page.tsx: [filteredAndSortedTodos],
                               [handleAnalyzeTodos], [calculateCompletionRate])
    - [src/unnamed/part_001]  (app/api/ai/analyze-todos/route.ts: [POST])
    - [src/app/api/ai/generate-todo/route.ts] ([POST])

    Conventions of the embedding.
    - A JavaScript string is the list of its UTF-16 code units ([jsstring]),
      so that [.length] is [length].
    - A [Date] is its time value, the number of milliseconds since the epoch
      ([Z]).  The fields of a date (weekday, hours, ...) are read on the wall
      clock of the runtime's local zone, modelled as a fixed offset
      [tz_local] (no daylight-saving transitions).
    - What the runtime supplies is a parameter of the definitions that use
      it: the collation [localeCompare], the case mapping [toLowerCase] and
      the rounding of the arithmetic on doubles.
    - A plain object used as a table ([{}]) is the map of its own
      properties, with the names of the members of [Object.prototype]
      beside it.
    - The timestamp columns of a task ([created_date], [due_date]) come from
      [timestamptz] columns of the store; the record holds the time value
      that [new Date(s).getTime()] yields for them, and an absent (or falsy)
      [due_date] is [None]. *)

From Stdlib Require Import ZArith QArith Lia String Ascii Sorted.
From stdpp Require Import gmap list.

Local Open Scope Z_scope.

(** ** JavaScript strings *)

Module JsString.

Definition jsstring := list N.

(** An ASCII literal as code units. *)
Definition js (s : string) : jsstring :=
  List.map N_of_ascii (list_ascii_of_string s).

(** ECMAScript [WhiteSpace] and [LineTerminator] code points: the
    characters removed by [String.prototype.trim] and matched by the
    regular-expression class [\s]. *)
Definition isWhiteSpace (c : N) : bool :=
  ((9 <=? c) && (c <=? 13) || (c =? 32) || (c =? 160) || (c =? 5760)
   || (8192 <=? c) && (c <=? 8202) || (c =? 8232) || (c =? 8233)
   || (c =? 8239) || (c =? 8287) || (c =? 12288) || (c =? 65279))%N.

Fixpoint trimStart (s : jsstring) : jsstring :=
  match s with
  | [] => []
  | c :: r => if isWhiteSpace c then trimStart r else s
  end.

Fixpoint trimEnd (s : jsstring) : jsstring :=
  match s with
  | [] => []
  | c :: r =>
      match trimEnd r with
      | [] => if isWhiteSpace c then [] else [c]
      | r' => c :: r'
      end
  end.

(** [s.trim()] *)
Definition trim (s : jsstring) : jsstring := trimEnd (trimStart s).

(** [s.replace(/\s+/g, " ")]: every maximal run of white space becomes one
    space.  [in_run] tells that the previous code unit belonged to a run
    that was already replaced. *)
Fixpoint replace_ws_runs (in_run : bool) (s : jsstring) : jsstring :=
  match s with
  | [] => []
  | c :: r =>
      if isWhiteSpace c
      then (if in_run then replace_ws_runs true r
            else 32%N :: replace_ws_runs true r)
      else c :: replace_ws_runs false r
  end.

(** [s.toLowerCase()] is the case mapping of the runtime (the Unicode
    default case conversion); the engine takes it as a parameter, as it
    takes the collation.  On a string of Basic Latin code units it is
    [asciiLowerCase]: the letters A-Z are lowered and every other code unit
    is left as it is. *)
Definition lower_unit (c : N) : N :=
  if ((65 <=? c) && (c <=? 90))%N then (c + 32)%N else c.

Definition asciiLowerCase (s : jsstring) : jsstring := List.map lower_unit s.

Definition isAscii (s : jsstring) : bool := forallb (fun c => (c <? 128)%N) s.

Definition lowersBasicLatin (toLowerCase : jsstring -> jsstring) : Prop :=
  forall s, isAscii s = true -> toLowerCase s = asciiLowerCase s.

Fixpoint startsWith (s p : jsstring) : bool :=
  match p, s with
  | [], _ => true
  | _ :: _, [] => false
  | a :: p', b :: s' => (a =? b)%N && startsWith s' p'
  end.

(** [s.includes(q)] *)
Fixpoint includes (s q : jsstring) : bool :=
  startsWith s q ||
  match s with
  | [] => false
  | _ :: s' => includes s' q
  end.

(** Truthiness of a string: [""] is falsy. *)
Definition truthy (s : jsstring) : bool :=
  match s with [] => false | _ :: _ => true end.

End JsString.
Import JsString.

(** ** The task record (types/todo.ts) *)

Inductive Priority := high | medium | low.

Record Todo := mkTodo {
  id : jsstring;
  user_id : jsstring;
  title : jsstring;
  description : option jsstring;
  created_date : Z;
  due_date : option Z;
  priority : option Priority;
  category : option (list jsstring);
  completed : bool
}.

Definition Priority_eqb (p q : Priority) : bool :=
  match p, q with
  | high, high | medium, medium | low, low => true
  | _, _ => false
  end.

(** [!todo.due_date] *)
Definition no_due (t : Todo) : bool :=
  match due_date t with None => true | Some _ => false end.

(** ** [Array.prototype.sort]

    The language requires the sort to be stable; for a consistent comparator
    the result is therefore the unique stable arrangement, computed here by
    insertion: an element moves past the elements the comparator puts
    strictly before it, and stays in front of its ties. *)

Section ArraySort.
Context {A : Type}.
Variable compareFn : A -> A -> Z.

Fixpoint sort_insert (x : A) (l : list A) : list A :=
  match l with
  | [] => [x]
  | y :: l' => if compareFn x y <=? 0 then x :: y :: l'
               else y :: sort_insert x l'
  end.

Fixpoint sort (l : list A) : list A :=
  match l with
  | [] => []
  | x :: l' => sort_insert x (sort l')
  end.

(** The order a comparator induces: [a] may stand in front of [b]. *)
Definition before (a b : A) : Prop := compareFn a b <= 0.
End ArraySort.

(** ** Filter/Sort Engine ([filteredAndSortedTodos], app/page.tsx) *)

Inductive StatusFilter := status_all | status_completed | status_pending | status_waiting.
Inductive PriorityFilter := priority_all | priority_is (p : Priority).
Inductive SortBy := by_created | by_due | by_priority | by_title.
Inductive SortOrder := asc | desc.

Section FilterSort.
(** [a.localeCompare(b, "ko")]: the collation of the runtime. *)
Variable localeCompare : jsstring -> jsstring -> Z.
(** [s.toLowerCase()]: the case mapping of the runtime. *)
Variable toLowerCase : jsstring -> jsstring.

(** The search step: skipped when [searchQuery.trim()] is falsy. *)
Definition search_step (searchQuery : jsstring) (l : list Todo) : list Todo :=
  if truthy (trim searchQuery)
  then let query := toLowerCase searchQuery in
       List.filter (fun todo => includes (toLowerCase (title todo)) query) l
  else l.

Definition status_step (statusFilter : StatusFilter) (l : list Todo) : list Todo :=
  match statusFilter with
  | status_completed => List.filter (fun todo => completed todo) l
  | status_pending => List.filter (fun todo => negb (completed todo)) l
  | status_waiting =>
      List.filter (fun todo => negb (completed todo) && no_due todo) l
  | status_all => l
  end.

Definition priority_step (priorityFilter : PriorityFilter) (l : list Todo) : list Todo :=
  match priorityFilter with
  | priority_all => l
  | priority_is p =>
      List.filter (fun todo =>
                     match priority todo with
                     | Some q => Priority_eqb q p
                     | None => false
                     end) l
  end.

(** [priorityOrder[(a.priority || "null")]] *)
Definition priorityOrder (p : option Priority) : Z :=
  match p with
  | Some high => 3
  | Some medium => 2
  | Some low => 1
  | None => 0
  end.

(** The value of [comparison] after the [switch]. *)
Definition comparison (sortBy : SortBy) (a b : Todo) : Z :=
  match sortBy with
  | by_created => created_date a - created_date b
  | by_due =>
      match due_date a, due_date b with
      | None, None => 0
      | None, Some _ => 1
      | Some _, None => -1
      | Some da, Some db => da - db
      end
  | by_priority => priorityOrder (priority a) - priorityOrder (priority b)
  | by_title => localeCompare (title a) (title b)
  end.

(** The comparator handed to [filtered.sort]. *)
Definition compareTodos (sortBy : SortBy) (sortOrder : SortOrder) (a b : Todo) : Z :=
  match sortOrder with
  | desc => - comparison sortBy a b
  | asc => comparison sortBy a b
  end.

Definition filteredAndSortedTodos
    (todos : list Todo) (searchQuery : jsstring)
    (statusFilter : StatusFilter) (priorityFilter : PriorityFilter)
    (sortBy : SortBy) (sortOrder : SortOrder) : list Todo :=
  let filtered := todos in
  let filtered := search_step searchQuery filtered in
  let filtered := status_step statusFilter filtered in
  let filtered := priority_step priorityFilter filtered in
  sort (compareTodos sortBy sortOrder) filtered.

End FilterSort.


(** ** Dates *)

Module JsDate.

Definition msPerDay : Z := 86400000.

(** Offset of the zone named in the sources, ["Asia/Seoul"] (UTC+9, no
    daylight saving). *)
Definition tz_seoul : Z := 9 * 3600000.

(** ECMAScript [DayFromYear], [InLeapYear], [MakeDay] and [MakeTime].
    [MakeDay y m d] takes the month as 1..12 and lets the day of the month
    run over into the following month. *)
Definition DayFromYear (y : Z) : Z :=
  365 * (y - 1970) + (y - 1969) / 4 - (y - 1901) / 100 + (y - 1601) / 400.

Definition InLeapYear (y : Z) : bool :=
  (y mod 4 =? 0) && negb (y mod 100 =? 0) || (y mod 400 =? 0).

Definition monthStart (leap : bool) (m : Z) : Z :=
  let base :=
    nth (Z.to_nat (m - 1)) [0; 31; 59; 90; 120; 151; 181; 212; 243; 273; 304; 334] 0 in
  if leap && (3 <=? m) then base + 1 else base.

Definition MakeDay (y m d : Z) : Z :=
  DayFromYear y + monthStart (InLeapYear y) m + (d - 1).

Definition MakeTime (h mi s ms : Z) : Z := ((h * 60 + mi) * 60 + s) * 1000 + ms.

Section LocalZone.
(** Offset of the runtime's local zone, in milliseconds east of UTC. *)
Variable tz_local : Z.

(** The wall clock of a time value, and back. *)
Definition localTime (t : Z) : Z := t + tz_local.
Definition fromLocal (w : Z) : Z := w - tz_local.

(** The local day number and the time within that day. *)
Definition localDay (t : Z) : Z := localTime t / msPerDay.
Definition timeInDay (t : Z) : Z := localTime t mod msPerDay.

(** [t.getDay()]: 0 is Sunday; the epoch fell on a Thursday. *)
Definition getDay (t : Z) : Z := (localDay t + 4) mod 7.

(** [t.setHours(h, mi, s, ms)] *)
Definition setHours (t h mi s ms : Z) : Z :=
  fromLocal (localDay t * msPerDay + MakeTime h mi s ms).

(** [t.setDate(t.getDate() + k)]: the calendar day moves by [k] days and the
    time within the day is kept. *)
Definition shiftDate (t k : Z) : Z := t + k * msPerDay.

(** [new Date(now.toLocaleString("en-US", { timeZone: "Asia/Seoul" }))]: the
    Seoul wall clock of [now], printed to the second, read back as a local
    wall clock. *)
Definition seoulWallClock (now : Z) : Z :=
  fromLocal ((now + tz_seoul) / 1000 * 1000).

End LocalZone.
End JsDate.
Import JsDate.

(** ** Analysis windows ([handleAnalyzeTodos], app/page.tsx)

    The part of the handler that selects the tasks of the period, which runs
    for a signed-in user before the request to the analysis endpoint. *)

Inductive Period := today | week.

Section AnalysisWindow.
Variable tz_local : Z.

(** [koreaTime] after [koreaTime.setHours(0, 0, 0, 0)]. *)
Definition koreaTime (now : Z) : Z :=
  setHours tz_local (seoulWallClock tz_local now) 0 0 0 0.

Definition todayStart (now : Z) : Z := koreaTime now.
Definition todayEnd (now : Z) : Z := setHours tz_local (koreaTime now) 23 59 59 999.

Definition dayOfWeek (now : Z) : Z := getDay tz_local (koreaTime now).

Definition monday (now : Z) : Z :=
  let offset := if dayOfWeek now =? 0 then 6 else dayOfWeek now - 1 in
  setHours tz_local (shiftDate (koreaTime now) (- offset)) 0 0 0 0.

Definition sunday (now : Z) : Z :=
  setHours tz_local (shiftDate (monday now) 6) 23 59 59 999.

(** The pair of boundaries compared against in the [filter] callbacks. *)
Definition window (period : Period) (now : Z) : Z * Z :=
  match period with
  | today => (todayStart now, todayEnd now)
  | week => (monday now, sunday now)
  end.

(** [d >= start && d <= end] *)
Definition within (w : Z * Z) (d : Z) : bool :=
  (fst w <=? d) && (d <=? snd w).

(** The callback of [todos.filter] (the two branches differ only in the
    boundaries). *)
Definition inPeriod (w : Z * Z) (todo : Todo) : bool :=
  let isCreated := within w (created_date todo) in
  match due_date todo with
  | Some dueDate =>
      let isDue := within w dueDate in
      isCreated || isDue
  | None => isCreated
  end.

Definition filteredTodos (period : Period) (now : Z) (todos : list Todo) : list Todo :=
  List.filter (inPeriod (window period now)) todos.

End AnalysisWindow.

(** ** Analytics aggregates

    Counters are natural numbers.  The arithmetic of JavaScript numbers is
    the exact arithmetic followed by a rounding to the nearest double; the
    rounding is a parameter, [toDouble], of the definitions that divide. *)

Module Analytics.

(** [todos.filter((todo) => todo.completed).length] *)
Definition completedTodos (todos : list Todo) : nat :=
  length (List.filter (fun todo => completed todo) todos).

Section Doubles.
Variable toDouble : Q -> Q.

(** [(completed / total) * 100] *)
Definition percentage (completed total : nat) : Q :=
  toDouble (toDouble (inject_Z (Z.of_nat completed) / inject_Z (Z.of_nat total))
            * 100)%Q.

(** [completionRate] (analyze-todos/route.ts) *)
Definition completionRate (todos : list Todo) : Q :=
  let totalTodos := length todos in
  if (0 <? totalTodos)%nat then percentage (completedTodos todos) totalTodos else 0%Q.

(** [calculateCompletionRate] (app/page.tsx) *)
Definition calculateCompletionRate (todosList : list Todo) : Q :=
  if (length todosList =? 0)%nat then 0%Q
  else percentage (completedTodos todosList) (length todosList).

End Doubles.

(** What the statements need of the rounding: it keeps the order, and it
    leaves the doubles 0, 1, 100 and 2^-32 as they are. *)
Definition roundsToNearest (toDouble : Q -> Q) : Prop :=
  (forall x y : Q, (x <= y)%Q -> (toDouble x <= toDouble y)%Q) /\
  (toDouble 0 == 0)%Q /\ (toDouble 1 == 1)%Q /\ (toDouble 100 == 100)%Q /\
  (toDouble (1 # 4294967296) == 1 # 4294967296)%Q.

(** The exact arithmetic, without rounding. *)
Definition exact (x : Q) : Q := x.

(** [categoryStats] and the two category tallies are plain objects ([{}]):
    the map holds their own properties, and a key without an own property
    is looked up in [Object.prototype].  These are the names of its
    members; what they hold (functions, and the prototype itself for
    [__proto__]) is truthy. *)
Definition inheritedNames : list jsstring :=
  List.map js
    ["constructor"; "hasOwnProperty"; "isPrototypeOf"; "propertyIsEnumerable";
     "toLocaleString"; "toString"; "valueOf"; "__proto__";
     "__defineGetter__"; "__defineSetter__"; "__lookupGetter__";
     "__lookupSetter__"]%string.

Definition inherited (key : jsstring) : bool :=
  existsb (fun name => bool_decide (name = key)) inheritedNames.

(** An entry of [categoryStats]. *)
Record CategoryStat := mkStat { total : nat; completed_count : nat }.

(** The body of [todo.category.forEach]: create the entry when
    [categoryStats[cat]] is falsy, then [total++] and, for a completed task,
    [completed++].  For a label that names an inherited member,
    [categoryStats[cat]] is that member: no entry is created, and the
    increments are written to the member, not to [categoryStats]. *)
Definition countCategory (done : bool) (stats : gmap (list N) CategoryStat) (cat : jsstring)
  : gmap (list N) CategoryStat :=
  let stats :=
    match stats !! cat with
    | None => if inherited cat then stats else <[cat := mkStat 0 0]> stats
    | Some _ => stats
    end in
  alter (fun s => mkStat (S (total s))
                         (if done then S (completed_count s) else completed_count s))
        cat stats.

(** The body of [todos.forEach]: tasks whose [category] is not an array are
    skipped. *)
Definition countTodo (stats : gmap (list N) CategoryStat) (todo : Todo)
  : gmap (list N) CategoryStat :=
  match category todo with
  | Some cats => fold_left (countCategory (completed todo)) cats stats
  | None => stats
  end.

Definition categoryStats (todos : list Todo) : gmap (list N) CategoryStat :=
  fold_left countTodo todos ∅.

(** Reading a counter of a label, 0 when the label has no entry. *)
Definition totalOf (stats : gmap (list N) CategoryStat) (cat : jsstring) : nat :=
  match stats !! cat with Some s => total s | None => 0%nat end.

Definition completedOf (stats : gmap (list N) CategoryStat) (cat : jsstring) : nat :=
  match stats !! cat with Some s => completed_count s | None => 0%nat end.

(** The labels a task lists, and how often it lists a given one. *)
Definition labels (todo : Todo) : list jsstring :=
  match category todo with Some cats => cats | None => [] end.

Definition occurrences (cat : jsstring) (todo : Todo) : nat :=
  length (List.filter (fun c => bool_decide (c = cat)) (labels todo)).

End Analytics.

(** ** The analysis endpoint ([POST], analyze-todos/route.ts) *)

Module AnalyzeTodos.

(** The fields [todos] and [period] taken from the parsed body (an
    object): [todos] is an array or not, [period] is one of the two literals
    or anything else. *)
Inductive TodosField := todos_array (l : list Todo) | todos_not_array.
Inductive PeriodField := period_is (p : Period) | period_other.
Record Body := mkBody { body_todos : TodosField; body_period : PeriodField }.

Record Analysis := mkAnalysis {
  summary : jsstring;
  urgentTasks : list jsstring;
  insights : list jsstring;
  recommendations : list jsstring
}.

Inductive ErrorMessage :=
| err_api_key     (* "GOOGLE_GENERATIVE_AI_API_KEY가 설정되지 않았습니다." *)
| err_json        (* "요청 본문을 파싱할 수 없습니다. JSON 형식을 확인해주세요." *)
| err_todos       (* "할 일 목록이 올바르지 않습니다." *)
| err_period.     (* "분석 기간은 'today' 또는 'week'여야 합니다." *)

Inductive Payload := payload_error (e : ErrorMessage) | payload_analysis (a : Analysis).

(** What the handler does up to its first suspension point: it answers at
    once, or it reaches [generateObject] with the statistics of [todos]. *)
Inductive Outcome :=
| Respond (status : Z) (p : Payload)
| GenerateObject (todos : list Todo) (period : Period).

(** "오늘 등록된 할 일이 없습니다." *)
Definition summary_today : jsstring :=
  [50724; 45720; 32; 46321; 47197; 46108; 32; 54624; 32; 51068; 51060; 32;
   50630; 49845; 45768; 45796; 46]%N.

(** "이번 주 등록된 할 일이 없습니다." *)
Definition summary_week : jsstring :=
  [51060; 48264; 32; 51452; 32; 46321; 47197; 46108; 32; 54624; 32; 51068;
   51060; 32; 50630; 49845; 45768; 45796; 46]%N.

(** "할 일을 추가하여 시작해보세요!" *)
Definition insight_start : jsstring :=
  [54624; 32; 51068; 51012; 32; 52628; 44032; 54616; 50668; 32; 49884; 51089;
   54644; 48372; 49464; 50836; 33]%N.

Definition emptyAnalysis (period : Period) : Analysis :=
  mkAnalysis (match period with today => summary_today | week => summary_week end)
             [] [insight_start] [].

(** [apiKey] is [process.env.GOOGLE_GENERATIVE_AI_API_KEY]; [body] is [None]
    when [request.json()] throws. *)
Definition POST (apiKey : option jsstring) (body : option Body) : Outcome :=
  if negb (match apiKey with Some k => truthy k | None => false end)
  then Respond 500 (payload_error err_api_key)
  else
    match body with
    | None => Respond 400 (payload_error err_json)
    | Some b =>
        match body_todos b with
        | todos_not_array => Respond 400 (payload_error err_todos)
        | todos_array todos =>
            match body_period b with
            | period_other => Respond 400 (payload_error err_period)
            | period_is period =>
                if (length todos =? 0)%nat
                then Respond 200 (payload_analysis (emptyAnalysis period))
                else GenerateObject todos period
            end
        end
    end.

End AnalyzeTodos.

(** ** The extraction endpoint ([POST], generate-todo/route.ts) *)

Module GenerateTodo.

(** The [input] field of the parsed body: a string, or any other value
    ([undefined], [null], a number, ...). *)
Inductive InputField := input_string (s : jsstring) | input_other.

(** The parsed body: [null], or any other JSON value with what its [input]
    property holds. *)
Inductive Body := body_null | body_with (input : InputField).

Inductive ErrorMessage :=
| err_api_key             (* "GOOGLE_GENERATIVE_AI_API_KEY가 설정되지 않았습니다." *)
| err_json                (* "요청 본문을 파싱할 수 없습니다. JSON 형식을 확인해주세요." *)
| err_not_string          (* "입력값은 문자열이어야 합니다." *)
| err_empty               (* "할 일을 입력해주세요." *)
| err_too_short           (* "할 일은 최소 2자 이상 입력해주세요." *)
| err_too_long (n : nat). (* "할 일은 최대 500자까지 입력할 수 있습니다. (현재: " + n + "자)" *)

(** The handler up to its suspension point: an error response, the
    [TypeError] that [const { input } = body] throws on [null] (answered by
    the [catch] block), or the call of [generateObject] on the processed
    input. *)
Inductive Outcome :=
| Respond (status : Z) (e : ErrorMessage)
| TypeError
| GenerateObject (processedInput : jsstring).

Definition normalizedInput (input : jsstring) : jsstring :=
  let trimmedInput := trim input in
  replace_ws_runs false trimmedInput.

Definition POST (apiKey : option jsstring) (body : option Body) : Outcome :=
  if negb (match apiKey with Some k => truthy k | None => false end)
  then Respond 500 err_api_key
  else
    match body with
    | None => Respond 400 err_json
    | Some body_null => TypeError
    | Some (body_with input) =>
        (* [!input || typeof input !== "string"] *)
        match input with
        | input_other => Respond 400 err_not_string
        | input_string s =>
            if negb (truthy s) then Respond 400 err_not_string
            else
              let normalized := normalizedInput s in
              if (length normalized =? 0)%nat then Respond 400 err_empty
              else if (length normalized <? 2)%nat then Respond 400 err_too_short
              else if (500 <? length normalized)%nat
                   then Respond 400 (err_too_long (length normalized))
              else GenerateObject normalized
        end
    end.

(** *** Post-processing of [due_date] *)

Definition isDigit (c : N) : bool := ((48 <=? c) && (c <=? 57))%N.
Definition digitValue (c : N) : Z := Z.of_N c - 48.

Definition numberOf (ds : jsstring) : Z :=
  fold_left (fun acc c => 10 * acc + digitValue c) ds 0.

(** [\d{n}] at the head of [s]: the digits and what follows them. *)
Definition digits (n : nat) (s : jsstring) : option (jsstring * jsstring) :=
  let d := take n s in
  if (length d =? n)%nat && forallb isDigit d then Some (d, drop n s) else None.

(** A literal character at the head of [s]. *)
Definition char (c : N) (s : jsstring) : option jsstring :=
  match s with
  | x :: r => if (x =? c)%N then Some r else None
  | [] => None
  end.

(** [\d{4}-\d{2}-\d{2}] at the head of [s]: the three fields and the rest. *)
Definition matchDate (s : jsstring)
  : option (jsstring * jsstring * jsstring * jsstring) :=
  '(y, r) ← digits 4 s;
  r ← char 45 r;
  '(m, r) ← digits 2 r;
  r ← char 45 r;
  '(d, r) ← digits 2 r;
  Some (y, m, d, r).

(** [T\d{2}:\d{2}:\d{2}] at the head of [s]. *)
Definition matchTime (s : jsstring)
  : option (jsstring * jsstring * jsstring * jsstring) :=
  r ← char 84 s;
  '(h, r) ← digits 2 r;
  r ← char 58 r;
  '(mi, r) ← digits 2 r;
  r ← char 58 r;
  '(sec, r) ← digits 2 r;
  Some (h, mi, sec, r).

(** [s.match(/^(\d{4}-\d{2}-\d{2})(T\d{2}:\d{2}:\d{2})?/)]: the texts of the
    two groups; the pattern is anchored at the start only. *)
Definition dateMatch (s : jsstring) : option (jsstring * option jsstring) :=
  match matchDate s with
  | Some (_, _, _, r) =>
      Some (take 10 s,
            match matchTime r with
            | Some _ => Some (take 9 r)
            | None => None
            end)
  | None => None
  end.

(** "T09:00:00" *)
Definition T0900 : jsstring := [84; 48; 57; 58; 48; 48; 58; 48; 48]%N.

Section LocalZone.
Variable tz_local : Z.

(** [new Date(s)] for a string of the shape [YYYY-MM-DDTHH:MM:SS], which is
    read as a local time; [None] is the invalid date (time value NaN).  The
    fields must lie in the ranges of the date-time string format: month
    01-12, day 01-31, hour 00-23 (or 24:00:00), minute and second 00-59. *)
Definition parseDateTime (s : jsstring) : option Z :=
  '(y, m, d, r) ← matchDate s;
  '(h, mi, sec, r) ← matchTime r;
  let '(y, m, d) := (numberOf y, numberOf m, numberOf d) in
  let '(h, mi, sec) := (numberOf h, numberOf mi, numberOf sec) in
  if bool_decide (r = [])
     && (1 <=? m) && (m <=? 12) && (1 <=? d) && (d <=? 31)
     && ((h <=? 23) && (mi <=? 59) && (sec <=? 59)
         || (h =? 24) && (mi =? 0) && (sec =? 0))
  then Some (fromLocal tz_local (MakeDay y m d * msPerDay + MakeTime h mi sec 0))
  else None.

(** [dueDateFormatted] at the end of the post-processing.  [koreaTime] is
    the value computed before the remote call; [due_date] is
    [generatedData.due_date]. *)
Definition dueDateFormatted (koreaTime : Z) (due_date : option jsstring)
  : option jsstring :=
  match due_date with
  | None => None
  | Some s =>
      if negb (truthy s) then None
      else
        match dateMatch s with
        | Some (dateOnly, timePart) =>
            let dueDate := parseDateTime (dateOnly ++ default T0900 timePart) in
            let currentDate := setHours tz_local koreaTime 0 0 0 0 in
            let dueDate := (fun t => setHours tz_local t 0 0 0 0) <$> dueDate in
            (* [Math.floor]; NaN when the date is invalid *)
            let daysDiff := (fun t => (t - currentDate) / msPerDay) <$> dueDate in
            if match daysDiff with Some n => n <? -1 | None => false end
            then None
            else
              match timePart with
              | Some _ => Some s
              | None => Some (dateOnly ++ T0900)
              end
        | None => None
        end
  end.

End LocalZone.

(** *** Writing dates, to state the properties of the post-processing *)

Definition digit (k : Z) : N := Z.to_N (48 + k).
Definition fmt2 (n : Z) : jsstring := [digit (n / 10); digit (n mod 10)].
Definition fmt4 (n : Z) : jsstring :=
  [digit (n / 1000); digit (n / 100 mod 10); digit (n / 10 mod 10); digit (n mod 10)].

(** [YYYY-MM-DD] and [THH:MM:SS] *)
Definition isoDate (y m d : Z) : jsstring :=
  fmt4 y ++ [45%N] ++ fmt2 m ++ [45%N] ++ fmt2 d.
Definition isoTime (h mi s : Z) : jsstring :=
  [84%N] ++ fmt2 h ++ [58%N] ++ fmt2 mi ++ [58%N] ++ fmt2 s.

End GenerateTodo.

(** A code-unit-wise comparison, standing in for the collation of the
    runtime where an example needs a concrete one. *)
Fixpoint ordinalCompare (a b : jsstring) : Z :=
  match a, b with
  | [], [] => 0
  | [], _ :: _ => -1
  | _ :: _, [] => 1
  | x :: a', y :: b' =>
      if (x =? y)%N then ordinalCompare a' b' else Z.of_N x - Z.of_N y
  end.


(** ** Vocabulary of the statements about the displayed list *)

#[global] Instance Priority_eq_dec : EqDecision Priority.
Proof. solve_decision. Defined.

(** Every task without a due timestamp stands after (resp. before) every
    task that has one. *)
Definition undated_after_dated (l : list Todo) : Prop :=
  forall (i j : nat) (a b : Todo),
    l !! i = Some a -> l !! j = Some b ->
    due_date a = None -> due_date b <> None -> (j < i)%nat.

Definition undated_before_dated (l : list Todo) : Prop :=
  forall (i j : nat) (a b : Todo),
    l !! i = Some a -> l !! j = Some b ->
    due_date a = None -> due_date b <> None -> (i < j)%nat.

(** The tasks that have a due timestamp stand in the order of the
    timestamps. *)
Definition dated_ascending (l : list Todo) : Prop :=
  forall (i j : nat) (a b : Todo) (da db : Z),
    (i < j)%nat -> l !! i = Some a -> l !! j = Some b ->
    due_date a = Some da -> due_date b = Some db -> da <= db.

Definition dated_descending (l : list Todo) : Prop :=
  forall (i j : nat) (a b : Todo) (da db : Z),
    (i < j)%nat -> l !! i = Some a -> l !! j = Some b ->
    due_date a = Some da -> due_date b = Some db -> db <= da.

(** A search string that is empty or consists of white space only. *)
Definition blank (q : jsstring) : bool := forallb isWhiteSpace q.

(** The three predicates in the words of the description of the engine. *)
Definition matchesSearch (toLowerCase : jsstring -> jsstring) (q : jsstring)
    (t : Todo) : bool :=
  blank q || includes (toLowerCase (title t)) (toLowerCase q).

Definition matchesStatus (s : StatusFilter) (t : Todo) : bool :=
  match s with
  | status_all => true
  | status_completed => bool_decide (completed t = true)
  | status_pending => bool_decide (completed t = false)
  | status_waiting => bool_decide (completed t = false /\ due_date t = None)
  end.

Definition matchesPriority (p : PriorityFilter) (t : Todo) : bool :=
  match p with
  | priority_all => true
  | priority_is x => bool_decide (priority t = Some x)
  end.

(** The two tasks of the scenario: "A" (high, not completed, no due
    timestamp) and "B" (low, completed, no due timestamp); the other fields
    are left open. *)
Definition taskA (i u : jsstring) (d : option jsstring) (c : Z)
    (cat : option (list jsstring)) : Todo :=
  mkTodo i u [65%N] d c None (Some high) cat false.

Definition taskB (i u : jsstring) (d : option jsstring) (c : Z)
    (cat : option (list jsstring)) : Todo :=
  mkTodo i u [66%N] d c None (Some low) cat true.

(** Two tasks for the examples: one due at time value 1000, one without a
    due timestamp. *)
Definition datedTask : Todo :=
  mkTodo [49%N] [117%N] [100%N] None 0 (Some 1000) None None false.
Definition undatedTask : Todo :=
  mkTodo [50%N] [117%N] [117%N] None 0 None None None false.

(** ** Vocabulary of the statements about the aggregates *)

(** How often the tasks of a list name a label, over all tasks and over the
    completed ones. *)
Definition listed (cat : jsstring) (todos : list Todo) : nat :=
  list_sum (List.map (Analytics.occurrences cat) todos).

Definition listedCompleted (cat : jsstring) (todos : list Todo) : nat :=
  list_sum (List.map (fun t => if completed t then Analytics.occurrences cat t else 0%nat)
                     todos).

(** "업무" and "개인" *)
Definition label_work : jsstring := [50629; 47924]%N.
Definition label_personal : jsstring := [44060; 51064]%N.

(** A completed task that names the label "업무" twice. *)
Definition twiceWork : Todo :=
  mkTodo [51%N] [117%N] [119%N] None 0 None None
         (Some [label_work; label_work]) true.

(** ** Vocabulary of the statements about the normalized input *)

(** A string is well spaced when each white-space code unit in it is a
    single space (U+0020) that follows a code unit that is not white space,
    and the string does not end in white space.  [after_ws] tells that the
    string begins right after white space, or at the very start. *)
Fixpoint wellSpaced (after_ws : bool) (s : jsstring) : bool :=
  match s with
  | [] => negb after_ws
  | c :: r =>
      if isWhiteSpace c then negb after_ws && (c =? 32)%N && wellSpaced true r
      else wellSpaced false r
  end.

(** The code units of a string that are not white space. *)
Definition inkOf (s : jsstring) : jsstring :=
  List.filter (fun c => negb (isWhiteSpace c)) s.

(** "  내일   오후 3시 회의   " and "내일 오후 3시 회의" *)
Definition meeting_raw : jsstring :=
  [32; 32; 45236; 51068; 32; 32; 32; 50724; 54980; 32; 51; 49884; 32; 54924;
   51032; 32; 32; 32]%N.
Definition meeting_normalized : jsstring :=
  [45236; 51068; 32; 50724; 54980; 32; 51; 49884; 32; 54924; 51032]%N.

(** ** Vocabulary of the statements about [due_date] *)

Module DueDateShape.
Import GenerateTodo.

Definition allDigits (t : jsstring) : Prop := forallb isDigit t = true.

(** [YYYY-MM-DD]: four, two and two digits, joined by hyphens. *)
Definition dateShaped (t : jsstring) : Prop :=
  exists y m d : jsstring,
    t = y ++ [45%N] ++ m ++ [45%N] ++ d /\
    length y = 4%nat /\ length m = 2%nat /\ length d = 2%nat /\
    allDigits y /\ allDigits m /\ allDigits d.

(** [THH:MM:SS]: a [T] and three pairs of digits, joined by colons. *)
Definition timeShaped (t : jsstring) : Prop :=
  exists h mi s : jsstring,
    t = [84%N] ++ h ++ [58%N] ++ mi ++ [58%N] ++ s /\
    length h = 2%nat /\ length mi = 2%nat /\ length s = 2%nat /\
    allDigits h /\ allDigits mi /\ allDigits s.

(** The fields of a calendar date and of a time of day that can be written
    in these forms. *)
Definition dateFields (y m d : Z) : Prop :=
  0 <= y <= 9999 /\ 1 <= m <= 12 /\ 1 <= d <= 31.

Definition timeFields (h mi s : Z) : Prop :=
  0 <= h <= 23 /\ 0 <= mi <= 59 /\ 0 <= s <= 59.

(** Any numbers that four and two digits can write. *)
Definition writtenDate (y m d : Z) : Prop :=
  0 <= y <= 9999 /\ 0 <= m <= 99 /\ 0 <= d <= 99.

Definition writtenTime (h mi s : Z) : Prop :=
  0 <= h <= 99 /\ 0 <= mi <= 99 /\ 0 <= s <= 99.

(** The end of the day, written 24:00:00. *)
Definition endOfDay (h mi s : Z) : Prop := h = 24 /\ mi = 0 /\ s = 0.

End DueDateShape.

(** ** Vocabulary of further statements about the displayed list *)

(** The tasks that pass the three filters, in the order of the input. *)
Definition passing (toLowerCase : jsstring -> jsstring) (q : jsstring)
    (s : StatusFilter) (p : PriorityFilter) (todos : list Todo) : list Todo :=
  List.filter (fun t => matchesSearch toLowerCase q t && matchesStatus s t
                        && matchesPriority p t)
              todos.

(** Two tasks that the sort key does not tell apart. *)
Definition tied (localeCompare : jsstring -> jsstring -> Z) (sortBy : SortBy)
    (t0 t : Todo) : bool :=
  comparison localeCompare sortBy t0 t =? 0.

(** The order in which the store is asked to return the tasks:
    [.order("created_date", { ascending: false })]. *)
Definition newestFirst (todos : list Todo) : Prop :=
  StronglySorted (fun a b => created_date b <= created_date a) todos.

(** Three tasks created at 300, 200 and 100. *)
Definition taskNew : Todo :=
  mkTodo [49%N] [117%N] [97%N] None 300 None (Some low) None false.
Definition taskMid : Todo :=
  mkTodo [50%N] [117%N] [98%N] None 200 None (Some high) None true.
Definition taskOld : Todo :=
  mkTodo [51%N] [117%N] [99%N] None 100 (Some 50) None None false.
Definition storeOrder : list Todo := [taskNew; taskMid; taskOld].

(** ** The extraction endpoint, continued: the response and the errors *)

Module ErrorHandling.

(** What a [catch] block holds: an object with a string [message], or
    anything else. *)
Inductive Caught := caught_message (m : jsstring) | caught_other.

(** [m.includes(w1) || m.includes(w2) || ...] *)
Definition mentions (m : jsstring) (words : list string) : bool :=
  existsb (fun w => includes m (js w)) words.

Definition quotaWords : list string :=
  ["quota"; "Quota exceeded"; "exceeded your current quota"; "429"; "rate limit"]%string.
Definition inputWords : list string :=
  ["invalid"; "validation"; "bad request"; "400"]%string.
Definition authWords : list string :=
  ["unauthorized"; "authentication"; "API key"; "401"]%string.

(** The texts of the [error] field. *)
Inductive Message :=
| msg_default   (* "할 일 생성 중 오류가 발생했습니다." / "할 일 분석 중 오류가 발생했습니다." *)
| msg_quota     (* "AI 서비스 사용량이 초과되었습니다. 잠시 후 다시 시도해주세요. ..." *)
| msg_input     (* "입력값이 올바르지 않습니다. 다시 확인해주세요." *)
| msg_auth      (* "API 인증에 실패했습니다. API 키 설정을 확인해주세요." *)
| msg_retry     (* "... 중 오류가 발생했습니다. 잠시 후 다시 시도해주세요." *)
| msg_raw (m : jsstring).   (* the message of the error itself *)

(** The error of [const { input } = body] on [null], with the message the
    runtime (V8) gives it. *)
Definition destructuringError : Caught :=
  caught_message
    (js "Cannot destructure property 'input' of 'body' as it is null.").

(** The [catch] block of generate-todo/route.ts: status code and message.
    [development] is [process.env.NODE_ENV === "development"]. *)
Definition catchGenerate (development : bool) (error : Caught) : Z * Message :=
  match error with
  | caught_other => (500, msg_default)
  | caught_message m =>
      if mentions m quotaWords then (429, msg_quota)
      else if mentions m inputWords then (400, msg_input)
      else if mentions m authWords then (500, msg_auth)
      else (500, if development then msg_raw m else msg_retry)
  end.

(** The [catch] block of analyze-todos/route.ts. *)
Definition catchAnalyze (development : bool) (error : Caught) : Z * Message :=
  match error with
  | caught_other => (500, msg_default)
  | caught_message m =>
      if mentions m quotaWords then (429, msg_quota)
      else if mentions m inputWords then (400, msg_input)
      else (500, if development then msg_raw m else msg_retry)
  end.

End ErrorHandling.

Module GenerateResponse.
Import GenerateTodo ErrorHandling.

(** "할 일" and "..." *)
Definition placeholder : jsstring := [54624; 32; 51068]%N.
Definition ellipsis : jsstring := [46; 46; 46]%N.

(** [s.slice(0, n)] *)
Definition slice0 (n : nat) (s : jsstring) : jsstring := take n s.

(** [title] at the end of its post-processing. *)
Definition title (processedInput generatedTitle : jsstring) : jsstring :=
  let title :=
    if truthy generatedTitle then generatedTitle else slice0 100 processedInput in
  let title := trim title in
  let title :=
    if (length title <? 2)%nat
    then (let t := trim (slice0 50 processedInput) in
          if truthy t then t else placeholder)
    else title in
  if (200 <? length title)%nat then slice0 197 title ++ ellipsis else title.

(** [result.object], as the schema types it. *)
Record GeneratedData := mkGenerated {
  gen_title : jsstring;
  gen_description : option jsstring;
  gen_due_date : option jsstring;
  gen_priority : option Priority;
  gen_category : option (list jsstring)
}.

Record ResponseData := mkResponse {
  res_title : jsstring;
  res_description : option jsstring;
  res_due_date : option jsstring;
  res_priority : Priority;
  res_category : list jsstring
}.

Section LocalZone.
Variable tz_local : Z.

Definition responseData (koreaTime : Z) (processedInput : jsstring)
    (generatedData : GeneratedData) : ResponseData :=
  {| res_title := title processedInput (gen_title generatedData);
     (* [generatedData.description?.trim() || null] *)
     res_description :=
       match gen_description generatedData with
       | Some d => if truthy (trim d) then Some (trim d) else None
       | None => None
       end;
     res_due_date := dueDateFormatted tz_local koreaTime (gen_due_date generatedData);
     res_priority := default medium (gen_priority generatedData);
     res_category :=
       match gen_category generatedData with
       | Some c => if (0 <? length c)%nat then c else [label_personal]
       | None => [label_personal]
       end |}.

(** The answers of the endpoint. *)
Inductive Answer :=
| answer_error (status : Z) (e : GenerateTodo.ErrorMessage)
| answer_caught (status : Z) (m : Message)
| answer_data (status : Z) (d : ResponseData).

(** The whole handler: the validation, then the remote call, whose outcome
    [remote] is an error thrown by [generateObject] or its object, then the
    post-processing or the [catch] block.  [now] is the current instant. *)
Definition handle (development : bool) (apiKey : option jsstring)
    (body : option Body) (now : Z) (remote : Caught + GeneratedData)
  : Answer :=
  match POST apiKey body with
  | Respond status e => answer_error status e
  | TypeError =>
      let '(status, m) := catchGenerate development destructuringError in
      answer_caught status m
  | GenerateObject processedInput =>
      match remote with
      | inl error =>
          let '(status, m) := catchGenerate development error in
          answer_caught status m
      | inr generatedData =>
          answer_data 200
            (responseData (seoulWallClock tz_local now) processedInput generatedData)
      end
  end.

Definition statusOf (a : Answer) : Z :=
  match a with
  | answer_error s _ | answer_caught s _ | answer_data s _ => s
  end.

End LocalZone.
End GenerateResponse.

(** ** The analysis endpoint, continued: the statistics (analyze-todos/route.ts)

    [koreaTime] is [new Date(now.toLocaleString("en-US", { timeZone:
    "Asia/Seoul" }))], that is [seoulWallClock tz_local now]; the fields of a
    date are read in the local zone of the server. *)

Module AnalyzeStats.
Import Analytics.

(** [todos.filter(f).length] *)
Definition countIf (f : Todo -> bool) (todos : list Todo) : nat :=
  length (List.filter f todos).

(** [todo.priority === p] and [!todo.priority] *)
Definition hasPriority (p : Priority) (todo : Todo) : bool :=
  match priority todo with Some q => Priority_eqb q p | None => false end.
Definition noPriority (todo : Todo) : bool :=
  match priority todo with Some _ => false | None => true end.

Record Tally := mkTally { tally_total : nat; tally_completed : nat }.

(** [priorityStats], with the keys [high], [medium], [low] and [none]. *)
Record PriorityStats := mkPriorityStats {
  stats_high : Tally; stats_medium : Tally; stats_low : Tally; stats_none : Tally
}.

Definition tallyOf (f : Todo -> bool) (todos : list Todo) : Tally :=
  mkTally (countIf f todos) (countIf (fun todo => f todo && completed todo) todos).

Definition priorityStats (todos : list Todo) : PriorityStats :=
  mkPriorityStats (tallyOf (hasPriority high) todos)
                  (tallyOf (hasPriority medium) todos)
                  (tallyOf (hasPriority low) todos)
                  (tallyOf noPriority todos).

(** *** Deadlines *)

Definition todosWithDueDate (todos : list Todo) : list Todo :=
  List.filter (fun todo => negb (no_due todo)) todos.

(** The callbacks read [todo.due_date!]; on [todosWithDueDate] it is
    present. *)
Definition isOverdue (koreaTime : Z) (todo : Todo) : bool :=
  if completed todo then false
  else match due_date todo with
       | Some dueDate => dueDate <? koreaTime
       | None => false
       end.

Definition isCompletedOnTime (todo : Todo) : bool :=
  if negb (completed todo) then false
  else match due_date todo with
       | Some dueDate => let completedDate := created_date todo in
                         completedDate <=? dueDate
       | None => false
       end.

Definition overdueTodos (koreaTime : Z) (todos : list Todo) : list Todo :=
  List.filter (isOverdue koreaTime) (todosWithDueDate todos).

Definition completedOnTime (todos : list Todo) : list Todo :=
  List.filter isCompletedOnTime (todosWithDueDate todos).

Definition deadlineComplianceRate (toDouble : Q -> Q) (todos : list Todo) : Q :=
  if (0 <? length (todosWithDueDate todos))%nat
  then percentage toDouble (length (completedOnTime todos))
                  (length (todosWithDueDate todos))
  else 0%Q.

(** *** Urgent tasks *)

Definition isUrgent (koreaTime : Z) (todo : Todo) : bool :=
  if completed todo then false
  else if hasPriority high todo then true
  else match due_date todo with
       | Some dueDate =>
           let daysDiff := (dueDate - koreaTime) / msPerDay in
           daysDiff <=? 1
       | None => false
       end.

Definition urgentTasks (koreaTime : Z) (todos : list Todo) : list jsstring :=
  take 5 (List.map title (List.filter (isUrgent koreaTime) todos)).

(** *** Tallies of the overdue and of the completed tasks *)

(** What a tally object holds under a key: a number, or a string. *)
Inductive TallyValue := tally_number (n : nat) | tally_text.

(** [count[cat] = (count[cat] || 0) + 1].  For a label that names an
    inherited member, [count[cat]] is that member, and adding 1 to it gives
    a string, to which every later addition appends; the string is stored
    under the label, except under [__proto__], whose setter ignores a
    string. *)
Definition tallyLabel (counts : gmap (list N) TallyValue) (cat : jsstring)
  : gmap (list N) TallyValue :=
  match counts !! cat with
  | Some (tally_number n) => <[cat := tally_number (n + 1)]> counts
  | Some tally_text => <[cat := tally_text]> counts
  | None =>
      if inherited cat
      then (if bool_decide (cat = js "__proto__") then counts
            else <[cat := tally_text]> counts)
      else <[cat := tally_number 1]> counts
  end.

(** The tally of every label of a task. *)
Definition tallyLabels (counts : gmap (list N) TallyValue) (todo : Todo)
  : gmap (list N) TallyValue :=
  match category todo with
  | Some cats => fold_left tallyLabel cats counts
  | None => counts
  end.

(** The counters with the keys [high], [medium], [low] and [none]. *)
Record PriorityCount := mkPriorityCount {
  count_high : nat; count_medium : nat; count_low : nat; count_none : nat
}.

(** [counts[todo.priority || "none"]++] *)
Definition tallyPriority (counts : PriorityCount) (todo : Todo) : PriorityCount :=
  match priority todo with
  | Some high => mkPriorityCount (S (count_high counts)) (count_medium counts)
                                 (count_low counts) (count_none counts)
  | Some medium => mkPriorityCount (count_high counts) (S (count_medium counts))
                                   (count_low counts) (count_none counts)
  | Some low => mkPriorityCount (count_high counts) (count_medium counts)
                                (S (count_low counts)) (count_none counts)
  | None => mkPriorityCount (count_high counts) (count_medium counts)
                            (count_low counts) (S (count_none counts))
  end.

Definition postponedCategoryCount (koreaTime : Z) (todos : list Todo)
  : gmap (list N) TallyValue :=
  fold_left tallyLabels (overdueTodos koreaTime todos) ∅.

Definition postponedPriorityCount (koreaTime : Z) (todos : list Todo)
  : PriorityCount :=
  fold_left tallyPriority (overdueTodos koreaTime todos) (mkPriorityCount 0 0 0 0).

Definition completedCategoryCount (todos : list Todo)
  : gmap (list N) TallyValue :=
  fold_left tallyLabels (List.filter (fun todo => completed todo) todos) ∅.

Definition completedPriorityCount (todos : list Todo) : PriorityCount :=
  fold_left tallyPriority (List.filter (fun todo => completed todo) todos)
            (mkPriorityCount 0 0 0 0).

(** Reading the counter of a label, 0 when the label has none. *)
Definition countOf (counts : gmap (list N) TallyValue) (cat : jsstring) : nat :=
  match counts !! cat with
  | Some (tally_number n) => n
  | _ => 0%nat
  end.

End AnalyzeStats.

(** ** The analysis endpoint, continued: times of day and days of the week *)

Module Productivity.
Import Analytics.

(** [timeDistribution], with the keys "오전", "오후", "저녁" and "기타". *)
Record TimeDistribution := mkDist {
  dist_morning : nat; dist_afternoon : nat; dist_evening : nat; dist_other : nat
}.

(** An entry of [dayOfWeekStats] and of [hourStats]. *)
Record Produced := mkProduced { prod_created : nat; prod_completed : nat }.

(** [entry.created++], and [entry.completed++] for a completed task. *)
Definition produce (done : bool) (s : Produced) : Produced :=
  mkProduced (S (prod_created s))
             (if done then S (prod_completed s) else prod_completed s).

(** [hourStats], with the keys "새벽", "오전", "오후" and "저녁". *)
Record HourStats := mkHours {
  hours_dawn : Produced; hours_morning : Produced;
  hours_afternoon : Produced; hours_evening : Produced
}.

(** "일요일" ... "토요일" *)
Definition dayNames : list jsstring :=
  [[51068; 50836; 51068]; [50900; 50836; 51068]; [54868; 50836; 51068];
   [49688; 50836; 51068]; [47785; 50836; 51068]; [44552; 50836; 51068];
   [53664; 50836; 51068]]%N.

(** "새벽", "오전", "오후", "저녁": the keys of [hourStats] in the order of
    [Object.entries]. *)
Definition slotNames : list jsstring :=
  [[49352; 48317]; [50724; 51204]; [50724; 54980]; [51200; 45377]]%N.

Section LocalZone.
Variable tz_local : Z.

(** [t.getHours()] *)
Definition getHours (t : Z) : Z := timeInDay tz_local t / 3600000.

(** The body of the first [todos.forEach]: tasks that are due and not
    completed, by the hour of the due timestamp. *)
Definition countDue (dist : TimeDistribution) (todo : Todo) : TimeDistribution :=
  match due_date todo with
  | Some dueDate =>
      if negb (completed todo) then
        let hour := getHours dueDate in
        if (6 <=? hour) && (hour <? 12) then
          mkDist (S (dist_morning dist)) (dist_afternoon dist)
                 (dist_evening dist) (dist_other dist)
        else if (12 <=? hour) && (hour <? 18) then
          mkDist (dist_morning dist) (S (dist_afternoon dist))
                 (dist_evening dist) (dist_other dist)
        else if (18 <=? hour) && (hour <? 22) then
          mkDist (dist_morning dist) (dist_afternoon dist)
                 (S (dist_evening dist)) (dist_other dist)
        else
          mkDist (dist_morning dist) (dist_afternoon dist)
                 (dist_evening dist) (S (dist_other dist))
      else dist
  | None => dist
  end.

Definition timeDistribution (todos : list Todo) : TimeDistribution :=
  fold_left countDue todos (mkDist 0 0 0 0).

(** [dayOfWeekStats]: the entries in the order of their keys, which is the
    order of [dayNames]; the entry of a task is the one at
    [createdDate.getDay()]. *)
Definition countDay (stats : list Produced) (todo : Todo) : list Produced :=
  alter (produce (completed todo))
        (Z.to_nat (getDay tz_local (created_date todo))) stats.

Definition dayOfWeekStats (todos : list Todo) : list Produced :=
  fold_left countDay todos (replicate 7 (mkProduced 0 0)).

(** [hourStats]: the slot of a task is "저녁" unless the hour of its created
    timestamp lies in one of the three earlier ranges. *)
Definition countHour (stats : HourStats) (todo : Todo) : HourStats :=
  let hour := getHours (created_date todo) in
  let done := completed todo in
  if (0 <=? hour) && (hour <? 6) then
    mkHours (produce done (hours_dawn stats)) (hours_morning stats)
            (hours_afternoon stats) (hours_evening stats)
  else if (6 <=? hour) && (hour <? 12) then
    mkHours (hours_dawn stats) (produce done (hours_morning stats))
            (hours_afternoon stats) (hours_evening stats)
  else if (12 <=? hour) && (hour <? 18) then
    mkHours (hours_dawn stats) (hours_morning stats)
            (produce done (hours_afternoon stats)) (hours_evening stats)
  else
    mkHours (hours_dawn stats) (hours_morning stats)
            (hours_afternoon stats) (produce done (hours_evening stats)).

Definition hourStats (todos : list Todo) : HourStats :=
  fold_left countHour todos
            (mkHours (mkProduced 0 0) (mkProduced 0 0) (mkProduced 0 0) (mkProduced 0 0)).

End LocalZone.

(** *** The most productive day and time of day *)

Section Doubles.
Variable toDouble : Q -> Q.

(** [stats.created > 0 ? (stats.completed / stats.created) * 100 : 0] *)
Definition rateOf (s : Produced) : Q :=
  if (0 <? prod_created s)%nat
  then percentage toDouble (prod_completed s) (prod_created s)
  else 0%Q.

(** The comparator [(a, b) => bRate - aRate].  The sort reads the sign of
    the result only; the difference of two doubles has the sign of their
    exact difference, which is the sign of its numerator. *)
Definition byRate (a b : jsstring * Produced) : Z :=
  Qnum (rateOf (snd b) - rateOf (snd a))%Q.

(** [Object.entries(stats).sort(...)[0]] *)
Definition mostProductive (entries : list (jsstring * Produced))
  : option (jsstring * Produced) :=
  head (sort byRate entries).

End Doubles.

Definition dayEntries (stats : list Produced) : list (jsstring * Produced) :=
  combine dayNames stats.

Definition hourEntries (stats : HourStats) : list (jsstring * Produced) :=
  combine slotNames
          [hours_dawn stats; hours_morning stats; hours_afternoon stats;
           hours_evening stats].

(** The tasks of a list that fall on a weekday, or in a range of hours. *)
Definition createdOn (tz_local d : Z) (todo : Todo) : bool :=
  getDay tz_local (created_date todo) =? d.

Definition inHours (lo hi hour : Z) : bool := (lo <=? hour) && (hour <? hi).

End Productivity.

(** ** Vocabulary of the statements about times of day *)

Module ProductivityWords.
Import Productivity.

(** A task that is due, not completed, and due at an hour between [lo]
    (included) and [hi] (excluded). *)
Definition dueInHours (tz_local lo hi : Z) (todo : Todo) : bool :=
  match due_date todo with
  | Some dueDate =>
      negb (completed todo) && inHours lo hi (getHours tz_local dueDate)
  | None => false
  end.

(** A task created at an hour between [lo] and [hi], and such a task that
    is completed. *)
Definition createdInHours (tz_local lo hi : Z) (todo : Todo) : bool :=
  inHours lo hi (getHours tz_local (created_date todo)).

Definition tallyWhere (f : Todo -> bool) (todos : list Todo) : Produced :=
  mkProduced (AnalyzeStats.countIf f todos)
             (AnalyzeStats.countIf (fun t => f t && completed t) todos).

End ProductivityWords.

(** ** The form (components/todo/TodoForm.tsx) *)

Module TodoForm.

(** [TodoInput] (types/todo.ts); [due_date] is the text of the
    [datetime-local] field. *)
Record TodoInput := mkInput {
  in_title : jsstring;
  in_description : option jsstring;
  in_due_date : option jsstring;
  in_priority : option Priority;
  in_category : option (list jsstring);
  in_completed : option bool
}.

(** The state of the form; the priority "none" is [None]. *)
Record FormState := mkForm {
  form_title : jsstring;
  form_description : jsstring;
  form_dueDate : jsstring;
  form_priority : option Priority;
  form_categories : list jsstring;
  form_completed : bool
}.

(** [prev.includes(category)] *)
Definition includesLabel (prev : list jsstring) (category : jsstring) : bool :=
  existsb (fun c => bool_decide (c = category)) prev.

(** The update of [categories] in [toggleCategory]. *)
Definition toggleCategory (category : jsstring) (prev : list jsstring)
  : list jsstring :=
  if includesLabel prev category
  then List.filter (fun c => negb (bool_decide (c = category))) prev
  else prev ++ [category].

(** [s || undefined] *)
Definition orUndefined (s : jsstring) : option jsstring :=
  if truthy s then Some s else None.

(** [handleSubmit]: the data handed to [onSubmit], or nothing for a blank
    title. *)
Definition handleSubmit (f : FormState) : option TodoInput :=
  if negb (truthy (trim (form_title f))) then None
  else Some (mkInput (trim (form_title f))
                     (orUndefined (trim (form_description f)))
                     (orUndefined (form_dueDate f))
                     (form_priority f)
                     (if (0 <? length (form_categories f))%nat
                      then Some (form_categories f) else None)
                     (Some (form_completed f))).

(** [handleAiGenerate] up to its request: the body sent to the extraction
    endpoint, or nothing for a blank text. *)
Definition handleAiGenerate (aiInput : jsstring) : option GenerateTodo.InputField :=
  if negb (truthy (trim aiInput)) then None
  else Some (GenerateTodo.input_string (trim aiInput)).

End TodoForm.

(** ** The handlers of the page that write to the store (app/page.tsx) *)

Module PageHandlers.
Import TodoForm.

(** The columns written by an insert or an update. *)
Record Fields := mkFields {
  fld_title : jsstring;
  fld_description : option jsstring;
  fld_due_date : option jsstring;
  fld_priority : option Priority;
  fld_category : option (list jsstring);
  fld_completed : bool
}.

(** The requests to the table [todos]. *)
Inductive Request :=
| insert (user_id : jsstring) (fields : Fields)
| update (fields : Fields) (id user_id : jsstring)
| update_completed (completed : bool) (id user_id : jsstring)
| delete (id user_id : jsstring).

(** [s || null] for a string. *)
Definition orNull (o : option jsstring) : option jsstring :=
  match o with
  | Some s => if truthy s then Some s else None
  | None => None
  end.

(** [currentUser?.id] when it is truthy; [currentUser] is the id of the
    signed-in user, if any. *)
Definition userId (currentUser : option jsstring) : option jsstring :=
  match currentUser with
  | Some i => if truthy i then Some i else None
  | None => None
  end.

Definition handleAddTodo (currentUser : option jsstring) (data : TodoInput)
  : option Request :=
  match userId currentUser with
  | None => None
  | Some uid =>
      Some (insert uid
              (mkFields (in_title data) (orNull (in_description data))
                        (orNull (in_due_date data)) (in_priority data)
                        (in_category data) false))
  end.

Definition handleUpdateTodo (currentUser : option jsstring)
    (editingTodo : option Todo) (data : TodoInput) : option Request :=
  match editingTodo, userId currentUser with
  | Some editing, Some uid =>
      Some (update
              (mkFields (in_title data) (orNull (in_description data))
                        (orNull (in_due_date data)) (in_priority data)
                        (in_category data)
                        (* [data.completed ?? editingTodo.completed] *)
                        (default (completed editing) (in_completed data)))
              (id editing) uid)
  | _, _ => None
  end.

(** [confirmed] is the answer to [confirm("정말 삭제하시겠습니까?")]. *)
Definition handleDeleteTodo (currentUser : option jsstring) (confirmed : bool)
    (id : jsstring) : option Request :=
  match userId currentUser with
  | None => None
  | Some uid => if negb confirmed then None else Some (delete id uid)
  end.

Definition handleToggleComplete (currentUser : option jsstring)
    (id : jsstring) (completed : bool) : option Request :=
  match userId currentUser with
  | None => None
  | Some uid => Some (update_completed completed id uid)
  end.

Definition handleFormSubmit (currentUser : option jsstring)
    (editingTodo : option Todo) (data : TodoInput) : option Request :=
  match editingTodo with
  | Some _ => handleUpdateTodo currentUser editingTodo data
  | None => handleAddTodo currentUser data
  end.

(** The form submitted to the page. *)
Definition submit (currentUser : option jsstring) (editingTodo : option Todo)
    (f : FormState) : option Request :=
  match handleSubmit f with
  | Some data => handleFormSubmit currentUser editingTodo data
  | None => None
  end.

(** The owner named in a request. *)
Definition ownerOf (r : Request) : jsstring :=
  match r with
  | insert u _ | update _ _ u | update_completed _ _ u | delete _ u => u
  end.

End PageHandlers.

(** * Properties *)

(** ** Facts about [sort] *)

Section SortFacts.
Context {A : Type}.
Variable compareFn : A -> A -> Z.

Lemma sort_insert_In (x y : A) (l : list A) :
  In y (sort_insert compareFn x l) <-> y = x \/ In y l.
Proof.
  induction l as [|z l IH]; simpl.
  - intuition.
  - destruct (compareFn x z <=? 0); simpl; rewrite ?IH; intuition.
Qed.

Lemma sort_In (y : A) (l : list A) : In y (sort compareFn l) <-> In y l.
Proof.
  induction l as [|x l IH]; simpl; [reflexivity|].
  rewrite sort_insert_In, IH. intuition.
Qed.

Lemma sort_insert_Permutation (x : A) (l : list A) :
  Permutation (sort_insert compareFn x l) (x :: l).
Proof.
  induction l as [|z l IH]; simpl; [reflexivity|].
  destruct (compareFn x z <=? 0); [reflexivity|].
  rewrite IH. apply perm_swap.
Qed.

(** The sort rearranges the list and neither drops nor repeats a task. *)
Lemma sort_Permutation (l : list A) : Permutation (sort compareFn l) l.
Proof.
  induction l as [|x l IH]; simpl; [reflexivity|].
  rewrite sort_insert_Permutation, IH. reflexivity.
Qed.

Lemma sort_insert_length (x : A) (l : list A) :
  length (sort_insert compareFn x l) = S (length l).
Proof.
  induction l as [|z l IH]; simpl; [reflexivity|].
  destruct (compareFn x z <=? 0); simpl; congruence.
Qed.

Lemma sort_length (l : list A) : length (sort compareFn l) = length l.
Proof.
  induction l as [|x l IH]; simpl; [reflexivity|].
  rewrite sort_insert_length. congruence.
Qed.

Local Abbreviation precedes := (before compareFn).

Hypothesis before_total : forall a b, precedes a b \/ precedes b a.
Hypothesis before_trans : forall a b c, precedes a b -> precedes b c -> precedes a c.

Lemma sort_insert_sorted (x : A) (l : list A) :
  StronglySorted precedes l -> StronglySorted precedes (sort_insert compareFn x l).
Proof.
  induction 1 as [|z l Hs IH Hz]; simpl.
  - repeat constructor.
  - destruct (Z.leb_spec (compareFn x z) 0) as [Hle|Hgt].
    + constructor; [constructor; assumption|].
      constructor; [exact Hle|].
      eapply List.Forall_impl; [|exact Hz]. intros w Hw.
      eapply before_trans; [exact Hle|exact Hw].
    + constructor; [exact IH|].
      apply List.Forall_forall. intros w Hw.
      apply sort_insert_In in Hw as [->|Hw].
      * destruct (before_total z x) as [H|H]; [exact H|].
        unfold before in H. lia.
      * rewrite List.Forall_forall in Hz. auto.
Qed.

Lemma sort_sorted (l : list A) : StronglySorted precedes (sort compareFn l).
Proof.
  induction l as [|x l IH]; simpl; [constructor|].
  apply sort_insert_sorted, IH.
Qed.

End SortFacts.

Lemma StronglySorted_lookup {A : Type} (R : A -> A -> Prop) (l : list A) :
  StronglySorted R l ->
  forall (i j : nat) (a b : A),
    (i < j)%nat -> l !! i = Some a -> l !! j = Some b -> R a b.
Proof.
  induction 1 as [|x l Hs IH Hx]; intros i j a b Hij Hi Hj.
  - rewrite lookup_nil in Hi. discriminate.
  - destruct j as [|j]; [lia|]. simpl in Hj.
    destruct i as [|i]; simpl in Hi.
    + injection Hi as <-. rewrite List.Forall_forall in Hx.
      apply Hx. apply list_elem_of_In. eapply list_elem_of_lookup_2; eauto.
    + eapply IH; [|exact Hi|exact Hj]. lia.
Qed.

(** ** The Filter/Sort Engine *)

Section FilterSortFacts.
Variable localeCompare : jsstring -> jsstring -> Z.
Variable toLowerCase : jsstring -> jsstring.

Local Abbreviation engine := (filteredAndSortedTodos localeCompare toLowerCase).

Lemma due_asc_total (a b : Todo) :
  before (compareTodos localeCompare by_due asc) a b \/
  before (compareTodos localeCompare by_due asc) b a.
Proof.
  unfold before; simpl.
  destruct (due_date a), (due_date b); lia.
Qed.

Lemma due_asc_trans (a b c : Todo) :
  before (compareTodos localeCompare by_due asc) a b ->
  before (compareTodos localeCompare by_due asc) b c ->
  before (compareTodos localeCompare by_due asc) a c.
Proof.
  unfold before; simpl.
  destruct (due_date a), (due_date b), (due_date c); lia.
Qed.

Lemma due_desc_total (a b : Todo) :
  before (compareTodos localeCompare by_due desc) a b \/
  before (compareTodos localeCompare by_due desc) b a.
Proof.
  unfold before; simpl.
  destruct (due_date a), (due_date b); lia.
Qed.

Lemma due_desc_trans (a b c : Todo) :
  before (compareTodos localeCompare by_due desc) a b ->
  before (compareTodos localeCompare by_due desc) b c ->
  before (compareTodos localeCompare by_due desc) a c.
Proof.
  unfold before; simpl.
  destruct (due_date a), (due_date b), (due_date c); lia.
Qed.

Lemma engine_due_sorted (todos : list Todo) (q : jsstring)
    (s : StatusFilter) (p : PriorityFilter) (o : SortOrder) :
  StronglySorted (before (compareTodos localeCompare by_due o))
                 (engine todos q s p by_due o).
Proof.
  unfold filteredAndSortedTodos. destruct o.
  - apply sort_sorted; [apply due_asc_total|apply due_asc_trans].
  - apply sort_sorted; [apply due_desc_total|apply due_desc_trans].
Qed.

(** Two positions of a list sorted by [due] whose tasks the comparator puts
    in a strict order stand in that order. *)
Lemma engine_due_strict (todos : list Todo) (q : jsstring)
    (s : StatusFilter) (p : PriorityFilter) (o : SortOrder)
    (i j : nat) (a b : Todo) :
  engine todos q s p by_due o !! i = Some a ->
  engine todos q s p by_due o !! j = Some b ->
  0 < compareTodos localeCompare by_due o a b ->
  (j < i)%nat.
Proof.
  intros Hi Hj Hc.
  destruct (Nat.lt_trichotomy i j) as [Hlt|[Heq|Hgt]]; [| |exact Hgt].
  - pose proof (StronglySorted_lookup _ _ (engine_due_sorted todos q s p o)
                  i j a b Hlt Hi Hj) as H.
    unfold before in H. lia.
  - subst j. rewrite Hi in Hj. injection Hj as <-.
    destruct o; simpl in Hc; destruct (due_date a); lia.
Qed.

(** C1 (as the code has it): when the list is sorted by [due], the tasks
    that have a due timestamp stand in the numeric order of their
    timestamps, ascending for [asc] and descending for [desc], because
    [desc] negates the result of the comparator and [asc] uses it as it is.
    The tasks without a due timestamp stand after all tasks that have one
    for [asc], and before all of them for [desc]. *)
Theorem sort_by_due_places_undated
    (todos : list Todo) (q : jsstring) (s : StatusFilter) (p : PriorityFilter) :
  (forall a b : Todo,
      compareTodos localeCompare by_due asc a b = comparison localeCompare by_due a b /\
      compareTodos localeCompare by_due desc a b = - comparison localeCompare by_due a b) /\
  (forall (a b : Todo) (da db : Z),
      due_date a = Some da -> due_date b = Some db ->
      comparison localeCompare by_due a b = da - db) /\
  undated_after_dated (engine todos q s p by_due asc) /\
  dated_ascending (engine todos q s p by_due asc) /\
  undated_before_dated (engine todos q s p by_due desc) /\
  dated_descending (engine todos q s p by_due desc).
Proof.
  split; [intros a b; split; reflexivity|].
  split; [intros a b da db Ha Hb; simpl; rewrite Ha, Hb; reflexivity|].
  repeat split.
  - intros i j a b Hi Hj Ha Hb.
    eapply engine_due_strict; [exact Hi|exact Hj|].
    simpl. rewrite Ha. destruct (due_date b); [lia|congruence].
  - intros i j a b da db Hij Hi Hj Ha Hb.
    pose proof (StronglySorted_lookup _ _ (engine_due_sorted todos q s p asc)
                  i j a b Hij Hi Hj) as H.
    unfold before in H. simpl in H. rewrite Ha, Hb in H. lia.
  - intros i j a b Hi Hj Ha Hb.
    eapply engine_due_strict; [exact Hj|exact Hi|].
    simpl. rewrite Ha. destruct (due_date b); [lia|congruence].
  - intros i j a b da db Hij Hi Hj Ha Hb.
    pose proof (StronglySorted_lookup _ _ (engine_due_sorted todos q s p desc)
                  i j a b Hij Hi Hj) as H.
    unfold before in H. simpl in H. rewrite Ha, Hb in H. lia.
Qed.

(** The steps of the engine only remove tasks, and the sort keeps them. *)
Lemma engine_In (todos : list Todo) (q : jsstring) (s : StatusFilter)
    (p : PriorityFilter) (sb : SortBy) (o : SortOrder) (t : Todo) :
  In t (engine todos q s p sb o) <->
  In t (priority_step p (status_step s (search_step toLowerCase q todos))).
Proof. unfold filteredAndSortedTodos. apply sort_In. Qed.

Lemma priority_step_In (p : PriorityFilter) (l : list Todo) (t : Todo) :
  In t (priority_step p l) <-> In t l /\ matchesPriority p t = true.
Proof.
  destruct p as [|x]; simpl; [intuition|].
  rewrite filter_In, bool_decide_eq_true.
  destruct (priority t) as [[]|]; destruct x; simpl; intuition congruence.
Qed.

Lemma status_step_In (s : StatusFilter) (l : list Todo) (t : Todo) :
  In t (status_step s l) <-> In t l /\ matchesStatus s t = true.
Proof.
  destruct s; simpl; rewrite ?filter_In, ?bool_decide_eq_true;
    unfold no_due; destruct (completed t), (due_date t); simpl;
    intuition congruence.
Qed.

(** C2: whatever the task set, the search string, the priority filter and
    the sort setting are, every task returned under the status filter
    [waiting] is returned under the status filter [pending]. *)
Theorem waiting_subset_of_pending
    (todos : list Todo) (q : jsstring) (p : PriorityFilter)
    (sb : SortBy) (o : SortOrder) (t : Todo) :
  In t (engine todos q status_waiting p sb o) ->
  In t (engine todos q status_pending p sb o).
Proof.
  rewrite !engine_In, !priority_step_In, !status_step_In.
  intros [[Hin Hs] Hp]. repeat split; try assumption.
  simpl in *. apply bool_decide_eq_true in Hs as [Hc _].
  apply bool_decide_eq_true. exact Hc.
Qed.

End FilterSortFacts.

(** C1, counterexample to the statement for [desc]: with one task due at
    1000 and one task without a due timestamp, sorting by [due] with
    direction [desc] puts the task without a due timestamp first. *)
Lemma sort_by_due_desc_undated_first :
  filteredAndSortedTodos ordinalCompare asciiLowerCase [datedTask; undatedTask] []
    status_all priority_all by_due desc = [undatedTask; datedTask] /\
  ~ undated_after_dated
      (filteredAndSortedTodos ordinalCompare asciiLowerCase [datedTask; undatedTask] []
         status_all priority_all by_due desc).
Proof.
  split; [reflexivity|].
  intros H.
  specialize (H 0%nat 1%nat undatedTask datedTask eq_refl eq_refl eq_refl).
  simpl in H. assert (1 < 0)%nat by (apply H; discriminate). lia.
Qed.

Lemma waiting_subset_of_pending_witness :
  In undatedTask
     (filteredAndSortedTodos ordinalCompare asciiLowerCase [datedTask; undatedTask] []
        status_waiting priority_all by_due asc) /\
  In undatedTask
     (filteredAndSortedTodos ordinalCompare asciiLowerCase [datedTask; undatedTask] []
        status_pending priority_all by_due asc).
Proof.
  assert (Hw : In undatedTask
     (filteredAndSortedTodos ordinalCompare asciiLowerCase [datedTask; undatedTask] []
        status_waiting priority_all by_due asc)) by (left; reflexivity).
  split; [exact Hw|].
  exact (waiting_subset_of_pending ordinalCompare asciiLowerCase
           [datedTask; undatedTask] [] priority_all by_due asc undatedTask Hw).
Defined.

(** ** The search step *)

Lemma truthy_trimStart (s : jsstring) : truthy (trimStart s) = negb (blank s).
Proof.
  induction s as [|c s IH]; simpl; [reflexivity|].
  destruct (isWhiteSpace c); simpl; [exact IH|reflexivity].
Qed.

Lemma blank_trimStart (s : jsstring) : blank (trimStart s) = blank s.
Proof.
  induction s as [|c s IH]; simpl; [reflexivity|].
  destruct (isWhiteSpace c) eqn:E; simpl; [exact IH|].
  rewrite E. reflexivity.
Qed.

Lemma truthy_trimEnd (s : jsstring) : truthy (trimEnd s) = negb (blank s).
Proof.
  induction s as [|c s IH]; simpl; [reflexivity|].
  destruct (trimEnd s) as [|d r]; simpl in *.
  - apply (f_equal negb) in IH. rewrite negb_involutive in IH.
    rewrite <- IH, andb_true_r. destruct (isWhiteSpace c); reflexivity.
  - apply (f_equal negb) in IH. rewrite negb_involutive in IH.
    rewrite <- IH, andb_false_r. reflexivity.
Qed.

(** [searchQuery.trim()] is falsy exactly for a blank search string. *)
Lemma truthy_trim (q : jsstring) : truthy (trim q) = negb (blank q).
Proof.
  unfold trim. rewrite truthy_trimEnd, blank_trimStart. reflexivity.
Qed.

Lemma isWhiteSpace_lower_unit (c : N) :
  isWhiteSpace (lower_unit c) = isWhiteSpace c.
Proof.
  unfold lower_unit.
  destruct ((65 <=? c) && (c <=? 90))%N eqn:E; [|reflexivity].
  apply andb_true_iff in E as [H1 H2].
  apply N.leb_le in H1, H2.
  assert (Hc : isWhiteSpace c = false).
  { apply not_true_is_false. unfold isWhiteSpace.
    rewrite !orb_true_iff, !andb_true_iff, !N.leb_le, !N.eqb_eq. lia. }
  rewrite Hc. apply not_true_is_false. unfold isWhiteSpace.
  rewrite !orb_true_iff, !andb_true_iff, !N.leb_le, !N.eqb_eq. lia.
Qed.

Lemma blank_asciiLowerCase (q : jsstring) : blank (asciiLowerCase q) = blank q.
Proof.
  unfold blank, asciiLowerCase. induction q as [|c q IH]; simpl; [reflexivity|].
  rewrite isWhiteSpace_lower_unit, IH. reflexivity.
Qed.

Lemma filter_all {A : Type} (l : list A) : List.filter (fun _ => true) l = l.
Proof. induction l as [|x l IH]; simpl; congruence. Qed.

Lemma filter_fuse {A : Type} (f g : A -> bool) (l : list A) :
  List.filter g (List.filter f l) = List.filter (fun x => f x && g x) l.
Proof.
  induction l as [|x l IH]; simpl; [reflexivity|].
  destruct (f x); simpl; [destruct (g x)|]; congruence.
Qed.

Lemma search_step_filter (toLowerCase : jsstring -> jsstring) (q : jsstring)
    (l : list Todo) :
  search_step toLowerCase q l = List.filter (matchesSearch toLowerCase q) l.
Proof.
  unfold search_step, matchesSearch. rewrite truthy_trim.
  destruct (blank q); simpl; [symmetry; apply filter_all|reflexivity].
Qed.

Lemma status_step_filter (s : StatusFilter) (l : list Todo) :
  status_step s l = List.filter (matchesStatus s) l.
Proof.
  destruct s; simpl; [symmetry; apply filter_all| | |];
    apply List.filter_ext; intros t; unfold no_due, matchesStatus;
    destruct (completed t), (due_date t); reflexivity.
Qed.

Lemma priority_step_filter (p : PriorityFilter) (l : list Todo) :
  priority_step p l = List.filter (matchesPriority p) l.
Proof.
  destruct p as [|x]; simpl; [symmetry; apply filter_all|].
  apply List.filter_ext; intros t. unfold matchesPriority.
  destruct (priority t) as [[]|]; destruct x; reflexivity.
Qed.

Lemma startsWith_spec (s p : jsstring) :
  startsWith s p = true <-> exists post, s = p ++ post.
Proof.
  revert s. induction p as [|a p IH]; intros [|b s]; simpl.
  - split; [intros _; exists []; reflexivity|reflexivity].
  - split; [intros _; exists (b :: s); reflexivity|reflexivity].
  - split; [discriminate|intros [post H]; discriminate].
  - rewrite andb_true_iff, N.eqb_eq, IH. split.
    + intros [-> [post ->]]. exists post. reflexivity.
    + intros [post H]. injection H as -> ->. eauto.
Qed.

(** [includes] is the substring relation. *)
Lemma includes_spec (s q : jsstring) :
  includes s q = true <-> exists pre post, s = pre ++ q ++ post.
Proof.
  induction s as [|b s IH]; cbn [includes].
  - rewrite orb_false_r, startsWith_spec. split.
    + intros [post H]. exists [], post. exact H.
    + intros [pre [post H]]. destruct pre; [eauto|discriminate].
  - rewrite orb_true_iff, startsWith_spec, IH. split.
    + intros [[post H]|[pre [post H]]].
      * exists [], post. exact H.
      * exists (b :: pre), post. rewrite H. reflexivity.
    + intros [pre [post H]]. destruct pre as [|c pre].
      * left. exists post. exact H.
      * right. injection H as -> ->. eauto.
Qed.

(** C3: the engine runs the search, status and priority filters in this
    order and sorts the outcome once; a task is kept exactly when it passes
    all three filters.  The search keeps every task when the search string
    is empty or white space only; otherwise it keeps the tasks whose
    lower-cased title contains the lower-cased search string, and looks at
    no other field.  Two search strings, or two titles, that differ in case
    only (their lower-casings are equal) are not told apart; on Basic Latin
    text the letters A-Z and a-z are identified, so that "MILK" finds "Buy
    milk".  On the tasks "A" (high, not completed) and "B" (low,
    completed), both without due timestamp: [pending] returns A alone,
    priority [high] returns A alone, and the sort by priority [desc] gives
    A, B. *)
Theorem engine_filters_conjunctive_then_sort
    (localeCompare : jsstring -> jsstring -> Z)
    (toLowerCase : jsstring -> jsstring) :
  lowersBasicLatin toLowerCase ->
  let engine := filteredAndSortedTodos localeCompare toLowerCase in
  let search := search_step toLowerCase in
  (forall todos q s p sb o,
      engine todos q s p sb o =
      sort (compareTodos localeCompare sb o)
           (priority_step p (status_step s (search q todos)))) /\
  (forall todos q s p sb o,
      engine todos q s p sb o =
      sort (compareTodos localeCompare sb o)
           (List.filter (fun t => matchesSearch toLowerCase q t
                                  && matchesStatus s t
                                  && matchesPriority p t) todos)) /\
  (forall q l, blank q = true -> search q l = l) /\
  (forall q l t, blank q = false ->
      (In t (search q l) <->
       In t l /\
       exists pre post, toLowerCase (title t) = pre ++ toLowerCase q ++ post)) /\
  (forall q q' l,
      blank q = false -> blank q' = false ->
      toLowerCase q = toLowerCase q' ->
      search q l = search q' l) /\
  (forall q t t',
      toLowerCase (title t) = toLowerCase (title t') ->
      matchesSearch toLowerCase q t = matchesSearch toLowerCase q t') /\
  (forall q l t,
      blank q = false -> isAscii q = true -> isAscii (title t) = true ->
      (In t (search q l) <->
       In t l /\
       exists pre post,
         asciiLowerCase (title t) = pre ++ asciiLowerCase q ++ post)) /\
  (forall t, title t = js "Buy milk" ->
      search (js "MILK") [t] = [t] /\ search (js "bread") [t] = []) /\
  (forall i u d c cat i' u' d' c' cat' sb o,
      let A := taskA i u d c cat in
      let B := taskB i' u' d' c' cat' in
      engine [A; B] [] status_pending priority_all sb o = [A] /\
      engine [A; B] [] status_all (priority_is high) sb o = [A] /\
      engine [A; B] [] status_all priority_all by_priority desc = [A; B] /\
      engine [B; A] [] status_all priority_all by_priority desc = [A; B]).
Proof.
  intros Hlow engine search. unfold engine, search.
  assert (Hin : forall q l t, blank q = false ->
      (In t (search_step toLowerCase q l) <->
       In t l /\
       exists pre post, toLowerCase (title t) = pre ++ toLowerCase q ++ post)).
  { intros q l t Hq. rewrite search_step_filter, filter_In.
    unfold matchesSearch. rewrite Hq. simpl. rewrite includes_spec.
    reflexivity. }
  split; [reflexivity|].
  split.
  { intros. unfold filteredAndSortedTodos.
    rewrite search_step_filter, status_step_filter, priority_step_filter.
    rewrite !filter_fuse. f_equal. apply List.filter_ext. intros t.
    destruct (matchesSearch toLowerCase q t), (matchesStatus s t); reflexivity. }
  split.
  { intros q l Hq. rewrite search_step_filter. unfold matchesSearch.
    rewrite Hq. apply filter_all. }
  split; [exact Hin|].
  split.
  { intros q q' l Hq Hq' Heq. rewrite !search_step_filter.
    apply List.filter_ext. intros t. unfold matchesSearch.
    rewrite Hq, Hq', Heq. reflexivity. }
  split.
  { intros q t t' Heq. unfold matchesSearch. rewrite Heq. reflexivity. }
  split.
  { intros q l t Hq Hqa Hta. rewrite Hin by exact Hq.
    rewrite (Hlow q Hqa), (Hlow (title t) Hta). reflexivity. }
  split.
  { intros t Ht. unfold search_step.
    replace (truthy (trim (js "MILK"))) with true by reflexivity.
    replace (truthy (trim (js "bread"))) with true by reflexivity.
    cbv zeta. simpl List.filter. rewrite Ht.
    rewrite !Hlow by reflexivity. split; reflexivity. }
  intros i u d c cat i' u' d' c' cat' sb o.
  repeat split; destruct sb, o; reflexivity.
Qed.

Lemma engine_filters_conjunctive_then_sort_witness :
  lowersBasicLatin asciiLowerCase /\
  search_step asciiLowerCase (js "MILK")
    [mkTodo [] [] (js "Buy milk") (Some (js "and bread")) 0 None None None false]
  = [mkTodo [] [] (js "Buy milk") (Some (js "and bread")) 0 None None None false].
Proof.
  assert (Hlow : lowersBasicLatin asciiLowerCase)
    by (intros s _; reflexivity).
  split; [exact Hlow|].
  exact (proj1 (proj1 (proj2 (proj2 (proj2 (proj2 (proj2 (proj2 (proj2
    (engine_filters_conjunctive_then_sort ordinalCompare asciiLowerCase
       Hlow))))))))
    (mkTodo [] [] (js "Buy milk") (Some (js "and bread")) 0 None None None false)
    eq_refl)).
Defined.

(** The search ignores the case of both sides: "MILK" finds "Buy milk";
    and it does not look into the description. *)
Example search_ignores_case :
  matchesSearch asciiLowerCase (js "MILK")
    (mkTodo [] [] (js "Buy milk") None 0 None None None false) = true /\
  matchesSearch asciiLowerCase (js "bread")
    (mkTodo [] [] (js "Buy milk") (Some (js "and bread")) 0 None None None false) = false.
Proof. split; reflexivity. Qed.

(** ** Dates and the analysis windows *)

(** Day numbers of known dates: 1 November 2026 (a Sunday), 29 February
    2000 and 1 March 1900. *)
Example MakeDay_examples :
  MakeDay 1970 1 1 = 0 /\ MakeDay 2026 11 1 = 20758 /\
  MakeDay 2000 2 29 = 11016 /\ MakeDay 1900 3 1 = -25508 /\
  getDay 0 (MakeDay 2026 11 1 * msPerDay) = 0.
Proof. vm_compute. repeat split. Qed.

Section WindowFacts.
Variable tz_local : Z.

Lemma localDay_setHours (t h mi s ms : Z) :
  0 <= MakeTime h mi s ms < msPerDay ->
  localDay tz_local (setHours tz_local t h mi s ms) = localDay tz_local t.
Proof.
  intros H. unfold setHours, localDay, localTime, fromLocal.
  set (q := (t + tz_local) / msPerDay).
  replace (q * msPerDay + MakeTime h mi s ms - tz_local + tz_local)
    with (MakeTime h mi s ms + q * msPerDay) by lia.
  rewrite Z.div_add by (unfold msPerDay; lia).
  rewrite Z.div_small by exact H. lia.
Qed.

Lemma timeInDay_setHours (t h mi s ms : Z) :
  0 <= MakeTime h mi s ms < msPerDay ->
  timeInDay tz_local (setHours tz_local t h mi s ms) = MakeTime h mi s ms.
Proof.
  intros H. unfold setHours, timeInDay, localDay, localTime, fromLocal.
  set (q := (t + tz_local) / msPerDay).
  replace (q * msPerDay + MakeTime h mi s ms - tz_local + tz_local)
    with (MakeTime h mi s ms + q * msPerDay) by lia.
  rewrite Z.mod_add by (unfold msPerDay; lia).
  apply Z.mod_small. exact H.
Qed.

Lemma localDay_shiftDate (t k : Z) :
  localDay tz_local (shiftDate t k) = localDay tz_local t + k.
Proof.
  unfold shiftDate, localDay, localTime.
  replace (t + k * msPerDay + tz_local) with (t + tz_local + k * msPerDay) by lia.
  apply Z.div_add. unfold msPerDay. lia.
Qed.

(** A time value is its local day and its time within that day. *)
Lemma local_decomposition (t : Z) :
  t = fromLocal tz_local (localDay tz_local t * msPerDay + timeInDay tz_local t).
Proof.
  unfold fromLocal, localDay, timeInDay, localTime.
  pose proof (Z.div_mod (t + tz_local) msPerDay) as H.
  unfold msPerDay in *. lia.
Qed.

Lemma setHours_midnight_le (t : Z) : setHours tz_local t 0 0 0 0 <= t.
Proof.
  unfold setHours, fromLocal, localDay, localTime, MakeTime.
  pose proof (Z.mod_pos_bound (t + tz_local) msPerDay) as Hm.
  pose proof (Z.div_mod (t + tz_local) msPerDay) as Hd.
  unfold msPerDay in *. lia.
Qed.

(** [koreaTime] is the local midnight that opens the Seoul calendar day of
    [now]. *)
Lemma koreaTime_day (now : Z) :
  localDay tz_local (koreaTime tz_local now) = (now + tz_seoul) / msPerDay /\
  timeInDay tz_local (koreaTime tz_local now) = 0.
Proof.
  unfold koreaTime. split.
  - rewrite localDay_setHours by (unfold MakeTime, msPerDay; lia).
    unfold localDay, localTime, seoulWallClock, fromLocal.
    replace ((now + tz_seoul) / 1000 * 1000 - tz_local + tz_local)
      with ((now + tz_seoul) / 1000 * 1000) by lia.
    unfold msPerDay. generalize (now + tz_seoul). intros x.
    replace 86400000 with (1000 * 86400) by reflexivity.
    rewrite <- (Z.div_div (x / 1000 * 1000) 1000 86400) by lia.
    rewrite <- (Z.div_div x 1000 86400) by lia.
    rewrite Z.div_mul by lia. reflexivity.
  - rewrite timeInDay_setHours by (unfold MakeTime, msPerDay; lia).
    reflexivity.
Qed.

End WindowFacts.

Section WeekWindow.
Variable tz_local : Z.

Local Abbreviation day := (localDay tz_local).
Local Abbreviation time := (timeInDay tz_local).

Lemma monday_parts (now : Z) :
  let k := koreaTime tz_local now in
  let w := getDay tz_local k in
  day (monday tz_local now) = day k - (if w =? 0 then 6 else w - 1) /\
  time (monday tz_local now) = 0.
Proof.
  intros k w. unfold monday, dayOfWeek. fold k. fold w. split.
  - rewrite localDay_setHours by (unfold MakeTime, msPerDay; lia).
    rewrite localDay_shiftDate. lia.
  - rewrite timeInDay_setHours by (unfold MakeTime, msPerDay; lia).
    reflexivity.
Qed.

Lemma sunday_parts (now : Z) :
  day (sunday tz_local now) = day (monday tz_local now) + 6 /\
  time (sunday tz_local now) = MakeTime 23 59 59 999.
Proof.
  unfold sunday. split.
  - rewrite localDay_setHours by (unfold MakeTime, msPerDay; lia).
    apply localDay_shiftDate.
  - apply timeInDay_setHours. unfold MakeTime, msPerDay. lia.
Qed.

(** C4: the [week] window.  [koreaTime] is the local midnight of the Seoul
    calendar day of the current instant; [monday] lies the stated number of
    days before it (6 for a Sunday, weekday - 1 otherwise), is a Monday and
    reads 00:00:00.000; [sunday] lies six days after [monday], is a Sunday
    and reads 23:59:59.999; the current day lies between them.  For a
    Wednesday the window runs from the midnight two days earlier to
    23:59:59.999 four days later. *)
Theorem week_window_monday_to_sunday (now : Z) :
  let k := koreaTime tz_local now in
  let w := getDay tz_local k in
  let offset := if w =? 0 then 6 else w - 1 in
  (day k = (now + tz_seoul) / msPerDay /\ time k = 0) /\
  window tz_local week now = (monday tz_local now, sunday tz_local now) /\
  monday tz_local now = k - offset * msPerDay /\
  getDay tz_local (monday tz_local now) = 1 /\
  time (monday tz_local now) = 0 /\
  sunday tz_local now = monday tz_local now + 6 * msPerDay + MakeTime 23 59 59 999 /\
  getDay tz_local (sunday tz_local now) = 0 /\
  time (sunday tz_local now) = MakeTime 23 59 59 999 /\
  monday tz_local now <= k <= sunday tz_local now /\
  (w = 3 ->
   monday tz_local now = k - 2 * msPerDay /\
   sunday tz_local now = k + 4 * msPerDay + MakeTime 23 59 59 999).
Proof.
  intros k w offset.
  destruct (koreaTime_day tz_local now) as [Hkd Hkt]. fold k in Hkd, Hkt.
  destruct (monday_parts now) as [Hmd Hmt]. fold k in Hmd. fold w in Hmd.
  fold offset in Hmd.
  destruct (sunday_parts now) as [Hsd Hst].
  pose proof (local_decomposition tz_local k) as Ek.
  pose proof (local_decomposition tz_local (monday tz_local now)) as Em.
  pose proof (local_decomposition tz_local (sunday tz_local now)) as Es.
  rewrite Hkt in Ek. rewrite Hmd, Hmt in Em. rewrite Hsd, Hst, Hmd in Es.
  unfold fromLocal in Ek, Em, Es.
  assert (Hw : w = (day k + 4) mod 7) by reflexivity.
  assert (Hw7 : 0 <= w < 7) by (rewrite Hw; apply Z.mod_pos_bound; lia).
  assert (Hoff : 0 <= offset <= 6)
    by (unfold offset; destruct (Z.eqb_spec w 0); lia).
  assert (Hmon : monday tz_local now = k - offset * msPerDay) by lia.
  assert (Hsun : sunday tz_local now
                 = monday tz_local now + 6 * msPerDay + MakeTime 23 59 59 999)
    by lia.
  split; [split; assumption|].
  split; [reflexivity|].
  split; [exact Hmon|].
  split.
  { unfold getDay. rewrite Hmd. unfold offset.
    destruct (Z.eqb_spec w 0) as [H0|H0];
      revert Hw; generalize (day k); intros D Hw;
      Z.div_mod_to_equations; lia. }
  split; [exact Hmt|].
  split; [exact Hsun|].
  split.
  { unfold getDay. rewrite Hsd, Hmd. unfold offset.
    destruct (Z.eqb_spec w 0) as [H0|H0];
      revert Hw; generalize (day k); intros D Hw;
      Z.div_mod_to_equations; lia. }
  split; [exact Hst|].
  split.
  { unfold MakeTime, msPerDay in *. lia. }
  intros H3. unfold offset in Hmon. rewrite H3 in Hmon. simpl in Hmon.
  unfold MakeTime, msPerDay in *. lia.
Qed.

(** Wednesday 4 November 2026, 12:00 in Seoul, on a runtime whose local zone
    is Seoul's: the window runs from Monday 2 November, 00:00:00.000, to
    Sunday 8 November, 23:59:59.999. *)
Example week_window_wednesday :
  let now := MakeDay 2026 11 4 * msPerDay + MakeTime 12 0 0 0 - tz_seoul in
  getDay tz_seoul (koreaTime tz_seoul now) = 3 /\
  localTime tz_seoul (monday tz_seoul now)
    = MakeDay 2026 11 2 * msPerDay + MakeTime 0 0 0 0 /\
  localTime tz_seoul (sunday tz_seoul now)
    = MakeDay 2026 11 8 * msPerDay + MakeTime 23 59 59 999.
Proof. vm_compute. repeat split. Qed.

(** C10: membership in the analysis subset.  For [today] and for [week], a
    task is kept if and only if its created timestamp lies between the two
    boundaries of the window, both included, or it has a due timestamp and
    that one lies between them; a task without a due timestamp is kept by
    its created timestamp only. *)
Theorem window_membership (period : Period) (now : Z) (todos : list Todo) (t : Todo) :
  let start := fst (window tz_local period now) in
  let stop := snd (window tz_local period now) in
  (In t (filteredTodos tz_local period now todos) <->
   In t todos /\
   (start <= created_date t <= stop \/
    exists due, due_date t = Some due /\ start <= due <= stop)) /\
  (due_date t = None ->
   (In t (filteredTodos tz_local period now todos) <->
    In t todos /\ start <= created_date t <= stop)).
Proof.
  intros start stop. unfold filteredTodos.
  assert (Hw : forall d, within (window tz_local period now) d = true
                         <-> start <= d <= stop).
  { intros d. unfold within. rewrite andb_true_iff, !Z.leb_le. reflexivity. }
  split.
  - rewrite filter_In. unfold inPeriod.
    destruct (due_date t) as [due|].
    + rewrite orb_true_iff, !Hw. split.
      * intros [Hin [Hc|Hd]]; split; eauto.
      * intros [Hin [Hc|[due' [E Hd]]]]; split; auto.
        injection E as <-. auto.
    + rewrite Hw. split.
      * intros [Hin Hc]; split; auto.
      * intros [Hin [Hc|[due' [E _]]]]; [auto|discriminate].
  - intros Hnone. rewrite filter_In. unfold inPeriod. rewrite Hnone, Hw.
    reflexivity.
Qed.

End WeekWindow.

(** ** The completion rate *)

Section CompletionRate.
Import Analytics.
Variable toDouble : Q -> Q.
Hypothesis rounding : roundsToNearest toDouble.

Lemma completedTodos_le (todos : list Todo) :
  (completedTodos todos <= length todos)%nat.
Proof. unfold completedTodos. apply List.filter_length_le. Qed.

Lemma completedTodos_zero (todos : list Todo) :
  completedTodos todos = 0%nat <-> Forall (fun t => completed t = false) todos.
Proof.
  unfold completedTodos. induction todos as [|t l IH]; simpl.
  - split; [constructor|reflexivity].
  - destruct (completed t) eqn:E; simpl.
    + split; [discriminate|]. intros H. inversion H; congruence.
    + rewrite IH. split; [intros H; constructor; assumption|].
      intros H. inversion H; assumption.
Qed.

Lemma toDouble_Qeq (x y : Q) : (x == y)%Q -> (toDouble x == toDouble y)%Q.
Proof.
  destruct rounding as (Hmono & _). intros H.
  apply Qle_antisym; apply Hmono; rewrite H; apply Qle_refl.
Qed.

Lemma ratio_bounds (c n : nat) :
  (0 < n)%nat -> (c <= n)%nat ->
  (0 <= inject_Z (Z.of_nat c) / inject_Z (Z.of_nat n) <= 1)%Q.
Proof.
  intros Hn Hc.
  assert (Hn' : (0 < inject_Z (Z.of_nat n))%Q).
  { rewrite <- (Zlt_Qlt 0). lia. }
  split.
  - apply Qle_shift_div_l; [exact Hn'|].
    rewrite Qmult_0_l. rewrite <- (Zle_Qle 0). lia.
  - apply Qle_shift_div_r; [exact Hn'|].
    rewrite Qmult_1_l. rewrite <- Zle_Qle. lia.
Qed.

Lemma percentage_bounds (c n : nat) :
  (0 < n)%nat -> (c <= n)%nat ->
  (0 <= percentage toDouble c n <= 100)%Q.
Proof.
  intros Hn Hc. unfold percentage.
  destruct rounding as (Hmono & H0 & H1 & H100 & _).
  destruct (ratio_bounds c n Hn Hc) as [Hlo Hhi].
  apply Hmono in Hlo, Hhi. rewrite H0 in Hlo. rewrite H1 in Hhi.
  split.
  - apply Qle_trans with (toDouble 0); [rewrite H0; apply Qle_refl|].
    apply Hmono. apply Qmult_le_0_compat; [exact Hlo|discriminate].
  - apply Qle_trans with (toDouble 100); [|rewrite H100; apply Qle_refl].
    apply Hmono.
    apply Qle_trans with (1 * 100)%Q; [|discriminate].
    apply Qmult_le_compat_r; [exact Hhi|discriminate].
Qed.

(** With at least one completed task among fewer than 2^32 the rate is at
    least 2^-32. *)
Lemma percentage_positive (c n : nat) :
  (0 < c)%nat -> (c <= n)%nat -> Z.of_nat n < 4294967296 ->
  (0 < percentage toDouble c n)%Q.
Proof.
  intros Hc Hcn Hn. unfold percentage.
  destruct rounding as (Hmono & _ & _ & _ & Htiny).
  assert (Hn' : (0 < inject_Z (Z.of_nat n))%Q).
  { rewrite <- (Zlt_Qlt 0). lia. }
  assert (Hratio : (1 # 4294967296 <=
                    inject_Z (Z.of_nat c) / inject_Z (Z.of_nat n))%Q).
  { apply Qle_shift_div_l; [exact Hn'|].
    apply Qle_trans with 1%Q.
    - unfold Qle, Qmult, inject_Z. cbn [Qnum Qden]. lia.
    - rewrite <- (Zle_Qle 1). lia. }
  apply Hmono in Hratio. rewrite Htiny in Hratio.
  apply Qlt_le_trans with (1 # 4294967296)%Q; [reflexivity|].
  apply Qle_trans with (toDouble (1 # 4294967296));
    [rewrite Htiny; apply Qle_refl|].
  apply Hmono.
  apply Qle_trans with ((1 # 4294967296) * 100)%Q; [discriminate|].
  apply Qmult_le_compat_r; [exact Hratio|discriminate].
Qed.

Lemma percentage_of_none (n : nat) : (percentage toDouble 0 n == 0)%Q.
Proof.
  unfold percentage. pose proof rounding as (_ & H0 & _).
  apply Qeq_trans with (toDouble 0); [|exact H0].
  apply toDouble_Qeq.
  apply Qeq_trans with (0 * 100)%Q; [|reflexivity].
  apply Qmult_comp; [|reflexivity].
  apply Qeq_trans with (toDouble 0); [|exact H0].
  apply toDouble_Qeq. unfold Qdiv. apply Qmult_0_l.
Qed.

(** C6: the completion rate of the endpoint and the one of the page agree;
    for a non-empty subset the rate is (completed tasks / all tasks) x 100
    in the arithmetic of doubles, for the empty subset it is 0; it lies
    between 0 and 100; and it is 0 exactly when the subset is empty or none
    of its tasks is completed.  [todos] is an array, of fewer than 2^32
    tasks. *)
Theorem completion_rate_range (todos : list Todo) :
  Z.of_nat (length todos) < 4294967296 ->
  completionRate toDouble todos = calculateCompletionRate toDouble todos /\
  (todos <> [] ->
   completionRate toDouble todos =
   toDouble (toDouble (inject_Z (Z.of_nat (completedTodos todos))
                       / inject_Z (Z.of_nat (length todos))) * 100)%Q) /\
  (todos = [] -> completionRate toDouble todos = 0%Q) /\
  (0 <= completionRate toDouble todos <= 100)%Q /\
  ((completionRate toDouble todos == 0)%Q <->
   todos = [] \/ completedTodos todos = 0%nat) /\
  ((completionRate toDouble todos == 0)%Q <->
   todos = [] \/ Forall (fun t => completed t = false) todos).
Proof.
  intros Hlen.
  assert (Hzero : (completionRate toDouble todos == 0)%Q <->
                  todos = [] \/ completedTodos todos = 0%nat).
  { unfold completionRate. destruct todos as [|t l].
    - simpl. split; [intros _; left; reflexivity|reflexivity].
    - change (0 <? length (t :: l))%nat with true. cbv iota. split.
      + intros H. right.
        destruct (completedTodos (t :: l)) as [|c] eqn:E; [reflexivity|].
        pose proof (completedTodos_le (t :: l)) as Hle. rewrite E in Hle.
        pose proof (percentage_positive (S c) (length (t :: l))
                      ltac:(lia) Hle Hlen) as Hpos.
        rewrite H in Hpos. discriminate Hpos.
      + intros [H|H]; [discriminate|].
        rewrite H. apply percentage_of_none. }
  split.
  { unfold completionRate, calculateCompletionRate.
    destruct todos; reflexivity. }
  split.
  { intros Hne. unfold completionRate. destruct todos; [congruence|reflexivity]. }
  split.
  { intros ->. reflexivity. }
  split.
  { unfold completionRate. destruct todos as [|t l].
    - simpl. split; discriminate.
    - change (0 <? length (t :: l))%nat with true. cbv iota.
      apply percentage_bounds; [simpl; lia|].
      apply (completedTodos_le (t :: l)). }
  split; [exact Hzero|].
  rewrite Hzero, completedTodos_zero. reflexivity.
Qed.

End CompletionRate.

Section CompletionRateExamples.
Import Analytics.

Lemma completion_rate_range_witness :
  roundsToNearest exact /\
  Z.of_nat (length [datedTask; twiceWork]) < 4294967296 /\
  (0 <= completionRate exact [datedTask; twiceWork] <= 100)%Q.
Proof.
  assert (R : roundsToNearest exact).
  { unfold roundsToNearest, exact.
    split; [intros x y H; exact H|]. repeat split. }
  assert (H : Z.of_nat (length [datedTask; twiceWork]) < 4294967296)
    by (simpl; lia).
  split; [exact R|]. split; [exact H|].
  exact (proj1 (proj2 (proj2 (proj2
    (completion_rate_range exact R [datedTask; twiceWork] H))))).
Defined.

(** One completed task of two: 50, in the exact arithmetic. *)
Example completion_rate_half :
  (completionRate exact [datedTask; twiceWork] == 50)%Q.
Proof. reflexivity. Qed.

End CompletionRateExamples.

(** ** The per-category counters *)

Section CategoryStats.
Import Analytics.

(** A label that names an inherited member never receives an entry. *)
Lemma inherited_countCategory (done : bool) (stats : gmap (list N) CategoryStat)
    (cat c : jsstring) :
  inherited c = true -> stats !! c = None ->
  countCategory done stats cat !! c = None.
Proof.
  intros Hc Hs. unfold countCategory.
  destruct (decide (cat = c)) as [->|Hne].
  - rewrite Hs, Hc. rewrite lookup_alter_eq, Hs. reflexivity.
  - rewrite lookup_alter_ne by exact Hne.
    destruct (stats !! cat); [exact Hs|].
    destruct (inherited cat); [exact Hs|].
    rewrite lookup_insert_ne by exact Hne. exact Hs.
Qed.

Lemma inherited_fold (todos : list Todo) (stats : gmap (list N) CategoryStat)
    (c : jsstring) :
  inherited c = true -> stats !! c = None ->
  fold_left countTodo todos stats !! c = None.
Proof.
  intros Hc. revert stats.
  induction todos as [|t l IH]; intros stats Hs; simpl; [exact Hs|].
  apply IH. unfold countTodo.
  destruct (category t) as [cats|]; [|exact Hs].
  clear IH. revert stats Hs.
  induction cats as [|x cats IHc]; intros stats Hs; simpl; [exact Hs|].
  apply IHc. apply inherited_countCategory; assumption.
Qed.

Lemma totalOf_countCategory (done : bool) (stats : gmap (list N) CategoryStat)
    (cat c : jsstring) :
  inherited c = false ->
  totalOf (countCategory done stats cat) c
  = (totalOf stats c + if bool_decide (cat = c) then 1 else 0)%nat.
Proof.
  intros Hc. unfold totalOf, countCategory.
  destruct (decide (cat = c)) as [->|Hne].
  - rewrite bool_decide_eq_true_2 by reflexivity. rewrite Hc.
    rewrite lookup_alter_eq.
    destruct (stats !! c) as [s|] eqn:E.
    + rewrite E. simpl. lia.
    + rewrite lookup_insert_eq. simpl. reflexivity.
  - rewrite bool_decide_eq_false_2 by exact Hne.
    rewrite lookup_alter_ne by exact Hne.
    destruct (stats !! cat);
      [|destruct (inherited cat); [|rewrite lookup_insert_ne by exact Hne]];
      destruct (stats !! c); lia.
Qed.

Lemma completedOf_countCategory (done : bool) (stats : gmap (list N) CategoryStat)
    (cat c : jsstring) :
  inherited c = false ->
  completedOf (countCategory done stats cat) c
  = (completedOf stats c + if bool_decide (cat = c) && done then 1 else 0)%nat.
Proof.
  intros Hc. unfold completedOf, countCategory.
  destruct (decide (cat = c)) as [->|Hne].
  - rewrite bool_decide_eq_true_2 by reflexivity. rewrite Hc.
    rewrite lookup_alter_eq.
    destruct (stats !! c) as [s|] eqn:E.
    + rewrite E. simpl. destruct done; lia.
    + rewrite lookup_insert_eq. simpl. destruct done; reflexivity.
  - rewrite bool_decide_eq_false_2 by exact Hne.
    rewrite lookup_alter_ne by exact Hne.
    destruct (stats !! cat);
      [|destruct (inherited cat); [|rewrite lookup_insert_ne by exact Hne]];
      destruct (stats !! c); simpl; lia.
Qed.

Lemma totalOf_forEach (done : bool) (cats : list jsstring)
    (stats : gmap (list N) CategoryStat) (c : jsstring) :
  inherited c = false ->
  totalOf (fold_left (countCategory done) cats stats) c
  = (totalOf stats c
     + length (List.filter (fun x => bool_decide (x = c)) cats))%nat.
Proof.
  intros Hc.
  revert stats. induction cats as [|x cats IH]; intros stats; simpl; [lia|].
  rewrite IH, totalOf_countCategory by exact Hc.
  destruct (bool_decide (x = c)); simpl; lia.
Qed.

Lemma completedOf_forEach (done : bool) (cats : list jsstring)
    (stats : gmap (list N) CategoryStat) (c : jsstring) :
  inherited c = false ->
  completedOf (fold_left (countCategory done) cats stats) c
  = (completedOf stats c
     + if done then length (List.filter (fun x => bool_decide (x = c)) cats)
       else 0)%nat.
Proof.
  intros Hc.
  revert stats. induction cats as [|x cats IH]; intros stats; simpl.
  - destruct done; lia.
  - rewrite IH, completedOf_countCategory by exact Hc.
    destruct (bool_decide (x = c)), done; simpl; lia.
Qed.

Lemma totalOf_countTodo (stats : gmap (list N) CategoryStat) (t : Todo) (c : jsstring) :
  inherited c = false ->
  totalOf (countTodo stats t) c = (totalOf stats c + occurrences c t)%nat.
Proof.
  intros Hc. unfold countTodo, occurrences, labels.
  destruct (category t) as [cats|]; [apply totalOf_forEach; exact Hc|simpl; lia].
Qed.

Lemma completedOf_countTodo (stats : gmap (list N) CategoryStat) (t : Todo) (c : jsstring) :
  inherited c = false ->
  completedOf (countTodo stats t) c
  = (completedOf stats c + if completed t then occurrences c t else 0)%nat.
Proof.
  intros Hc. unfold countTodo, occurrences, labels.
  destruct (category t) as [cats|]; [apply completedOf_forEach; exact Hc|].
  destruct (completed t); simpl; lia.
Qed.

Lemma counters_fold (todos : list Todo) (stats : gmap (list N) CategoryStat)
    (c : jsstring) :
  inherited c = false ->
  totalOf (fold_left countTodo todos stats) c
    = (totalOf stats c + listed c todos)%nat /\
  completedOf (fold_left countTodo todos stats) c
    = (completedOf stats c + listedCompleted c todos)%nat.
Proof.
  intros Hc. revert stats. unfold listed, listedCompleted.
  induction todos as [|t l IH]; intros stats; simpl; [lia|].
  destruct (IH (countTodo stats t)) as [-> ->].
  rewrite totalOf_countTodo, completedOf_countTodo by exact Hc. lia.
Qed.

(** The counters of a label that names no inherited member are the numbers
    of times the tasks name it. *)
Lemma categoryStats_counts (todos : list Todo) (c : jsstring) :
  inherited c = false ->
  totalOf (categoryStats todos) c = listed c todos /\
  completedOf (categoryStats todos) c = listedCompleted c todos.
Proof.
  intros Hc. unfold categoryStats.
  destruct (counters_fold todos ∅ c Hc) as [-> ->].
  unfold totalOf, completedOf. rewrite lookup_empty. split; reflexivity.
Qed.

(** A label that names an inherited member has no entry. *)
Lemma categoryStats_inherited (todos : list Todo) (c : jsstring) :
  inherited c = true -> categoryStats todos !! c = None.
Proof.
  intros Hc. apply inherited_fold; [exact Hc|apply lookup_empty].
Qed.

Lemma listed_app (c : jsstring) (l1 l2 : list Todo) :
  listed c (l1 ++ l2) = (listed c l1 + listed c l2)%nat /\
  listedCompleted c (l1 ++ l2) = (listedCompleted c l1 + listedCompleted c l2)%nat.
Proof.
  unfold listed, listedCompleted.
  rewrite !List.map_app, !list_sum_app. split; reflexivity.
Qed.

(** A label that a list names, and names once, occurs once in it. *)
Lemma occurs_once (c : jsstring) (cats : list jsstring) :
  NoDup cats -> In c cats ->
  length (List.filter (fun x => bool_decide (x = c)) cats) = 1%nat.
Proof.
  induction 1 as [|x l Hx Hnd IH]; intros Hin; [destruct Hin|].
  simpl. destruct (decide (x = c)) as [->|Hne].
  - rewrite bool_decide_eq_true_2 by reflexivity. simpl. f_equal.
    clear IH Hin Hnd. induction l as [|y l IHl]; [reflexivity|].
    simpl. rewrite bool_decide_eq_false_2.
    + apply IHl. intros H. apply Hx. right. exact H.
    + intros ->. apply Hx. left.
  - rewrite bool_decide_eq_false_2 by exact Hne.
    apply IH. destruct Hin as [H|H]; [congruence|exact H].
Qed.

End CategoryStats.

Section CategoryStatsCounts.
Import Analytics.



(** A completed task with the category "constructor": the label is listed
    once, and [categoryStats] holds no entry for it. *)
Example category_counters_inherited_name :
  let t := mkTodo [] [] (js "task") None 0 None None
                  (Some [js "constructor"]) true in
  listed (js "constructor") [t] = 1%nat /\
  categoryStats [t] !! js "constructor" = None /\
  categoryStats [t] = ∅.
Proof. vm_compute. repeat split. Qed.

End CategoryStatsCounts.

(** ** The analysis endpoint *)

Section AnalyzeEndpoint.
Import AnalyzeTodos.

(** C9 (as the code has it): when the service credential is configured,
    every request whose [todos] array is empty and whose period is valid is
    answered with status 200 and the canned response: the summary of the
    period, no urgent task, the one encouragement insight, no
    recommendation.  Whatever the credential, such a request never reaches
    the remote call; without the credential it is answered with status
    500. *)
Theorem empty_todos_canned_response (k : jsstring) (period : Period) :
  truthy k = true ->
  POST (Some k) (Some (mkBody (todos_array []) (period_is period)))
    = Respond 200 (payload_analysis (emptyAnalysis period)) /\
  summary (emptyAnalysis period)
    = match period with today => summary_today | week => summary_week end /\
  urgentTasks (emptyAnalysis period) = [] /\
  insights (emptyAnalysis period) = [insight_start] /\
  recommendations (emptyAnalysis period) = [] /\
  (forall apiKey todos p,
      POST apiKey (Some (mkBody (todos_array []) (period_is period)))
        <> GenerateObject todos p) /\
  (forall apiKey,
      match apiKey with Some k' => truthy k' | None => false end = false ->
      POST apiKey (Some (mkBody (todos_array []) (period_is period)))
        = Respond 500 (payload_error err_api_key)).
Proof.
  intros Hk. unfold POST. simpl. rewrite Hk. simpl.
  repeat split.
  - intros apiKey todos p.
    destruct (negb match apiKey with Some k' => truthy k' | None => false end);
      discriminate.
  - intros apiKey H. rewrite H. reflexivity.
Qed.

Lemma empty_todos_canned_response_witness :
  truthy (js "key") = true /\
  POST (Some (js "key")) (Some (mkBody (todos_array []) (period_is today)))
    = Respond 200 (payload_analysis (emptyAnalysis today)).
Proof.
  split; [reflexivity|].
  exact (proj1 (empty_todos_canned_response (js "key") today eq_refl)).
Defined.

(** C9, counterexample to the statement for every request: without the
    credential the request with an empty [todos] array and the period
    [today] is answered with status 500, not with the canned response. *)
Lemma empty_todos_without_credential :
  POST None (Some (mkBody (todos_array []) (period_is today)))
    = Respond 500 (payload_error err_api_key) /\
  POST None (Some (mkBody (todos_array []) (period_is today)))
    <> Respond 200 (payload_analysis (emptyAnalysis today)).
Proof. split; [reflexivity|discriminate]. Qed.

End AnalyzeEndpoint.

(** ** The extraction endpoint: validation of the input *)

Section Normalization.
Import GenerateTodo.

Lemma trimStart_head (s r : jsstring) (c : N) :
  trimStart s = c :: r -> isWhiteSpace c = false.
Proof.
  induction s as [|d s IH]; simpl; [discriminate|].
  destruct (isWhiteSpace d) eqn:E; [exact IH|].
  intros H. injection H as <- _. exact E.
Qed.

Lemma trimEnd_nonws (c : N) (r : jsstring) :
  isWhiteSpace c = false -> trimEnd (c :: r) = c :: trimEnd r.
Proof. intros H. simpl. rewrite H. destruct (trimEnd r); reflexivity. Qed.

Lemma trimEnd_cons_inv (c : N) (r : jsstring) :
  trimEnd (c :: r) = c :: r ->
  trimEnd r = r /\ (isWhiteSpace c = true -> r <> []).
Proof.
  simpl. destruct (trimEnd r) as [|d r'] eqn:E.
  - destruct (isWhiteSpace c); [discriminate|].
    intros H. injection H as <-. split; [reflexivity|discriminate].
  - intros H. injection H as <-. split; [reflexivity|].
    intros _ Hr. discriminate Hr.
Qed.

Lemma trimEnd_idempotent (s : jsstring) : trimEnd (trimEnd s) = trimEnd s.
Proof.
  induction s as [|c s IH]; simpl; [reflexivity|].
  destruct (trimEnd s) as [|d r] eqn:E.
  - destruct (isWhiteSpace c) eqn:Ec; simpl; [reflexivity|].
    rewrite Ec. reflexivity.
  - change (trimEnd (c :: d :: r)) with
      (match trimEnd (d :: r) with
       | [] => if isWhiteSpace c then [] else [c]
       | r' => c :: r'
       end).
    rewrite IH. reflexivity.
Qed.

Lemma replace_wellSpaced (r : jsstring) (b : bool) :
  trimEnd r = r -> r <> [] \/ b = false ->
  wellSpaced b (replace_ws_runs b r) = true.
Proof.
  revert b. induction r as [|c r IH]; intros b Hr Hb.
  - destruct Hb as [Hb| ->]; [congruence|reflexivity].
  - apply trimEnd_cons_inv in Hr as [Hr Hc]. simpl.
    destruct (isWhiteSpace c) eqn:E.
    + specialize (Hc eq_refl). destruct b; simpl.
      * apply IH; auto.
      * apply IH; auto.
    + simpl. rewrite E. apply IH; auto.
Qed.

Lemma inkOf_trimStart (s : jsstring) : inkOf (trimStart s) = inkOf s.
Proof.
  unfold inkOf. induction s as [|c s IH]; simpl; [reflexivity|].
  destruct (isWhiteSpace c) eqn:E; simpl; [exact IH|].
  rewrite E. reflexivity.
Qed.

Lemma inkOf_trimEnd (s : jsstring) : inkOf (trimEnd s) = inkOf s.
Proof.
  unfold inkOf. induction s as [|c s IH]; simpl; [reflexivity|].
  destruct (trimEnd s) as [|d r].
  - rewrite <- IH. destruct (isWhiteSpace c) eqn:E; simpl; [reflexivity|].
    rewrite E. reflexivity.
  - rewrite <- IH. reflexivity.
Qed.

Lemma inkOf_replace (b : bool) (s : jsstring) :
  inkOf (replace_ws_runs b s) = inkOf s.
Proof.
  unfold inkOf. revert b. induction s as [|c s IH]; intros b; simpl; [reflexivity|].
  destruct (isWhiteSpace c) eqn:E; simpl.
  - destruct b; simpl; apply IH.
  - rewrite E. simpl. f_equal. apply IH.
Qed.

Lemma replace_nil (s : jsstring) : replace_ws_runs false s = [] -> s = [].
Proof.
  destruct s as [|c s]; simpl; [reflexivity|].
  destruct (isWhiteSpace c); discriminate.
Qed.

(** The normalized input: it is empty exactly for a blank input, it is
    well spaced, and it has the same code units other than white space as
    the input, in the same order. *)
Lemma normalizedInput_spec (s : jsstring) :
  (normalizedInput s = [] <-> blank s = true) /\
  (normalizedInput s = [] \/ wellSpaced true (normalizedInput s) = true) /\
  inkOf (normalizedInput s) = inkOf s.
Proof.
  unfold normalizedInput. split; [|split].
  - pose proof (truthy_trim s) as H. split.
    + intros Hn. apply replace_nil in Hn. rewrite Hn in H. simpl in H.
      destruct (blank s); [reflexivity|discriminate].
    + intros Hb. rewrite Hb in H. destruct (trim s); [reflexivity|discriminate].
  - unfold trim. destruct (trimStart s) as [|c r] eqn:E; [left; reflexivity|].
    right. pose proof (trimStart_head _ _ _ E) as Hc.
    rewrite trimEnd_nonws by exact Hc. simpl. rewrite Hc. simpl. rewrite Hc.
    apply replace_wellSpaced; [apply trimEnd_idempotent|right; reflexivity].
  - rewrite inkOf_replace. unfold trim.
    rewrite inkOf_trimEnd. apply inkOf_trimStart.
Qed.

Example normalizedInput_meeting : normalizedInput meeting_raw = meeting_normalized.
Proof. reflexivity. Qed.

End Normalization.

Section InputValidation.
Import GenerateTodo ErrorHandling GenerateResponse.

(** C7 (as the code has it): when the service credential is configured, the
    endpoint answers with status 400 a body that is no JSON, an input that
    is not a string or is the empty string ("must be a string"), a
    non-empty input that is empty after normalization ("empty input"), a
    normalized input of one character ("too short"), and a normalized input
    of more than 500 characters ("too long", with the number of characters
    of the normalized input in the message).  A normalized input of 2 to
    500 characters passes on to the remote call.  The normalized input is
    the input without white space at its ends and with every run of white
    space turned into one space.  On the body [null] the handler throws,
    and its [catch] block answers with status 500.  Without the credential
    the answer is 500, whatever the body is. *)
Theorem input_validation (k s : jsstring) :
  truthy k = true ->
  let n := normalizedInput s in
  let answer := POST (Some k) (Some (body_with (input_string s))) in
  ((n = [] <-> blank s = true) /\
   (n = [] \/ wellSpaced true n = true) /\
   inkOf n = inkOf s) /\
  POST (Some k) None = Respond 400 err_json /\
  POST (Some k) (Some (body_with input_other)) = Respond 400 err_not_string /\
  (s = [] -> answer = Respond 400 err_not_string) /\
  (s <> [] -> n = [] -> answer = Respond 400 err_empty) /\
  (length n = 1%nat -> answer = Respond 400 err_too_short) /\
  ((500 < length n)%nat -> answer = Respond 400 (err_too_long (length n))) /\
  ((2 <= length n <= 500)%nat -> answer = GenerateObject n) /\
  (POST (Some k) (Some body_null) = TypeError /\
   forall tz_local development now remote,
     statusOf (handle tz_local development (Some k) (Some body_null) now remote)
     = 500) /\
  (forall apiKey body,
     match apiKey with Some key => truthy key | None => false end = false ->
     POST apiKey body = Respond 500 err_api_key).
Proof.
  intros Hk n answer.
  pose proof (normalizedInput_spec s) as Hspec. fold n in Hspec.
  split; [exact Hspec|].
  destruct Hspec as [[Hnil _] _].
  assert (Hnull : POST (Some k) (Some body_null) = TypeError)
    by (unfold POST; rewrite Hk; reflexivity).
  assert (Hlast :
    (POST (Some k) (Some body_null) = TypeError /\
     forall tz_local development now remote,
       statusOf (handle tz_local development (Some k) (Some body_null) now remote)
       = 500) /\
    (forall apiKey body,
       match apiKey with Some key => truthy key | None => false end = false ->
       POST apiKey body = Respond 500 err_api_key)).
  { split; [split; [exact Hnull|]|].
    - intros tz_local development now remote. unfold handle.
      rewrite Hnull. destruct development; reflexivity.
    - intros apiKey body H. unfold POST. rewrite H. reflexivity. }
  revert Hlast.
  match goal with |- ?L -> _ => set (Last := L) end.
  intros Hlast. clearbody Last. clear Hnull.
  unfold answer, POST. simpl. rewrite Hk. simpl. fold n.
  split; [reflexivity|].
  split; [reflexivity|].
  split; [intros ->; reflexivity|].
  destruct s as [|c s]; simpl.
  - assert (Hn : n = []) by reflexivity. rewrite Hn. simpl.
    repeat split; intros; try (congruence || lia); exact Hlast.
  - fold n. split.
    { intros _ Hn. rewrite Hn. reflexivity. }
    split.
    { intros H1. rewrite H1. reflexivity. }
    split.
    { intros H5.
      destruct (Nat.eqb_spec (length n) 0); [lia|].
      destruct (Nat.ltb_spec (length n) 2); [lia|].
      destruct (Nat.ltb_spec 500 (length n)); [reflexivity|lia]. }
    split; [|exact Hlast].
    intros H25.
    destruct (Nat.eqb_spec (length n) 0); [lia|].
    destruct (Nat.ltb_spec (length n) 2); [lia|].
    destruct (Nat.ltb_spec 500 (length n)); [lia|reflexivity].
Qed.

Lemma input_validation_witness :
  truthy (js "key") = true /\
  POST (Some (js "key")) (Some (body_with (input_string (js " a "))))
    = Respond 400 err_too_short.
Proof.
  split; [reflexivity|].
  exact (proj1 (proj2 (proj2 (proj2 (proj2 (proj2
           (input_validation (js "key") (js " a ") eq_refl)))))) eq_refl).
Defined.

(** C7, counterexamples to the statement for every input: the empty string
    is empty after normalization but is answered "must be a string", not
    "empty input"; and without the credential a blank input is answered
    with status 500, not 400. *)
Lemma input_validation_empty_string :
  normalizedInput [] = [] /\
  POST (Some (js "key")) (Some (body_with (input_string [])))
    = Respond 400 err_not_string /\
  POST (Some (js "key")) (Some (body_with (input_string [])))
    <> Respond 400 err_empty /\
  normalizedInput [32%N] = [] /\
  POST None (Some (body_with (input_string [32%N]))) = Respond 500 err_api_key /\
  POST None (Some (body_with (input_string [32%N]))) <> Respond 400 err_empty.
Proof. repeat split; discriminate. Qed.

End InputValidation.

(** ** The extraction endpoint: post-processing of [due_date] *)

Section Scanner.
Import GenerateTodo DueDateShape.

Lemma isDigit_digit (k : Z) : 0 <= k <= 9 -> isDigit (digit k) = true.
Proof.
  intros H. unfold isDigit, digit.
  rewrite andb_true_iff, !N.leb_le. lia.
Qed.

Lemma digitValue_digit (k : Z) : 0 <= k <= 9 -> digitValue (digit k) = k.
Proof. intros H. unfold digitValue, digit. lia. Qed.

Lemma digits2_cons (a b : N) (r : jsstring) :
  isDigit a = true -> isDigit b = true ->
  digits 2 (a :: b :: r) = Some ([a; b], r).
Proof. intros Ha Hb. unfold digits. simpl. rewrite Ha, Hb. reflexivity. Qed.

Lemma digits4_cons (a b c d : N) (r : jsstring) :
  isDigit a = true -> isDigit b = true -> isDigit c = true -> isDigit d = true ->
  digits 4 (a :: b :: c :: d :: r) = Some ([a; b; c; d], r).
Proof.
  intros Ha Hb Hc Hd. unfold digits. simpl. rewrite Ha, Hb, Hc, Hd. reflexivity.
Qed.

Lemma matchDate_chars (y1 y2 y3 y4 m1 m2 d1 d2 : N) (r : jsstring) :
  isDigit y1 = true -> isDigit y2 = true -> isDigit y3 = true ->
  isDigit y4 = true -> isDigit m1 = true -> isDigit m2 = true ->
  isDigit d1 = true -> isDigit d2 = true ->
  matchDate (y1 :: y2 :: y3 :: y4 :: 45%N :: m1 :: m2 :: 45%N :: d1 :: d2 :: r)
  = Some ([y1; y2; y3; y4], [m1; m2], [d1; d2], r).
Proof.
  intros. unfold matchDate.
  rewrite digits4_cons by assumption. simpl.
  rewrite digits2_cons by assumption. simpl.
  rewrite digits2_cons by assumption. reflexivity.
Qed.

Lemma matchTime_chars (h1 h2 i1 i2 s1 s2 : N) (r : jsstring) :
  isDigit h1 = true -> isDigit h2 = true -> isDigit i1 = true ->
  isDigit i2 = true -> isDigit s1 = true -> isDigit s2 = true ->
  matchTime (84%N :: h1 :: h2 :: 58%N :: i1 :: i2 :: 58%N :: s1 :: s2 :: r)
  = Some ([h1; h2], [i1; i2], [s1; s2], r).
Proof.
  intros. unfold matchTime. simpl.
  rewrite digits2_cons by assumption. simpl.
  rewrite digits2_cons by assumption. simpl.
  rewrite digits2_cons by assumption. reflexivity.
Qed.

(** What a successful scan says about the scanned string. *)
Lemma digits_inv (n : nat) (s d r : jsstring) :
  digits n s = Some (d, r) ->
  s = d ++ r /\ length d = n /\ allDigits d.
Proof.
  unfold digits, allDigits.
  destruct (Nat.eqb_spec (length (take n s)) n) as [Hl|]; [|discriminate].
  destruct (forallb isDigit (take n s)) eqn:Hd; [|discriminate].
  simpl. intros H. injection H as <- <-.
  rewrite take_drop. auto.
Qed.

Lemma char_inv (c : N) (s r : jsstring) : char c s = Some r -> s = c :: r.
Proof.
  destruct s as [|x s]; simpl; [discriminate|].
  destruct (N.eqb_spec x c) as [->|]; [|discriminate].
  intros H. injection H as <-. reflexivity.
Qed.

Lemma matchDate_inv (s y m d r : jsstring) :
  matchDate s = Some (y, m, d, r) ->
  s = (y ++ [45%N] ++ m ++ [45%N] ++ d) ++ r /\
  dateShaped (y ++ [45%N] ++ m ++ [45%N] ++ d).
Proof.
  unfold matchDate. intros H.
  destruct (digits 4 s) as [[y' r1]|] eqn:E1; [|discriminate]. simpl in H.
  destruct (char 45 r1) as [r2|] eqn:E2; [|discriminate]. simpl in H.
  destruct (digits 2 r2) as [[m' r3]|] eqn:E3; [|discriminate]. simpl in H.
  destruct (char 45 r3) as [r4|] eqn:E4; [|discriminate]. simpl in H.
  destruct (digits 2 r4) as [[d' r5]|] eqn:E5; [|discriminate]. simpl in H.
  injection H as <- <- <- <-.
  apply digits_inv in E1 as (-> & L1 & D1).
  apply char_inv in E2 as ->.
  apply digits_inv in E3 as (-> & L3 & D3).
  apply char_inv in E4 as ->.
  apply digits_inv in E5 as (-> & L5 & D5).
  split.
  - repeat (rewrite <- app_assoc; simpl). reflexivity.
  - exists y', m', d'. auto 10.
Qed.

Lemma matchTime_inv (s h mi sec r : jsstring) :
  matchTime s = Some (h, mi, sec, r) ->
  s = ([84%N] ++ h ++ [58%N] ++ mi ++ [58%N] ++ sec) ++ r /\
  timeShaped ([84%N] ++ h ++ [58%N] ++ mi ++ [58%N] ++ sec).
Proof.
  unfold matchTime. intros H.
  destruct (char 84 s) as [r0|] eqn:E0; [|discriminate]. simpl in H.
  destruct (digits 2 r0) as [[h' r1]|] eqn:E1; [|discriminate]. simpl in H.
  destruct (char 58 r1) as [r2|] eqn:E2; [|discriminate]. simpl in H.
  destruct (digits 2 r2) as [[m' r3]|] eqn:E3; [|discriminate]. simpl in H.
  destruct (char 58 r3) as [r4|] eqn:E4; [|discriminate]. simpl in H.
  destruct (digits 2 r4) as [[d' r5]|] eqn:E5; [|discriminate]. simpl in H.
  injection H as <- <- <- <-.
  apply char_inv in E0 as ->.
  apply digits_inv in E1 as (-> & L1 & D1).
  apply char_inv in E2 as ->.
  apply digits_inv in E3 as (-> & L3 & D3).
  apply char_inv in E4 as ->.
  apply digits_inv in E5 as (-> & L5 & D5).
  split.
  - simpl. repeat (rewrite <- app_assoc; simpl). reflexivity.
  - exists h', m', d'. auto 10.
Qed.

End Scanner.

Section DueDate.
Import GenerateTodo DueDateShape.
Variable tz_local : Z.

Lemma numberOf_fmt2 (n : Z) : 0 <= n <= 99 -> numberOf (fmt2 n) = n.
Proof.
  intros H. unfold numberOf, fmt2. simpl.
  rewrite !digitValue_digit by (Z.div_mod_to_equations; lia).
  Z.div_mod_to_equations; lia.
Qed.

Lemma numberOf_fmt4 (n : Z) : 0 <= n <= 9999 -> numberOf (fmt4 n) = n.
Proof.
  intros H. unfold numberOf, fmt4. simpl.
  rewrite !digitValue_digit by (Z.div_mod_to_equations; lia).
  Z.div_mod_to_equations; lia.
Qed.

Lemma matchDate_isoDate (y m d : Z) (r : jsstring) :
  dateFields y m d ->
  matchDate (isoDate y m d ++ r) = Some (fmt4 y, fmt2 m, fmt2 d, r).
Proof.
  intros (Hy & Hm & Hd). unfold isoDate, fmt4, fmt2. cbn [app].
  apply matchDate_chars; apply isDigit_digit; Z.div_mod_to_equations; lia.
Qed.

Lemma matchTime_isoTime (h mi s : Z) (r : jsstring) :
  timeFields h mi s ->
  matchTime (isoTime h mi s ++ r) = Some (fmt2 h, fmt2 mi, fmt2 s, r).
Proof.
  intros (Hh & Hm & Hs). unfold isoTime, fmt2. cbn [app].
  apply matchTime_chars; apply isDigit_digit; Z.div_mod_to_equations; lia.
Qed.

Lemma take_isoDate (y m d : Z) (r : jsstring) :
  take 10 (isoDate y m d ++ r) = isoDate y m d.
Proof. reflexivity. Qed.

Lemma take_isoTime (h mi s : Z) (r : jsstring) :
  take 9 (isoTime h mi s ++ r) = isoTime h mi s.
Proof. reflexivity. Qed.

Lemma matchDate_written (y m d : Z) (r : jsstring) :
  writtenDate y m d ->
  matchDate (isoDate y m d ++ r) = Some (fmt4 y, fmt2 m, fmt2 d, r).
Proof.
  intros (Hy & Hm & Hd). unfold isoDate, fmt4, fmt2. cbn [app].
  apply matchDate_chars; apply isDigit_digit; Z.div_mod_to_equations; lia.
Qed.

Lemma matchTime_written (h mi s : Z) (r : jsstring) :
  writtenTime h mi s ->
  matchTime (isoTime h mi s ++ r) = Some (fmt2 h, fmt2 mi, fmt2 s, r).
Proof.
  intros (Hh & Hm & Hs). unfold isoTime, fmt2. cbn [app].
  apply matchTime_chars; apply isDigit_digit; Z.div_mod_to_equations; lia.
Qed.

(** Reading a written date and time: the fields must be in range. *)
Lemma parseDateTime_written (y m d h mi s : Z) :
  writtenDate y m d -> writtenTime h mi s ->
  parseDateTime tz_local (isoDate y m d ++ isoTime h mi s)
  = if (1 <=? m) && (m <=? 12) && (1 <=? d) && (d <=? 31)
       && ((h <=? 23) && (mi <=? 59) && (s <=? 59)
           || (h =? 24) && (mi =? 0) && (s =? 0))
    then Some (fromLocal tz_local (MakeDay y m d * msPerDay + MakeTime h mi s 0))
    else None.
Proof.
  intros Hd Ht. unfold parseDateTime.
  rewrite matchDate_written by exact Hd. cbn [mbind option_bind].
  rewrite <- (app_nil_r (isoTime h mi s)).
  rewrite matchTime_written by exact Ht. cbn [mbind option_bind].
  destruct Hd as (Hy & Hm & Hdd). destruct Ht as (Hh & Hmi & Hs).
  rewrite numberOf_fmt4 by lia. rewrite !numberOf_fmt2 by lia.
  replace (bool_decide (@nil N = [])) with true by reflexivity.
  reflexivity.
Qed.

(** Reading back a written local date and time. *)
Lemma parseDateTime_iso (y m d h mi s : Z) :
  dateFields y m d -> timeFields h mi s ->
  parseDateTime tz_local (isoDate y m d ++ isoTime h mi s)
  = Some (fromLocal tz_local (MakeDay y m d * msPerDay + MakeTime h mi s 0)).
Proof.
  intros Hd Ht. unfold parseDateTime.
  rewrite matchDate_isoDate by exact Hd. cbn [mbind option_bind].
  rewrite <- (app_nil_r (isoTime h mi s)).
  rewrite matchTime_isoTime by exact Ht. cbn [mbind option_bind].
  destruct Hd as (Hy & Hm & Hdd). destruct Ht as (Hh & Hmi & Hs).
  rewrite numberOf_fmt4 by lia. rewrite !numberOf_fmt2 by lia.
  replace (bool_decide (@nil N = [])) with true by reflexivity.
  rewrite !(proj2 (Z.leb_le _ _)) by lia. reflexivity.
Qed.

Lemma localDay_fromLocal (w : Z) :
  localDay tz_local (fromLocal tz_local w) = w / msPerDay.
Proof. unfold localDay, localTime, fromLocal. f_equal. lia. Qed.

(** The whole days from the current date to a local date, as the code
    computes them. *)
Lemma daysDiff_value (koreaTime D t : Z) :
  0 <= t < msPerDay ->
  (setHours tz_local (fromLocal tz_local (D * msPerDay + t)) 0 0 0 0
   - setHours tz_local koreaTime 0 0 0 0) / msPerDay
  = D - localDay tz_local koreaTime.
Proof.
  intros Ht. unfold setHours. rewrite localDay_fromLocal.
  replace ((D * msPerDay + t) / msPerDay) with D.
  - unfold fromLocal, MakeTime.
    match goal with
    | |- ?x / msPerDay = _ =>
        replace x with ((D - localDay tz_local koreaTime) * msPerDay) by lia
    end.
    apply Z.div_mul. unfold msPerDay. lia.
  - rewrite Z.add_comm, Z.div_add by (unfold msPerDay; lia).
    rewrite Z.div_small by exact Ht. reflexivity.
Qed.

Lemma MakeTime_range (h mi s : Z) :
  timeFields h mi s -> 0 <= MakeTime h mi s 0 < msPerDay.
Proof. intros (Hh & Hm & Hs). unfold MakeTime, msPerDay. lia. Qed.

Lemma dueDate_date_only (koreaTime y m d : Z) :
  dateFields y m d ->
  dueDateFormatted tz_local koreaTime (Some (isoDate y m d))
  = if MakeDay y m d - localDay tz_local koreaTime <? -1 then None
    else Some (isoDate y m d ++ isoTime 9 0 0).
Proof.
  intros Hd. unfold dueDateFormatted.
  replace (truthy (isoDate y m d)) with true by reflexivity. cbn [negb].
  unfold dateMatch.
  rewrite <- (app_nil_r (isoDate y m d)) at 1.
  rewrite matchDate_isoDate by exact Hd.
  replace (matchTime []) with (@None (jsstring * jsstring * jsstring * jsstring))
    by reflexivity.
  replace (take 10 (isoDate y m d)) with (isoDate y m d) by reflexivity.
  cbn [from_option Datatypes.id]. change T0900 with (isoTime 9 0 0).
  assert (H9 : timeFields 9 0 0) by (unfold timeFields; lia).
  rewrite parseDateTime_iso by assumption. cbn [fmap option_fmap option_map].
  rewrite daysDiff_value by (apply MakeTime_range; exact H9).
  reflexivity.
Qed.

Lemma dueDate_with_time (koreaTime y m d h mi s : Z) (rest : jsstring) :
  dateFields y m d -> timeFields h mi s ->
  dueDateFormatted tz_local koreaTime
    (Some (isoDate y m d ++ isoTime h mi s ++ rest))
  = if MakeDay y m d - localDay tz_local koreaTime <? -1 then None
    else Some (isoDate y m d ++ isoTime h mi s ++ rest).
Proof.
  intros Hd Ht. unfold dueDateFormatted.
  replace (truthy (isoDate y m d ++ isoTime h mi s ++ rest)) with true
    by reflexivity.
  cbn [negb]. unfold dateMatch.
  rewrite matchDate_isoDate by exact Hd.
  rewrite matchTime_isoTime by exact Ht.
  rewrite take_isoDate, take_isoTime. cbn [from_option Datatypes.id].
  rewrite parseDateTime_iso by assumption. cbn [fmap option_fmap option_map].
  rewrite daysDiff_value by (apply MakeTime_range; exact Ht).
  reflexivity.
Qed.

(** The post-processing of a written date and time of day, and of a
    written date followed by anything else. *)
Lemma dueDate_written_time (koreaTime y m d h mi s : Z) (rest : jsstring) :
  writtenDate y m d -> writtenTime h mi s ->
  dueDateFormatted tz_local koreaTime
    (Some (isoDate y m d ++ isoTime h mi s ++ rest))
  = match parseDateTime tz_local (isoDate y m d ++ isoTime h mi s) with
    | Some t =>
        if (setHours tz_local t 0 0 0 0 - setHours tz_local koreaTime 0 0 0 0)
           / msPerDay <? -1
        then None
        else Some (isoDate y m d ++ isoTime h mi s ++ rest)
    | None => Some (isoDate y m d ++ isoTime h mi s ++ rest)
    end.
Proof.
  intros Hd Ht. unfold dueDateFormatted.
  replace (truthy (isoDate y m d ++ isoTime h mi s ++ rest)) with true
    by reflexivity.
  cbn [negb]. unfold dateMatch.
  rewrite matchDate_written by exact Hd.
  rewrite matchTime_written by exact Ht.
  rewrite take_isoDate, take_isoTime. cbn [from_option Datatypes.id].
  destruct (parseDateTime tz_local (isoDate y m d ++ isoTime h mi s));
    reflexivity.
Qed.

Lemma dueDate_written_date (koreaTime y m d : Z) (tail : jsstring) :
  writtenDate y m d -> matchTime tail = None ->
  dueDateFormatted tz_local koreaTime (Some (isoDate y m d ++ tail))
  = match parseDateTime tz_local (isoDate y m d ++ isoTime 9 0 0) with
    | Some t =>
        if (setHours tz_local t 0 0 0 0 - setHours tz_local koreaTime 0 0 0 0)
           / msPerDay <? -1
        then None
        else Some (isoDate y m d ++ isoTime 9 0 0)
    | None => Some (isoDate y m d ++ isoTime 9 0 0)
    end.
Proof.
  intros Hd Ht. unfold dueDateFormatted.
  replace (truthy (isoDate y m d ++ tail)) with true by reflexivity.
  cbn [negb]. unfold dateMatch.
  rewrite matchDate_written by exact Hd. rewrite Ht.
  rewrite take_isoDate. cbn [from_option Datatypes.id].
  change T0900 with (isoTime 9 0 0).
  destruct (parseDateTime tz_local (isoDate y m d ++ isoTime 9 0 0));
    reflexivity.
Qed.

(** A date with the time of day 24:00:00 is read as the following day. *)
Lemma dueDate_end_of_day (koreaTime y m d : Z) (rest : jsstring) :
  dateFields y m d ->
  dueDateFormatted tz_local koreaTime
    (Some (isoDate y m d ++ isoTime 24 0 0 ++ rest))
  = if MakeDay y m d + 1 - localDay tz_local koreaTime <? -1 then None
    else Some (isoDate y m d ++ isoTime 24 0 0 ++ rest).
Proof.
  intros Hd.
  assert (Hw : writtenDate y m d)
    by (unfold dateFields in Hd; unfold writtenDate; lia).
  assert (Ht : writtenTime 24 0 0) by (unfold writtenTime; lia).
  rewrite dueDate_written_time, parseDateTime_written by assumption.
  destruct Hd as (Hy & Hm & Hdd).
  rewrite !(proj2 (Z.leb_le _ _)) by lia.
  change ((24 <=? 23) && (0 <=? 59) && (0 <=? 59)
          || (24 =? 24) && (0 =? 0) && (0 =? 0)) with true.
  cbn [andb].
  replace (MakeDay y m d * msPerDay + MakeTime 24 0 0 0)
    with ((MakeDay y m d + 1) * msPerDay + 0)
    by (unfold MakeTime, msPerDay; lia).
  rewrite daysDiff_value by (unfold msPerDay; lia).
  reflexivity.
Qed.

(** Out of the ranges of a date and a time of day nothing is read, and the
    value is kept. *)
Lemma dueDate_out_of_range (koreaTime y m d h mi s : Z) (rest : jsstring) :
  writtenDate y m d -> writtenTime h mi s ->
  ~ dateFields y m d \/ (~ timeFields h mi s /\ ~ endOfDay h mi s) ->
  dueDateFormatted tz_local koreaTime
    (Some (isoDate y m d ++ isoTime h mi s ++ rest))
  = Some (isoDate y m d ++ isoTime h mi s ++ rest).
Proof.
  intros Hd Ht Hout.
  rewrite dueDate_written_time, parseDateTime_written by assumption.
  match goal with
  | |- match (if ?c then _ else _) with _ => _ end = _ => destruct c eqn:E
  end; [|reflexivity].
  exfalso.
  rewrite !andb_true_iff, orb_true_iff, !andb_true_iff, !Z.leb_le, !Z.eqb_eq in E.
  unfold dateFields, timeFields, endOfDay, writtenDate, writtenTime in *.
  lia.
Qed.

Lemma dueDate_out_of_range_date (koreaTime y m d : Z) (tail : jsstring) :
  writtenDate y m d -> matchTime tail = None -> ~ dateFields y m d ->
  dueDateFormatted tz_local koreaTime (Some (isoDate y m d ++ tail))
  = Some (isoDate y m d ++ isoTime 9 0 0).
Proof.
  intros Hd Ht Hout.
  assert (H9 : writtenTime 9 0 0) by (unfold writtenTime; lia).
  rewrite dueDate_written_date, parseDateTime_written by assumption.
  match goal with
  | |- match (if ?c then _ else _) with _ => _ end = _ => destruct c eqn:E
  end; [|reflexivity].
  exfalso.
  rewrite !andb_true_iff, orb_true_iff, !andb_true_iff, !Z.leb_le, !Z.eqb_eq in E.
  unfold dateFields, writtenDate in *.
  lia.
Qed.

Lemma dateShaped_length (t : jsstring) : dateShaped t -> length t = 10%nat.
Proof.
  intros (y & m & d & -> & Ly & Lm & Ld & _).
  rewrite !length_app. simpl. lia.
Qed.

(** A value is kept only for an input that begins in the form [YYYY-MM-DD];
    the value kept is the input itself when [THH:MM:SS] follows the date,
    and the date with "T09:00:00" otherwise. *)
Lemma dueDate_kept_inv (koreaTime : Z) (t r : jsstring) :
  dueDateFormatted tz_local koreaTime (Some t) = Some r ->
  exists date rest,
    t = date ++ rest /\ dateShaped date /\
    ((exists time rest', rest = time ++ rest' /\ timeShaped time /\ r = t) \/
     r = date ++ isoTime 9 0 0).
Proof.
  unfold dueDateFormatted.
  destruct (truthy t); cbn [negb]; [|discriminate].
  unfold dateMatch.
  destruct (matchDate t) as [[[[y m] d] r0]|] eqn:E; [|discriminate].
  apply matchDate_inv in E as [-> Hshape].
  set (date := y ++ [45%N] ++ m ++ [45%N] ++ d) in *.
  rewrite (take_app_length' date r0 10)
    by (symmetry; apply dateShaped_length; exact Hshape).
  match goal with
  | |- (if ?c then _ else _) = _ -> _ => destruct c; [discriminate|]
  end.
  destruct (matchTime r0) as [[[[h mi] s] r1]|] eqn:Et.
  - intros H. injection H as <-.
    apply matchTime_inv in Et as [-> Htime].
    exists date, (([84%N] ++ h ++ [58%N] ++ mi ++ [58%N] ++ s) ++ r1).
    split; [reflexivity|]. split; [exact Hshape|].
    left. eexists _, r1. split; [reflexivity|]. split; [exact Htime|reflexivity].
  - intros H. injection H as <-.
    exists date, r0. split; [reflexivity|]. split; [exact Hshape|].
    right. reflexivity.
Qed.

End DueDate.

Section DueDateRule.
Import GenerateTodo DueDateShape.
Variable tz_local : Z.


End DueDateRule.

Section DueDateExamples.
Import GenerateTodo DueDateShape.

(** The evening of 1 November 2026 in Seoul, on a runtime whose local zone
    is Seoul's. *)
Local Abbreviation evening :=
  (fromLocal tz_seoul (MakeDay 2026 11 1 * msPerDay + MakeTime 23 34 0 0)).


(** Dates around the limit on that evening: 29 and 30 October are
    discarded, 31 October is kept and receives T09:00:00, a date with a time
    of day is kept as it came, and a text that is no date is discarded. *)
Example due_date_examples :
  dueDateFormatted tz_seoul evening (Some (js "2026-10-29")) = None /\
  dueDateFormatted tz_seoul evening (Some (js "2026-10-30T18:00:00")) = None /\
  dueDateFormatted tz_seoul evening (Some (js "2026-10-31"))
    = Some (js "2026-10-31T09:00:00") /\
  dueDateFormatted tz_seoul evening (Some (js "2026-11-02T15:00:00"))
    = Some (js "2026-11-02T15:00:00") /\
  dueDateFormatted tz_seoul evening (Some (js "tomorrow")) = None.
Proof. vm_compute. repeat split. Qed.


End DueDateExamples.

(** * Further properties *)

(** ** The Filter/Sort Engine, continued *)

Section SortStability.
Context {A : Type}.
Variable compareFn : A -> A -> Z.

(** A list that is in order is left as it is. *)
Lemma sort_sorted_id (l : list A) :
  StronglySorted (before compareFn) l -> sort compareFn l = l.
Proof.
  induction 1 as [|x l Hs IH Hx]; simpl; [reflexivity|].
  rewrite IH. destruct l as [|y l']; [reflexivity|]. simpl.
  inversion Hx as [|? ? Hxy _]; subst.
  unfold before in Hxy.
  destruct (Z.leb_spec (compareFn x y) 0); [reflexivity|lia].
Qed.

(** Elements that the comparator never puts after one another keep their
    order. *)
Lemma sort_insert_stable (P : A -> bool) (x : A) (l : list A) :
  (forall a b, P a = true -> P b = true -> compareFn a b <= 0) ->
  List.filter P (sort_insert compareFn x l) = List.filter P (x :: l).
Proof.
  intros Htie. induction l as [|y l IH]; [reflexivity|].
  simpl. destruct (Z.leb_spec (compareFn x y) 0) as [Hle|Hgt]; [reflexivity|].
  simpl. simpl in IH. rewrite IH.
  destruct (P x) eqn:Ex, (P y) eqn:Ey; try reflexivity.
  specialize (Htie x y Ex Ey). lia.
Qed.

Lemma sort_stable (P : A -> bool) (l : list A) :
  (forall a b, P a = true -> P b = true -> compareFn a b <= 0) ->
  List.filter P (sort compareFn l) = List.filter P l.
Proof.
  intros Htie. induction l as [|x l IH]; [reflexivity|].
  simpl sort. rewrite sort_insert_stable by exact Htie.
  simpl. rewrite IH. reflexivity.
Qed.

Lemma filter_sort_id (P : A -> bool) (l : list A) :
  List.filter P (sort compareFn (List.filter P l))
  = sort compareFn (List.filter P l).
Proof.
  apply List.forallb_filter_id. apply forallb_forall. intros x Hx.
  apply sort_In in Hx. apply filter_In in Hx. apply Hx.
Qed.

End SortStability.

Section EngineMore.
Variable localeCompare : jsstring -> jsstring -> Z.
Variable toLowerCase : jsstring -> jsstring.

Local Abbreviation engine := (filteredAndSortedTodos localeCompare toLowerCase).
Local Abbreviation order := (compareTodos localeCompare).

Lemma engine_passing (todos : list Todo) (q : jsstring) (s : StatusFilter)
    (p : PriorityFilter) (sb : SortBy) (o : SortOrder) :
  engine todos q s p sb o = sort (order sb o) (passing toLowerCase q s p todos).
Proof.
  unfold filteredAndSortedTodos, passing.
  rewrite search_step_filter, status_step_filter, priority_step_filter.
  rewrite !filter_fuse. f_equal. apply List.filter_ext. intros t.
  destruct (matchesSearch toLowerCase q t), (matchesStatus s t); reflexivity.
Qed.

(** The comparators of the keys other than the title are total and
    transitive. *)
Lemma order_total (sb : SortBy) (o : SortOrder) (a b : Todo) :
  sb <> by_title -> before (order sb o) a b \/ before (order sb o) b a.
Proof.
  intros Hsb. unfold before.
  destruct sb, o; try congruence; simpl;
    destruct (due_date a), (due_date b); lia.
Qed.

Lemma order_trans (sb : SortBy) (o : SortOrder) (a b c : Todo) :
  sb <> by_title ->
  before (order sb o) a b -> before (order sb o) b c -> before (order sb o) a c.
Proof.
  intros Hsb. unfold before.
  destruct sb, o; try congruence; simpl;
    try (destruct (due_date a), (due_date b), (due_date c)); lia.
Qed.

Lemma engine_sorted (todos : list Todo) (q : jsstring) (s : StatusFilter)
    (p : PriorityFilter) (sb : SortBy) (o : SortOrder) :
  sb <> by_title ->
  StronglySorted (before (order sb o)) (engine todos q s p sb o).
Proof.
  intros Hsb. unfold filteredAndSortedTodos.
  apply sort_sorted; intros; [apply order_total|eapply order_trans]; eauto.
Qed.

(** The displayed list holds the tasks that pass the three filters, each as
    often as the input holds it, whatever the comparator does; it is not
    longer than the input. *)
Theorem engine_keeps_passing_tasks (todos : list Todo) (q : jsstring)
    (s : StatusFilter) (p : PriorityFilter) (sb : SortBy) (o : SortOrder) :
  Permutation (engine todos q s p sb o) (passing toLowerCase q s p todos) /\
  (length (engine todos q s p sb o) <= length todos)%nat /\
  (forall t, In t (engine todos q s p sb o) <->
             In t todos /\ matchesSearch toLowerCase q t = true /\
             matchesStatus s t = true /\ matchesPriority p t = true).
Proof.
  rewrite engine_passing. split; [apply sort_Permutation|]. split.
  - rewrite sort_length. unfold passing. apply List.filter_length_le.
  - intros t. rewrite sort_In. unfold passing. rewrite filter_In.
    rewrite !andb_true_iff. tauto.
Qed.

(** Sorted by the created timestamp the list runs from old to new for
    [asc] and from new to old for [desc]; sorted by priority it runs from
    unset over low and medium to high for [asc], and from high to unset for
    [desc]. *)
Theorem engine_sorted_by_created_and_priority (todos : list Todo)
    (q : jsstring) (s : StatusFilter) (p : PriorityFilter)
    (i j : nat) (a b : Todo) :
  (i < j)%nat ->
  (engine todos q s p by_created asc !! i = Some a ->
   engine todos q s p by_created asc !! j = Some b ->
   created_date a <= created_date b) /\
  (engine todos q s p by_created desc !! i = Some a ->
   engine todos q s p by_created desc !! j = Some b ->
   created_date b <= created_date a) /\
  (engine todos q s p by_priority asc !! i = Some a ->
   engine todos q s p by_priority asc !! j = Some b ->
   priorityOrder (priority a) <= priorityOrder (priority b)) /\
  (engine todos q s p by_priority desc !! i = Some a ->
   engine todos q s p by_priority desc !! j = Some b ->
   priorityOrder (priority b) <= priorityOrder (priority a)).
Proof.
  intros Hij.
  repeat split; intros Hi Hj;
    match goal with
    | H : engine _ _ _ _ ?sb ?o !! _ = _ |- _ =>
        pose proof (StronglySorted_lookup _ _
                      (engine_sorted todos q s p sb o ltac:(discriminate))
                      i j a b Hij Hi Hj) as H0
    end; unfold before in H0; simpl in H0; lia.
Qed.

End EngineMore.

Lemma engine_sorted_by_created_and_priority_witness :
  (0 < 1)%nat /\ created_date taskOld <= created_date taskMid.
Proof.
  assert (H : (0 < 1)%nat) by lia.
  split; [exact H|].
  exact (proj1 (engine_sorted_by_created_and_priority ordinalCompare asciiLowerCase
                  storeOrder [] status_all priority_all 0 1 taskOld taskMid H)
               eq_refl eq_refl).
Defined.

Section EngineOrder.
Variable localeCompare : jsstring -> jsstring -> Z.
Variable toLowerCase : jsstring -> jsstring.

Local Abbreviation engine := (filteredAndSortedTodos localeCompare toLowerCase).
Local Abbreviation order := (compareTodos localeCompare).

(** For the keys other than the title, running the engine on its own output
    with the same settings changes nothing. *)
Theorem engine_idempotent (todos : list Todo) (q : jsstring)
    (s : StatusFilter) (p : PriorityFilter) (sb : SortBy) (o : SortOrder) :
  sb <> by_title ->
  engine (engine todos q s p sb o) q s p sb o = engine todos q s p sb o.
Proof.
  intros Hsb. rewrite !engine_passing. unfold passing.
  rewrite filter_sort_id. apply sort_sorted_id.
  apply sort_sorted; intros; [apply order_total|eapply order_trans]; eauto.
Qed.

(** The view the page opens with (no search, no filter, created [desc])
    shows the tasks in the order of the store, newest first, unchanged. *)
Theorem default_view_keeps_store_order (todos : list Todo) (q : jsstring) :
  newestFirst todos -> blank q = true ->
  engine todos q status_all priority_all by_created desc = todos.
Proof.
  intros Hs Hq. unfold filteredAndSortedTodos.
  rewrite search_step_filter.
  unfold matchesSearch. rewrite Hq. simpl. rewrite filter_all.
  apply sort_sorted_id.
  unfold newestFirst in Hs.
  induction Hs as [|a l Hl IH Ha]; constructor; [exact IH|].
  eapply List.Forall_impl; [|exact Ha].
  intros b H. cbv beta in H. unfold before, compareTodos, comparison. lia.
Qed.

(** Tasks that the sort key does not tell apart stay in the order in which
    the input has them: sorting by priority, for instance, keeps the tasks
    of one priority in their former order. *)
Theorem engine_sort_is_stable (todos : list Todo) (q : jsstring)
    (s : StatusFilter) (p : PriorityFilter) (sb : SortBy) (o : SortOrder)
    (t0 : Todo) :
  sb <> by_title ->
  List.filter (tied localeCompare sb t0) (engine todos q s p sb o)
  = List.filter (tied localeCompare sb t0) (passing toLowerCase q s p todos).
Proof.
  intros Hsb. rewrite engine_passing. apply sort_stable.
  intros a b Ha Hb. unfold tied in Ha, Hb.
  apply Z.eqb_eq in Ha, Hb.
  destruct sb, o; try congruence; simpl in *;
    try (destruct (due_date t0), (due_date a), (due_date b)); lia.
Qed.

(** The status filters [completed] and [pending] split the unfiltered list:
    every task is in exactly one of the two results. *)
Theorem completed_and_pending_split (todos : list Todo) (q : jsstring)
    (p : PriorityFilter) (sb : SortBy) (o : SortOrder) :
  (length (engine todos q status_completed p sb o)
   + length (engine todos q status_pending p sb o)
   = length (engine todos q status_all p sb o))%nat /\
  (forall t, In t (engine todos q status_all p sb o) <->
             In t (engine todos q status_completed p sb o) \/
             In t (engine todos q status_pending p sb o)) /\
  (forall t, In t (engine todos q status_completed p sb o) ->
             In t (engine todos q status_pending p sb o) -> False).
Proof.
  split; [|split].
  - unfold filteredAndSortedTodos. rewrite !sort_length.
    rewrite !priority_step_filter. simpl status_step.
    induction (search_step toLowerCase q todos) as [|t l IH]; [reflexivity|]. simpl.
    destruct (completed t); simpl; destruct (matchesPriority p t); simpl; lia.
  - intros t. rewrite !engine_In, !priority_step_In, !status_step_In.
    simpl. rewrite !bool_decide_eq_true.
    destruct (completed t); intuition congruence.
  - intros t. rewrite !engine_In, !priority_step_In, !status_step_In.
    simpl. rewrite !bool_decide_eq_true. intuition congruence.
Qed.

End EngineOrder.

Lemma engine_idempotent_witness :
  by_priority <> by_title /\
  filteredAndSortedTodos ordinalCompare asciiLowerCase
    (filteredAndSortedTodos ordinalCompare asciiLowerCase storeOrder [] status_pending
       priority_all by_priority asc)
    [] status_pending priority_all by_priority asc
  = filteredAndSortedTodos ordinalCompare asciiLowerCase storeOrder [] status_pending
      priority_all by_priority asc.
Proof.
  assert (H : by_priority <> by_title) by discriminate.
  split; [exact H|].
  exact (engine_idempotent ordinalCompare asciiLowerCase storeOrder [] status_pending
           priority_all by_priority asc H).
Defined.

Lemma default_view_keeps_store_order_witness :
  newestFirst storeOrder /\ blank [32%N] = true /\
  filteredAndSortedTodos ordinalCompare asciiLowerCase storeOrder [32%N] status_all
    priority_all by_created desc = storeOrder.
Proof.
  assert (Hs : newestFirst storeOrder).
  { unfold newestFirst, storeOrder.
    repeat (constructor; [|repeat constructor; simpl; lia]). constructor. }
  split; [exact Hs|]. split; [reflexivity|].
  exact (default_view_keeps_store_order ordinalCompare asciiLowerCase storeOrder [32%N]
           Hs eq_refl).
Defined.

Lemma engine_sort_is_stable_witness :
  by_due <> by_title /\
  List.filter (tied ordinalCompare by_due taskNew)
    (filteredAndSortedTodos ordinalCompare asciiLowerCase storeOrder [] status_all
       priority_all by_due asc)
  = [taskNew; taskMid].
Proof.
  assert (H : by_due <> by_title) by discriminate.
  split; [exact H|].
  exact (engine_sort_is_stable ordinalCompare asciiLowerCase storeOrder [] status_all
           priority_all by_due asc taskNew H).
Defined.

(** ** The analysis windows, continued *)

Section TodayWindow.
Variable tz_local : Z.

Lemma todayEnd_parts (now : Z) :
  localDay tz_local (todayEnd tz_local now)
    = localDay tz_local (koreaTime tz_local now) /\
  timeInDay tz_local (todayEnd tz_local now) = MakeTime 23 59 59 999.
Proof.
  unfold todayEnd. split.
  - apply localDay_setHours. unfold MakeTime, msPerDay. lia.
  - apply timeInDay_setHours. unfold MakeTime, msPerDay. lia.
Qed.

(** The [today] window opens at the local midnight of the Seoul calendar
    day of the current instant and closes 23:59:59.999 later, on the same
    day; the current Seoul wall-clock time lies within it. *)
Theorem today_window_one_day (now : Z) :
  window tz_local today now = (todayStart tz_local now, todayEnd tz_local now) /\
  localDay tz_local (todayStart tz_local now) = (now + tz_seoul) / msPerDay /\
  timeInDay tz_local (todayStart tz_local now) = 0 /\
  todayEnd tz_local now = todayStart tz_local now + MakeTime 23 59 59 999 /\
  localDay tz_local (todayEnd tz_local now)
    = localDay tz_local (todayStart tz_local now) /\
  todayStart tz_local now <= seoulWallClock tz_local now
    <= todayEnd tz_local now.
Proof.
  destruct (koreaTime_day tz_local now) as [Hkd Hkt].
  destruct (todayEnd_parts now) as [Hed Het].
  pose proof (local_decomposition tz_local (koreaTime tz_local now)) as Ek.
  pose proof (local_decomposition tz_local (todayEnd tz_local now)) as Ee.
  rewrite Hkt in Ek. rewrite Hed, Het in Ee. unfold fromLocal in Ek, Ee.
  unfold todayStart.
  split; [reflexivity|]. split; [exact Hkd|]. split; [exact Hkt|].
  split; [lia|]. split; [exact Hed|].
  assert (Hw : localDay tz_local (seoulWallClock tz_local now)
               = localDay tz_local (koreaTime tz_local now)).
  { unfold koreaTime. symmetry. apply localDay_setHours.
    unfold MakeTime, msPerDay. lia. }
  pose proof (local_decomposition tz_local (seoulWallClock tz_local now)) as Es.
  rewrite Hw in Es. unfold fromLocal in Es.
  pose proof (Z.mod_pos_bound (localTime tz_local (seoulWallClock tz_local now))
                msPerDay ltac:(unfold msPerDay; lia)) as Hm.
  fold (timeInDay tz_local (seoulWallClock tz_local now)) in Hm.
  unfold MakeTime, msPerDay in *. lia.
Qed.

Lemma today_in_week (now : Z) :
  monday tz_local now <= todayStart tz_local now /\
  todayEnd tz_local now <= sunday tz_local now.
Proof.
  destruct (koreaTime_day tz_local now) as [Hkd Hkt].
  destruct (todayEnd_parts now) as [Hed Het].
  destruct (monday_parts tz_local now) as [Hmd Hmt].
  destruct (sunday_parts tz_local now) as [Hsd Hst].
  cbv zeta in Hmd.
  pose proof (local_decomposition tz_local (koreaTime tz_local now)) as Ek.
  pose proof (local_decomposition tz_local (todayEnd tz_local now)) as Ee.
  pose proof (local_decomposition tz_local (monday tz_local now)) as Em.
  pose proof (local_decomposition tz_local (sunday tz_local now)) as Es.
  rewrite Hkt in Ek. rewrite Hed, Het in Ee. rewrite Hmd, Hmt in Em.
  rewrite Hsd, Hst, Hmd in Es.
  unfold fromLocal in Ek, Ee, Em, Es. unfold todayStart.
  set (w := getDay tz_local (koreaTime tz_local now)) in *.
  assert (Hw7 : 0 <= w < 7) by (apply Z.mod_pos_bound; lia).
  destruct (Z.eqb_spec w 0); unfold MakeTime, msPerDay in *; lia.
Qed.

(** The [today] window lies within the [week] window, so every task
    selected for the analysis of today is selected for the analysis of the
    week. *)
Theorem today_selection_within_week (now : Z) (todos : list Todo) (t : Todo) :
  (monday tz_local now <= todayStart tz_local now /\
   todayEnd tz_local now <= sunday tz_local now) /\
  (In t (filteredTodos tz_local today now todos) ->
   In t (filteredTodos tz_local week now todos)).
Proof.
  pose proof (today_in_week now) as [H1 H2].
  split; [split; assumption|].
  unfold filteredTodos. rewrite !filter_In. intros [Hin Hp]. split; [exact Hin|].
  unfold inPeriod, within in *. simpl in *.
  destruct (due_date t) as [d|];
    rewrite ?orb_true_iff, ?andb_true_iff, ?Z.leb_le in *; lia.
Qed.

End TodayWindow.

(** ** The extraction endpoint, continued *)

Section NormalizationMore.
Import GenerateTodo.

Lemma wellSpaced_replace_id (x : jsstring) (b : bool) :
  wellSpaced b x = true -> replace_ws_runs b x = x.
Proof.
  revert b. induction x as [|c r IH]; intros b H; [reflexivity|].
  simpl in *. destruct (isWhiteSpace c) eqn:E.
  - apply andb_true_iff in H as [H Hr]. apply andb_true_iff in H as [Hb Hc].
    apply negb_true_iff in Hb. subst b. apply N.eqb_eq in Hc. subst c.
    f_equal. apply IH. exact Hr.
  - f_equal. apply IH. exact H.
Qed.

Lemma wellSpaced_trimEnd_id (x : jsstring) (b : bool) :
  wellSpaced b x = true -> trimEnd x = x.
Proof.
  revert b. induction x as [|c r IH]; intros b H; [reflexivity|].
  simpl in *. destruct (isWhiteSpace c) eqn:E.
  - apply andb_true_iff in H as [_ Hr].
    rewrite (IH true Hr). destruct r; [discriminate Hr|reflexivity].
  - rewrite (IH false H). destruct r; reflexivity.
Qed.

Lemma wellSpaced_trimStart_id (x : jsstring) :
  wellSpaced true x = true -> trimStart x = x.
Proof.
  destruct x as [|c r]; [reflexivity|]. simpl.
  destruct (isWhiteSpace c); [discriminate|reflexivity].
Qed.

Lemma wellSpaced_normalized (x : jsstring) :
  wellSpaced true x = true -> normalizedInput x = x.
Proof.
  intros H. unfold normalizedInput, trim.
  rewrite (wellSpaced_trimStart_id x H), (wellSpaced_trimEnd_id x true H).
  destruct x as [|c r]; [reflexivity|]. simpl in *.
  destruct (isWhiteSpace c); [discriminate|].
  f_equal. apply wellSpaced_replace_id. exact H.
Qed.

(** Normalizing twice is normalizing once. *)
Theorem normalizedInput_idempotent (s : jsstring) :
  normalizedInput (normalizedInput s) = normalizedInput s.
Proof.
  destruct (normalizedInput_spec s) as (_ & [H|H] & _).
  - rewrite H. reflexivity.
  - apply wellSpaced_normalized. exact H.
Qed.

Lemma POST_reaches_remote
    (apiKey : option jsstring) (body : option Body) (p : jsstring) :
  POST apiKey body = GenerateObject p ->
  (exists k s, apiKey = Some k /\ truthy k = true /\
               body = Some (body_with (input_string s)) /\ p = normalizedInput s) /\
  (2 <= length p <= 500)%nat /\
  wellSpaced true p = true.
Proof.
  unfold POST. intros H.
  destruct apiKey as [k|]; [|discriminate].
  destruct (truthy k) eqn:Hk; [|discriminate]. simpl in H.
  destruct body as [[|[s|]]|]; try discriminate.
  destruct (truthy s) eqn:Hs; [|discriminate]. simpl in H.
  destruct (Nat.eqb_spec (length (normalizedInput s)) 0); [discriminate|].
  destruct (Nat.ltb_spec (length (normalizedInput s)) 2); [discriminate|].
  destruct (Nat.ltb_spec 500 (length (normalizedInput s))); [discriminate|].
  injection H as <-.
  split; [exists k, s; auto|]. split; [lia|].
  destruct (normalizedInput_spec s) as (_ & [Hn|Hn] & _); [|exact Hn].
  rewrite Hn in *. simpl in *. lia.
Qed.

(** What reaches the remote call: only with the credential and a string
    input, and then the normalized input, of 2 to 500 characters, without
    white space at its ends and with single spaces between its words. *)
Theorem remote_call_receives_normalized_input
    (apiKey : option jsstring) (body : option Body) (p : jsstring) :
  POST apiKey body = GenerateObject p ->
  (exists k s, apiKey = Some k /\ truthy k = true /\
               body = Some (body_with (input_string s)) /\ p = normalizedInput s) /\
  (2 <= length p <= 500)%nat /\
  wellSpaced true p = true.
Proof. exact (POST_reaches_remote apiKey body p). Qed.

Lemma remote_call_receives_normalized_input_witness :
  POST (Some (js "key")) (Some (body_with (input_string meeting_raw)))
    = GenerateObject meeting_normalized /\
  wellSpaced true meeting_normalized = true.
Proof.
  assert (H : POST (Some (js "key")) (Some (body_with (input_string meeting_raw)))
              = GenerateObject meeting_normalized) by reflexivity.
  split; [exact H|].
  exact (proj2 (proj2 (remote_call_receives_normalized_input _ _ _ H))).
Defined.

End NormalizationMore.

Section TitleClamp.
Import GenerateTodo GenerateResponse.

Lemma trimEnd_app_nonws (pre : jsstring) (c : N) (r : jsstring) :
  isWhiteSpace c = false -> trimEnd (pre ++ c :: r) = pre ++ c :: trimEnd r.
Proof.
  intros Hc. induction pre as [|a pre IH].
  - apply trimEnd_nonws. exact Hc.
  - change (trimEnd ((a :: pre) ++ c :: r)) with
      (match trimEnd (pre ++ c :: r) with
       | [] => if isWhiteSpace a then [] else [a]
       | r' => a :: r'
       end).
    rewrite IH. destruct pre; reflexivity.
Qed.

(** The first 50 characters of an accepted input keep at least two
    characters when trimmed. *)
Lemma trim_slice_of_input (p : jsstring) :
  wellSpaced true p = true -> (2 <= length p)%nat ->
  (2 <= length (trim (slice0 50 p)))%nat.
Proof.
  intros Hw Hl. unfold slice0, trim.
  destruct p as [|c1 [|c2 r2]]; simpl in Hl; try lia.
  simpl in Hw. destruct (isWhiteSpace c1) eqn:E1; [discriminate|].
  destruct (isWhiteSpace c2) eqn:E2.
  - simpl in Hw. apply andb_true_iff in Hw as [_ Hw].
    destruct r2 as [|c3 r3]; [discriminate|].
    simpl in Hw. destruct (isWhiteSpace c3) eqn:E3; [discriminate|].
    change (take 50 (c1 :: c2 :: c3 :: r3))
      with (c1 :: c2 :: c3 :: take 47 r3).
    cbn [trimStart]. rewrite E1.
    change (c1 :: c2 :: c3 :: take 47 r3)
      with ([c1; c2] ++ c3 :: take 47 r3).
    rewrite (trimEnd_app_nonws [c1; c2] c3 _ E3). simpl. lia.
  - change (take 50 (c1 :: c2 :: r2)) with (c1 :: c2 :: take 48 r2).
    cbn [trimStart]. rewrite E1.
    change (c1 :: c2 :: take 48 r2) with ([c1] ++ c2 :: take 48 r2).
    rewrite (trimEnd_app_nonws [c1] c2 _ E2). simpl. lia.
Qed.

Lemma truthy_length (s : jsstring) : truthy s = true <-> (1 <= length s)%nat.
Proof. destruct s; simpl; split; (discriminate || lia || reflexivity). Qed.

Lemma title_facts (p g : jsstring) :
  (1 <= length (title p g) <= 200)%nat /\
  (wellSpaced true p = true -> (2 <= length p)%nat ->
   (2 <= length (title p g))%nat) /\
  ((2 <= length (trim g) <= 200)%nat -> title p g = trim g) /\
  ((200 < length (trim g))%nat ->
   title p g = take 197 (trim g) ++ ellipsis /\ length (title p g) = 200%nat).
Proof.
  unfold title, slice0.
  set (t1 := trim (if truthy g then g else take 100 p)).
  set (t2 := if (length t1 <? 2)%nat
             then (if truthy (trim (take 50 p)) then trim (take 50 p)
                   else placeholder)
             else t1).
  assert (Hcut : forall x : jsstring, (200 < length x)%nat ->
                 length (take 197 x ++ ellipsis) = 200%nat).
  { intros x Hx. rewrite length_app, length_take.
    change (length ellipsis) with 3%nat. lia. }
  assert (H2 : (1 <= length t2)%nat).
  { unfold t2. destruct (Nat.ltb_spec (length t1) 2); [|lia].
    destruct (truthy (trim (take 50 p))) eqn:E; [|simpl; lia].
    apply truthy_length. exact E. }
  assert (Hg : (2 <= length (trim g))%nat -> t1 = trim g /\ t2 = trim g).
  { intros Hl. assert (t1 = trim g) as E1.
    { unfold t1. destruct g; [simpl in Hl; lia|reflexivity]. }
    split; [exact E1|]. unfold t2. rewrite E1.
    destruct (Nat.ltb_spec (length (trim g)) 2); [lia|reflexivity]. }
  split; [|split; [|split]].
  - destruct (Nat.ltb_spec 200 (length t2)); [rewrite Hcut by lia; lia|lia].
  - intros Hw Hl.
    assert (H22 : (2 <= length t2)%nat).
    { unfold t2. destruct (Nat.ltb_spec (length t1) 2); [|lia].
      pose proof (trim_slice_of_input p Hw Hl) as Hs. unfold slice0 in Hs.
      destruct (truthy (trim (take 50 p))); [exact Hs|simpl; lia]. }
    destruct (Nat.ltb_spec 200 (length t2)); [rewrite Hcut by lia; lia|lia].
  - intros [Hlo Hhi]. destruct (Hg Hlo) as [_ ->].
    destruct (Nat.ltb_spec 200 (length (trim g))); [lia|reflexivity].
  - intros Hl. destruct (Hg ltac:(lia)) as [_ ->].
    destruct (Nat.ltb_spec 200 (length (trim g))); [|lia].
    split; [reflexivity|]. apply Hcut. lia.
Qed.

(** The title of the response has 1 to 200 characters, and at least 2 for
    an input that passed the validation.  A title of the remote result that
    has 2 to 200 characters once trimmed is taken as it is, trimmed; a
    longer one is cut to its first 197 characters followed by "...". *)
Theorem title_is_clamped (p g : jsstring) :
  (1 <= length (title p g) <= 200)%nat /\
  (wellSpaced true p = true -> (2 <= length p)%nat ->
   (2 <= length (title p g))%nat) /\
  ((2 <= length (trim g) <= 200)%nat -> title p g = trim g) /\
  ((200 < length (trim g))%nat ->
   title p g = take 197 (trim g) ++ ellipsis /\ length (title p g) = 200%nat).
Proof. exact (title_facts p g). Qed.

(** "  Buy milk  " comes back as "Buy milk"; an empty title falls back on
    the input. *)
Example title_examples :
  title (js "buy some milk") (js "  Buy milk  ") = js "Buy milk" /\
  title (js "buy some milk") [] = js "buy some milk" /\
  title (js "buy some milk") (js " x ") = js "buy some milk".
Proof. repeat split. Qed.

End TitleClamp.

Section CatchBlocks.
Import ErrorHandling.

Lemma includes_tail (m a b : jsstring) :
  includes m (a ++ b) = true -> includes m b = true.
Proof.
  rewrite !includes_spec. intros (pre & post & ->).
  exists (pre ++ a), post. rewrite <- !app_assoc. reflexivity.
Qed.

Lemma mentions_quota (m : jsstring) :
  mentions m quotaWords = true <->
  includes m (js "quota") = true \/ includes m (js "Quota exceeded") = true \/
  includes m (js "429") = true \/ includes m (js "rate limit") = true.
Proof.
  unfold mentions, quotaWords. cbn [existsb].
  rewrite !orb_true_iff. split.
  - intros [H|[H|[H|[H|[H|H]]]]]; auto; [|discriminate].
    left. apply (includes_tail m (js "exceeded your current ")). exact H.
  - intros [H|[H|[H|H]]]; auto 10.
Qed.

(** Both [catch] blocks answer with 400, 429 or 500, with the same status
    for the same error, whatever the mode; the status is 429 exactly for an
    error whose message contains "quota", "Quota exceeded", "429" or "rate
    limit", whatever else it contains. *)
Theorem catch_blocks_status (development : bool) (error : Caught) :
  fst (catchGenerate development error) = fst (catchAnalyze development error) /\
  fst (catchGenerate development error) = fst (catchGenerate (negb development) error) /\
  (fst (catchGenerate development error) = 400 \/
   fst (catchGenerate development error) = 429 \/
   fst (catchGenerate development error) = 500) /\
  (fst (catchGenerate development error) = 429 <->
   exists m, error = caught_message m /\
     (includes m (js "quota") = true \/ includes m (js "Quota exceeded") = true \/
      includes m (js "429") = true \/ includes m (js "rate limit") = true)).
Proof.
  destruct error as [m|]; unfold catchGenerate, catchAnalyze.
  - pose proof (mentions_quota m) as Hq.
    destruct (mentions m quotaWords) eqn:Eq; cbn [fst snd].
    + split; [reflexivity|]. split; [reflexivity|]. split; [auto|].
      split; [|reflexivity]. intros _. exists m. split; [reflexivity|].
      apply Hq. reflexivity.
    + assert (Hno : ~ exists m0, caught_message m = caught_message m0 /\
                (includes m0 (js "quota") = true \/
                 includes m0 (js "Quota exceeded") = true \/
                 includes m0 (js "429") = true \/
                 includes m0 (js "rate limit") = true)).
      { intros (m' & Hm & Hw). injection Hm as <-.
        apply Hq in Hw. discriminate. }
      destruct (mentions m inputWords), (mentions m authWords); cbn [fst snd];
        (split; [reflexivity|]; split; [reflexivity|]; split; [auto|];
         split; [discriminate|]; intros H; destruct (Hno H)).
  - split; [reflexivity|]. split; [reflexivity|]. split; [auto|].
    split; [discriminate|]. intros (m & Hm & _). discriminate.
Qed.

(** Outside the development mode neither [catch] block passes the message
    of the error on; in the development mode it is passed on only when none
    of the listed words occurs in it, and then with status 500. *)
Theorem catch_blocks_hide_raw_message (development : bool) (error : Caught)
    (m : jsstring) :
  (snd (catchGenerate false error) <> msg_raw m /\
   snd (catchAnalyze false error) <> msg_raw m) /\
  (snd (catchGenerate development error) = msg_raw m ->
   development = true /\ error = caught_message m /\
   mentions m quotaWords = false /\ mentions m inputWords = false /\
   mentions m authWords = false /\
   fst (catchGenerate development error) = 500) /\
  (snd (catchAnalyze development error) = msg_raw m ->
   development = true /\ error = caught_message m /\
   mentions m quotaWords = false /\ mentions m inputWords = false /\
   fst (catchAnalyze development error) = 500).
Proof.
  destruct error as [m'|]; unfold catchGenerate, catchAnalyze.
  - destruct (mentions m' quotaWords) eqn:Eq, (mentions m' inputWords) eqn:Ei,
      (mentions m' authWords) eqn:Ea, development; cbn [fst snd];
      (split; [split; discriminate|];
       split; intros HH;
       first [discriminate HH
             | injection HH as <-; repeat split; (assumption || reflexivity)]).
  - cbn [fst snd]. split; [split; discriminate|].
    split; intros HH; discriminate HH.
Qed.

Lemma catch_cases (development : bool) (error : Caught) :
  fst (catchGenerate development error) = 400 \/
  fst (catchGenerate development error) = 429 \/
  fst (catchGenerate development error) = 500.
Proof.
  destruct error as [m|]; unfold catchGenerate; [|auto].
  destruct (mentions m quotaWords), (mentions m inputWords),
    (mentions m authWords); auto.
Qed.

(** A quota error that also speaks of an invalid request is reported as a
    quota error. *)
Example catch_quota_first :
  catchGenerate false (caught_message (js "invalid request: Quota exceeded"))
    = (429, msg_quota) /\
  catchAnalyze true (caught_message (js "connection reset"))
    = (500, msg_raw (js "connection reset")).
Proof. split; reflexivity. Qed.

End CatchBlocks.

Section ResponseData.
Import GenerateTodo GenerateResponse ErrorHandling DueDateShape.
Variable tz_local : Z.

Lemma timeShaped_nine : timeShaped (isoTime 9 0 0).
Proof.
  exists (fmt2 9), (fmt2 0), (fmt2 0). repeat split.
Qed.

Lemma response_due_date (koreaTime : Z) (due : option jsstring) (d : jsstring) :
  dueDateFormatted tz_local koreaTime due = Some d ->
  exists date time rest,
    d = date ++ time ++ rest /\ dateShaped date /\ timeShaped time.
Proof.
  destruct due as [t|]; [|discriminate]. intros H.
  apply dueDate_kept_inv in H as (date & rest & -> & Hd & [H|H]).
  - destruct H as (time & rest' & -> & Ht & ->).
    exists date, time, rest'. auto.
  - exists date, (isoTime 9 0 0), []. rewrite app_nil_r.
    split; [exact H|]. split; [exact Hd|apply timeShaped_nine].
Qed.

(** The data of a successful answer: the category list is never empty (the
    one of the remote result, or "개인" alone); a description is present only
    if it is not blank, and then trimmed; a priority is always set, [medium]
    when the remote result has none; and a due timestamp, when present,
    begins with a date and a time of day in the form YYYY-MM-DDTHH:MM:SS. *)
Theorem response_data_is_complete (koreaTime : Z) (p : jsstring)
    (g : GeneratedData) :
  let r := responseData tz_local koreaTime p g in
  res_category r <> [] /\
  (forall c, gen_category g = Some c -> c <> [] -> res_category r = c) /\
  (gen_category g = None \/ gen_category g = Some [] ->
   res_category r = [label_personal]) /\
  (forall d, res_description r = Some d ->
     truthy d = true /\ exists d0, gen_description g = Some d0 /\ d = trim d0) /\
  (gen_priority g = None -> res_priority r = medium) /\
  (forall x, gen_priority g = Some x -> res_priority r = x) /\
  (forall d, res_due_date r = Some d ->
     exists date time rest,
       d = date ++ time ++ rest /\ dateShaped date /\ timeShaped time).
Proof.
  intros r. unfold r, responseData. cbn [res_category res_description
    res_priority res_due_date].
  split.
  { destruct (gen_category g) as [[|c l]|]; simpl; discriminate. }
  split.
  { intros c -> Hc. destruct c; [congruence|reflexivity]. }
  split.
  { intros [-> | ->]; reflexivity. }
  split.
  { intros d. destruct (gen_description g) as [d0|]; [|discriminate].
    destruct (truthy (trim d0)) eqn:E; [|discriminate].
    intros H. injection H as <-. split; [exact E|]. exists d0. auto. }
  split; [intros ->; reflexivity|].
  split; [intros x ->; reflexivity|].
  intros d. apply response_due_date.
Qed.

(** The whole handler answers with 200, 400, 429 or 500.  It answers 200
    exactly when the validation lets the input pass and the remote call
    returns an object, and the title it then returns has 2 to 200
    characters.  Without the credential the answer is 500 whatever the body
    is. *)
Theorem handler_answers (development : bool) (apiKey : option jsstring)
    (body : option Body) (now : Z) (remote : Caught + GeneratedData) :
  let a := handle tz_local development apiKey body now remote in
  (statusOf a = 200 \/ statusOf a = 400 \/ statusOf a = 429 \/ statusOf a = 500) /\
  (statusOf a = 200 <->
   exists p g, POST apiKey body = GenerateObject p /\ remote = inr g) /\
  (forall s d, a = answer_data s d ->
     s = 200 /\ (2 <= length (res_title d) <= 200)%nat /\ res_category d <> []) /\
  (match apiKey with Some k => truthy k | None => false end = false ->
   a = answer_error 500 err_api_key).
Proof.
  intros a. unfold a, handle.
  destruct (POST apiKey body) as [status e| |p] eqn:EP.
  - assert (Hs : (status = 400 \/ status = 500) /\ 
                 (match apiKey with Some k => truthy k | None => false end = false ->
                  status = 500 /\ e = err_api_key)).
    { unfold POST in EP.
      destruct (match apiKey with Some k => truthy k | None => false end);
        simpl in EP.
      - split; [|discriminate].
        destruct body as [[|[s|]]|];
          try discriminate EP; try (injection EP as <- <-; auto).
        destruct (truthy s); simpl in EP; [|injection EP as <- <-; auto].
        destruct (length (normalizedInput s) =? 0)%nat;
          [injection EP as <- <-; auto|].
        destruct (length (normalizedInput s) <? 2)%nat;
          [injection EP as <- <-; auto|].
        destruct (500 <? length (normalizedInput s))%nat;
          [injection EP as <- <-; auto|discriminate].
      - injection EP as <- <-. auto. }
    destruct Hs as [Hs Hk]. simpl.
    split; [destruct Hs; auto|].
    split.
    { split; [intros H; destruct Hs; lia|intros (p & g & H & _); discriminate]. }
    split; [intros s d H; discriminate|].
    intros H. destruct (Hk H) as [-> ->]. reflexivity.
  - assert (Hc : catchGenerate development destructuringError
                 = (500, if development then
                           match destructuringError with
                           | caught_message m => msg_raw m
                           | caught_other => msg_default
                           end
                         else msg_retry))
      by (destruct development; reflexivity).
    rewrite Hc. simpl.
    split; [auto|].
    split; [split; [discriminate|intros (p & g & H & _); discriminate]|].
    split; [intros s d H; discriminate|].
    intros H. unfold POST in EP. rewrite H in EP. discriminate.
  - destruct (POST_reaches_remote apiKey body p EP)
      as ((k & s & -> & Hk & _ & _) & Hlen & Hw).
    destruct remote as [error|g].
    + pose proof (catch_cases development error) as Hc.
      destruct (catchGenerate development error) as [st m]. simpl in *.
      split; [destruct Hc as [->|[->| ->]]; auto|].
      split.
      { split; [intros H; destruct Hc; lia|intros (p' & g & _ & H); discriminate]. }
      split; [intros s0 d H; discriminate|].
      rewrite Hk. discriminate.
    + simpl. split; [auto|].
      split; [split; [intros _; exists p, g; auto|reflexivity]|].
      split.
      { intros s0 d H. injection H as <- <-. split; [reflexivity|].
        unfold responseData. cbn [res_title res_category].
        pose proof (title_facts p (gen_title g)) as (Hb & Hlo & _).
        split; [specialize (Hlo Hw ltac:(lia)); lia|].
        destruct (gen_category g) as [[|c l]|]; simpl; discriminate. }
      rewrite Hk. discriminate.
Qed.

End ResponseData.

(** ** The analysis endpoint, continued: the statistics *)

Section PriorityStats.
Import Analytics AnalyzeStats.

(** The four entries of [priorityStats] split the tasks: their totals add
    up to the number of tasks, their completed counts to the number of
    completed tasks, and no entry has more completed tasks than tasks. *)
Theorem priority_stats_split (todos : list Todo) :
  let s := priorityStats todos in
  (tally_total (stats_high s) + tally_total (stats_medium s)
   + tally_total (stats_low s) + tally_total (stats_none s)
   = length todos)%nat /\
  (tally_completed (stats_high s) + tally_completed (stats_medium s)
   + tally_completed (stats_low s) + tally_completed (stats_none s)
   = completedTodos todos)%nat /\
  (tally_completed (stats_high s) <= tally_total (stats_high s))%nat /\
  (tally_completed (stats_medium s) <= tally_total (stats_medium s))%nat /\
  (tally_completed (stats_low s) <= tally_total (stats_low s))%nat /\
  (tally_completed (stats_none s) <= tally_total (stats_none s))%nat.
Proof.
  unfold priorityStats, tallyOf, countIf, completedTodos, hasPriority,
    noPriority. simpl.
  induction todos as [|t l IH]; simpl; [lia|].
  destruct (priority t) as [[]|], (completed t); simpl; lia.
Qed.

Lemma tallyPriority_fold (l : list Todo) (c : PriorityCount) :
  fold_left tallyPriority l c
  = mkPriorityCount (count_high c + countIf (hasPriority high) l)
                    (count_medium c + countIf (hasPriority medium) l)
                    (count_low c + countIf (hasPriority low) l)
                    (count_none c + countIf noPriority l).
Proof.
  revert c. unfold countIf.
  induction l as [|t l IH]; intros c; simpl.
  - destruct c. simpl. f_equal; lia.
  - rewrite IH. unfold tallyPriority, hasPriority, noPriority.
    destruct (priority t) as [[]|]; simpl; f_equal; lia.
Qed.

Lemma countIf_filter (f g : Todo -> bool) (l : list Todo) :
  countIf f (List.filter g l) = countIf (fun t => g t && f t) l.
Proof. unfold countIf. rewrite filter_fuse. reflexivity. Qed.

(** The tally of the completed tasks by priority agrees with the completed
    counts of [priorityStats]; the tally of the overdue tasks by priority
    adds up to the number of overdue tasks. *)
Theorem priority_tallies_agree (koreaTime : Z) (todos : list Todo) :
  let s := priorityStats todos in
  completedPriorityCount todos
  = mkPriorityCount (tally_completed (stats_high s))
                    (tally_completed (stats_medium s))
                    (tally_completed (stats_low s))
                    (tally_completed (stats_none s)) /\
  let c := postponedPriorityCount koreaTime todos in
  (count_high c + count_medium c + count_low c + count_none c
   = length (overdueTodos koreaTime todos))%nat.
Proof.
  split.
  - unfold completedPriorityCount. rewrite tallyPriority_fold. simpl.
    rewrite !countIf_filter. unfold countIf.
    f_equal; f_equal; apply List.filter_ext; intros t; apply andb_comm.
  - unfold postponedPriorityCount. rewrite tallyPriority_fold. simpl.
    generalize (overdueTodos koreaTime todos). intros l. unfold countIf.
    induction l as [|t l IH]; simpl; [reflexivity|].
    unfold hasPriority, noPriority in *.
    destruct (priority t) as [[]|]; simpl; lia.
Qed.

End PriorityStats.

Section Deadlines.
Import Analytics AnalyzeStats.
Variable toDouble : Q -> Q.
Hypothesis rounding : roundsToNearest toDouble.

Lemma overdueTodos_In (koreaTime : Z) (todos : list Todo) (t : Todo) :
  In t (overdueTodos koreaTime todos) <->
  In t todos /\ completed t = false /\
  exists d, due_date t = Some d /\ d < koreaTime.
Proof.
  unfold overdueTodos, todosWithDueDate, isOverdue, no_due.
  rewrite !filter_In.
  destruct (completed t), (due_date t) as [d|]; simpl;
    rewrite ?Z.ltb_lt; split.
  all: try (intros [[Hin _] H]; discriminate).
  all: try (intros (_ & H & _); discriminate).
  all: try (intros (_ & _ & d' & H & _); discriminate).
  - intros [[Hin _] H]. eauto.
  - intros (Hin & _ & d' & H & Hlt). injection H as <-. auto.
Qed.

Lemma completedOnTime_In (todos : list Todo) (t : Todo) :
  In t (completedOnTime todos) <->
  In t todos /\ completed t = true /\
  exists d, due_date t = Some d /\ created_date t <= d.
Proof.
  unfold completedOnTime, todosWithDueDate, isCompletedOnTime, no_due.
  rewrite !filter_In.
  destruct (completed t), (due_date t) as [d|]; simpl;
    rewrite ?Z.leb_le; split.
  all: try (intros [[Hin _] H]; discriminate).
  all: try (intros (_ & H & _); discriminate).
  all: try (intros (_ & _ & d' & H & _); discriminate).
  - intros [[Hin _] H]. eauto.
  - intros (Hin & _ & d' & H & Hlt). injection H as <-. auto.
Qed.

Lemma deadline_counts (koreaTime : Z) (todos : list Todo) :
  (length (overdueTodos koreaTime todos) + length (completedOnTime todos)
   <= length (todosWithDueDate todos))%nat /\
  (length (todosWithDueDate todos) <= length todos)%nat.
Proof.
  split; [|apply List.filter_length_le].
  unfold overdueTodos, completedOnTime.
  induction (todosWithDueDate todos) as [|t l IH]; simpl; [lia|].
  unfold isOverdue, isCompletedOnTime.
  destruct (completed t); simpl; destruct (due_date t) as [d|];
    try destruct (d <? koreaTime); try destruct (created_date t <=? d);
    simpl; unfold isOverdue, isCompletedOnTime in IH; lia.
Qed.

(** Deadlines: an overdue task is a task that is not completed and whose
    due timestamp lies before [koreaTime]; a task counted as completed on
    time is completed and was created no later than its due timestamp.  No
    task is both; together they are at most the tasks with a due timestamp;
    and the compliance rate lies between 0 and 100. *)
Theorem deadline_analysis (koreaTime : Z) (todos : list Todo) :
  (forall t, In t (overdueTodos koreaTime todos) <->
     In t todos /\ completed t = false /\
     exists d, due_date t = Some d /\ d < koreaTime) /\
  (forall t, In t (completedOnTime todos) <->
     In t todos /\ completed t = true /\
     exists d, due_date t = Some d /\ created_date t <= d) /\
  (forall t, In t (overdueTodos koreaTime todos) ->
             In t (completedOnTime todos) -> False) /\
  (length (overdueTodos koreaTime todos) + length (completedOnTime todos)
   <= length (todosWithDueDate todos) <= length todos)%nat /\
  (0 <= deadlineComplianceRate toDouble todos <= 100)%Q.
Proof.
  split; [intros t; apply overdueTodos_In|].
  split; [intros t; apply completedOnTime_In|].
  split.
  { intros t H1 H2. apply overdueTodos_In in H1. apply completedOnTime_In in H2.
    destruct H1 as (_ & H1 & _), H2 as (_ & H2 & _). congruence. }
  pose proof (deadline_counts koreaTime todos) as [Hc Hl].
  split; [lia|].
  unfold deadlineComplianceRate.
  destruct (Nat.ltb_spec 0 (length (todosWithDueDate todos)));
    [|split; discriminate].
  apply percentage_bounds; [exact rounding|lia|lia].
Qed.

End Deadlines.

Lemma deadline_analysis_witness :
  Analytics.roundsToNearest Analytics.exact /\
  (0 <= AnalyzeStats.deadlineComplianceRate Analytics.exact storeOrder <= 100)%Q.
Proof.
  assert (R : Analytics.roundsToNearest Analytics.exact).
  { unfold Analytics.roundsToNearest, Analytics.exact.
    split; [intros x y H; exact H|]. repeat split. }
  split; [exact R|].
  exact (proj2 (proj2 (proj2 (proj2
    (deadline_analysis Analytics.exact R 0 storeOrder))))).
Defined.

Section Urgent.
Import Analytics AnalyzeStats.

Lemma isUrgent_spec (koreaTime : Z) (t : Todo) :
  isUrgent koreaTime t = true <->
  completed t = false /\
  (priority t = Some high \/
   exists d, due_date t = Some d /\ d < koreaTime + 2 * msPerDay).
Proof.
  unfold isUrgent, hasPriority.
  destruct (completed t); [split; [discriminate|intros [H _]; discriminate]|].
  assert (Hd : forall d, ((d - koreaTime) / msPerDay <=? 1) = true
                         <-> d < koreaTime + 2 * msPerDay).
  { intros d. rewrite Z.leb_le. unfold msPerDay.
    split; intros H; Z.div_mod_to_equations; lia. }
  destruct (priority t) as [[]|]; simpl.
  - split; auto.
  - destruct (due_date t) as [d|].
    + rewrite Hd. split.
      * intros H. split; [reflexivity|]. right. eauto.
      * intros [_ [H|(d' & H & Hlt)]]; [discriminate|]. injection H as <-. auto.
    + split; [discriminate|].
      intros [_ [H|(d' & H & _)]]; discriminate.
  - destruct (due_date t) as [d|].
    + rewrite Hd. split.
      * intros H. split; [reflexivity|]. right. eauto.
      * intros [_ [H|(d' & H & Hlt)]]; [discriminate|]. injection H as <-. auto.
    + split; [discriminate|].
      intros [_ [H|(d' & H & _)]]; discriminate.
  - destruct (due_date t) as [d|].
    + rewrite Hd. split.
      * intros H. split; [reflexivity|]. right. eauto.
      * intros [_ [H|(d' & H & Hlt)]]; [discriminate|]. injection H as <-. auto.
    + split; [discriminate|].
      intros [_ [H|(d' & H & _)]]; discriminate.
Qed.

(** The urgent list names at most five tasks.  Each name is the title of a
    task that is not completed and either has priority [high] or is due
    less than two days after [koreaTime] (which includes every overdue
    task); the names come in the order of the input, and when at most five
    tasks qualify all of them are named. *)
Theorem urgent_tasks_shortlist (koreaTime : Z) (todos : list Todo) :
  (length (urgentTasks koreaTime todos) <= 5)%nat /\
  (forall x, In x (urgentTasks koreaTime todos) ->
     exists t, In t todos /\ title t = x /\ completed t = false /\
       (priority t = Some high \/
        exists d, due_date t = Some d /\ d < koreaTime + 2 * msPerDay)) /\
  (forall t, isOverdue koreaTime t = true -> isUrgent koreaTime t = true) /\
  sublist (urgentTasks koreaTime todos) (List.map title todos) /\
  ((length (List.filter (isUrgent koreaTime) todos) <= 5)%nat ->
   urgentTasks koreaTime todos
     = List.map title (List.filter (isUrgent koreaTime) todos)).
Proof.
  split; [|split; [|split; [|split]]].
  - unfold urgentTasks. rewrite length_take. lia.
  - intros x Hx. unfold urgentTasks in Hx.
    apply list_elem_of_In in Hx. apply elem_of_take in Hx as (i & Hi & _).
    apply list_elem_of_lookup_2 in Hi. apply list_elem_of_In in Hi as Hx.
    apply in_map_iff in Hx as (t & <- & Ht).
    apply filter_In in Ht as [Hin Hu]. apply isUrgent_spec in Hu as [Hc Hu].
    exists t. auto.
  - intros t H. apply isUrgent_spec. unfold isOverdue in H.
    destruct (completed t); [discriminate|]. split; [reflexivity|].
    destruct (due_date t) as [d|]; [|discriminate].
    apply Z.ltb_lt in H. right. exists d. split; [reflexivity|].
    unfold msPerDay. lia.
  - unfold urgentTasks.
    transitivity (List.map title (List.filter (isUrgent koreaTime) todos));
      [apply sublist_take|].
    induction todos as [|t l IH]; simpl; [constructor|].
    destruct (isUrgent koreaTime t); simpl;
      [apply sublist_skip|apply sublist_cons]; exact IH.
  - intros H. unfold urgentTasks. apply take_ge.
    rewrite length_map. exact H.
Qed.

End Urgent.

Section CategoryTallies.
Import Analytics AnalyzeStats.

(** The counter of a label that names no inherited member is a number, and
    every listing of the label adds one to it. *)
Lemma tallyLabel_counts (m : gmap (list N) TallyValue) (cat c : jsstring) :
  inherited c = false -> m !! c <> Some tally_text ->
  tallyLabel m cat !! c <> Some tally_text /\
  countOf (tallyLabel m cat) c
  = (countOf m c + if bool_decide (cat = c) then 1 else 0)%nat.
Proof.
  intros Hc Hm. unfold countOf, tallyLabel.
  destruct (decide (cat = c)) as [->|Hne].
  - rewrite (bool_decide_eq_true_2 (c = c)) by reflexivity.
    destruct (m !! c) as [[n|]|] eqn:E.
    + rewrite lookup_insert_eq. split; [discriminate|reflexivity].
    + congruence.
    + rewrite Hc, lookup_insert_eq. split; [discriminate|reflexivity].
  - rewrite (bool_decide_eq_false_2 (cat = c)) by exact Hne.
    assert (H : match m !! cat with
                | Some (tally_number n) => <[cat := tally_number (n + 1)]> m
                | Some tally_text => <[cat := tally_text]> m
                | None =>
                    if inherited cat
                    then (if bool_decide (cat = js "__proto__") then m
                          else <[cat := tally_text]> m)
                    else <[cat := tally_number 1]> m
                end !! c = m !! c).
    { destruct (m !! cat) as [[n|]|];
        [| |destruct (inherited cat);
             [destruct (bool_decide (cat = js "__proto__"))|]];
        try reflexivity; apply lookup_insert_ne; exact Hne. }
    rewrite H. split; [exact Hm|lia].
Qed.

(** Under a label that names an inherited member no number is held. *)
Lemma tallyLabel_inherited (m : gmap (list N) TallyValue) (cat c : jsstring) :
  inherited c = true ->
  (forall n, m !! c <> Some (tally_number n)) ->
  forall n, tallyLabel m cat !! c <> Some (tally_number n).
Proof.
  intros Hc Hm n. unfold tallyLabel.
  destruct (decide (cat = c)) as [->|Hne].
  - destruct (m !! c) as [[k|]|] eqn:E.
    + destruct (Hm k). reflexivity.
    + rewrite lookup_insert_eq. discriminate.
    + rewrite Hc. destruct (bool_decide (c = js "__proto__")).
      * rewrite E. discriminate.
      * rewrite lookup_insert_eq. discriminate.
  - destruct (m !! cat) as [[k|]|];
      [| |destruct (inherited cat);
           [destruct (bool_decide (cat = js "__proto__"))|]];
      try apply Hm; rewrite lookup_insert_ne by exact Hne; apply Hm.
Qed.

Lemma countOf_tallyLabels (m : gmap (list N) TallyValue) (t : Todo)
    (c : jsstring) :
  inherited c = false -> m !! c <> Some tally_text ->
  tallyLabels m t !! c <> Some tally_text /\
  countOf (tallyLabels m t) c = (countOf m c + occurrences c t)%nat.
Proof.
  intros Hc. unfold tallyLabels, occurrences, labels.
  destruct (category t) as [cats|]; [|intros Hm; simpl; split; [exact Hm|lia]].
  revert m. induction cats as [|x cats IH]; intros m Hm; simpl.
  - split; [exact Hm|lia].
  - destruct (tallyLabel_counts m x c Hc Hm) as [Hm' Hx].
    destruct (IH _ Hm') as [H1 H2]. split; [exact H1|].
    rewrite H2, Hx. destruct (bool_decide (x = c)); simpl; lia.
Qed.

Lemma countOf_fold (l : list Todo) (m : gmap (list N) TallyValue)
    (c : jsstring) :
  inherited c = false -> m !! c <> Some tally_text ->
  countOf (fold_left tallyLabels l m) c = (countOf m c + listed c l)%nat.
Proof.
  intros Hc. revert m. unfold listed.
  induction l as [|t l IH]; intros m Hm; simpl; [lia|].
  destruct (countOf_tallyLabels m t c Hc Hm) as [Hm' Ht].
  rewrite (IH _ Hm'), Ht. lia.
Qed.

Lemma inherited_tally_fold (l : list Todo) (m : gmap (list N) TallyValue)
    (c : jsstring) :
  inherited c = true ->
  (forall n, m !! c <> Some (tally_number n)) ->
  forall n, fold_left tallyLabels l m !! c <> Some (tally_number n).
Proof.
  intros Hc. revert m.
  induction l as [|t l IH]; intros m Hm; simpl; [exact Hm|].
  apply IH. unfold tallyLabels.
  destruct (category t) as [cats|]; [|exact Hm].
  clear IH. revert m Hm.
  induction cats as [|x cats IHc]; intros m Hm; simpl; [exact Hm|].
  apply IHc. apply tallyLabel_inherited; assumption.
Qed.

Lemma listed_completed (c : jsstring) (todos : list Todo) :
  listed c (List.filter (fun todo => completed todo) todos)
  = listedCompleted c todos.
Proof.
  unfold listed, listedCompleted.
  induction todos as [|t l IH]; simpl; [reflexivity|].
  destruct (completed t); simpl; rewrite IH; reflexivity.
Qed.

Lemma listed_overdue (koreaTime : Z) (c : jsstring) (todos : list Todo) :
  (listed c (overdueTodos koreaTime todos) + listedCompleted c todos
   <= listed c todos)%nat.
Proof.
  unfold listed, listedCompleted, overdueTodos, todosWithDueDate.
  rewrite filter_fuse. unfold isOverdue, no_due.
  induction todos as [|t l IH]; simpl; [lia|].
  destruct (due_date t) as [d|], (completed t); simpl;
    try destruct (d <? koreaTime); simpl; lia.
Qed.

(** For a label that is not the name of a member of [Object.prototype]:
    the tally of the completed tasks by category agrees with the completed
    counters of [categoryStats]; the tally of the overdue tasks counts the
    labels of the overdue tasks, and it stays within the tasks of the label
    that are not completed.  Under a label that is such a name the tallies
    hold no number. *)
Theorem category_tallies_agree (koreaTime : Z) (todos : list Todo)
    (c : jsstring) :
  (inherited c = false ->
   countOf (completedCategoryCount todos) c
     = completedOf (categoryStats todos) c /\
   countOf (postponedCategoryCount koreaTime todos) c
     = listed c (overdueTodos koreaTime todos) /\
   (countOf (postponedCategoryCount koreaTime todos) c
    + completedOf (categoryStats todos) c
    <= totalOf (categoryStats todos) c)%nat) /\
  (inherited c = true ->
   forall n,
     completedCategoryCount todos !! c <> Some (tally_number n) /\
     postponedCategoryCount koreaTime todos !! c <> Some (tally_number n)).
Proof.
  assert (He : (∅ : gmap (list N) TallyValue) !! c <> Some tally_text)
    by (rewrite lookup_empty; discriminate).
  split.
  - intros Hc.
    destruct (categoryStats_counts todos c Hc) as [Ht Hn].
    unfold completedCategoryCount, postponedCategoryCount.
    rewrite !countOf_fold by assumption.
    unfold countOf at 1 2 3. rewrite !lookup_empty.
    simpl. rewrite listed_completed, Ht, Hn.
    split; [reflexivity|]. split; [reflexivity|].
    apply listed_overdue.
  - intros Hc n.
    unfold completedCategoryCount, postponedCategoryCount.
    split; apply inherited_tally_fold; try exact Hc;
      intros k; rewrite lookup_empty; discriminate.
Qed.

(** A completed task with the category "constructor": the tally holds a
    string under the label, and [categoryStats] no entry. *)
Example category_tallies_inherited_name :
  let t := mkTodo [] [] (js "task") None 0 None None
                  (Some [js "constructor"; js "__proto__"]) true in
  completedCategoryCount [t] !! js "constructor" = Some tally_text /\
  completedCategoryCount [t] !! js "__proto__" = None /\
  categoryStats [t] !! js "constructor" = None.
Proof. vm_compute. repeat split. Qed.

End CategoryTallies.

(** ** The analysis endpoint, continued: times of day and days of the week *)

Section TimesOfDay.
Import Analytics AnalyzeStats Productivity ProductivityWords.
Variable tz_local : Z.

Lemma getHours_range (t : Z) : 0 <= getHours tz_local t < 24.
Proof.
  unfold getHours, timeInDay.
  pose proof (Z.mod_pos_bound (localTime tz_local t) msPerDay
                ltac:(unfold msPerDay; lia)) as H.
  unfold msPerDay in *. split.
  - apply Z.div_pos; lia.
  - apply Z.div_lt_upper_bound; lia.
Qed.

Lemma getDay_range (t : Z) : 0 <= getDay tz_local t < 7.
Proof. unfold getDay. apply Z.mod_pos_bound. lia. Qed.

Lemma timeDistribution_fold (l : list Todo) (d : TimeDistribution) :
  fold_left (countDue tz_local) l d
  = mkDist (dist_morning d + countIf (dueInHours tz_local 6 12) l)
           (dist_afternoon d + countIf (dueInHours tz_local 12 18) l)
           (dist_evening d + countIf (dueInHours tz_local 18 22) l)
           (dist_other d
            + countIf (fun t => dueInHours tz_local 0 6 t
                                || dueInHours tz_local 22 24 t) l).
Proof.
  revert d. unfold countIf.
  induction l as [|t l IH]; intros d; simpl.
  - destruct d. simpl. f_equal; lia.
  - rewrite IH. unfold countDue, dueInHours, inHours.
    destruct (due_date t) as [x|]; [|simpl; f_equal; lia].
    destruct (completed t); [simpl; f_equal; lia|]. cbn [negb andb].
    pose proof (getHours_range x) as Hr.
    destruct (Z.leb_spec 6 (getHours tz_local x)),
             (Z.ltb_spec (getHours tz_local x) 12),
             (Z.leb_spec 12 (getHours tz_local x)),
             (Z.ltb_spec (getHours tz_local x) 18),
             (Z.leb_spec 18 (getHours tz_local x)),
             (Z.ltb_spec (getHours tz_local x) 22),
             (Z.leb_spec 0 (getHours tz_local x)),
             (Z.ltb_spec (getHours tz_local x) 6),
             (Z.leb_spec 22 (getHours tz_local x)),
             (Z.ltb_spec (getHours tz_local x) 24);
      try lia; simpl; f_equal; lia.
Qed.

(** The four counters of [timeDistribution] count the tasks that are due
    and not completed by the hour of their due timestamp: 6 to 11, 12 to
    17, 18 to 21, and the remaining hours (22 to 5); together they count
    every such task once. *)
Theorem time_distribution_counts (todos : list Todo) :
  let d := timeDistribution tz_local todos in
  dist_morning d = countIf (dueInHours tz_local 6 12) todos /\
  dist_afternoon d = countIf (dueInHours tz_local 12 18) todos /\
  dist_evening d = countIf (dueInHours tz_local 18 22) todos /\
  dist_other d = countIf (fun t => dueInHours tz_local 0 6 t
                                   || dueInHours tz_local 22 24 t) todos /\
  (dist_morning d + dist_afternoon d + dist_evening d + dist_other d
   = countIf (fun t => negb (no_due t) && negb (completed t)) todos)%nat.
Proof.
  unfold timeDistribution. rewrite timeDistribution_fold. simpl.
  repeat split.
  unfold countIf. induction todos as [|t l IH]; simpl; [reflexivity|].
  unfold dueInHours, inHours, no_due in *.
  destruct (due_date t) as [x|]; [|simpl; lia].
  destruct (completed t); [simpl; lia|]. cbn [negb andb].
  pose proof (getHours_range x) as Hr.
  destruct (Z.leb_spec 6 (getHours tz_local x)),
           (Z.ltb_spec (getHours tz_local x) 12),
           (Z.leb_spec 12 (getHours tz_local x)),
           (Z.ltb_spec (getHours tz_local x) 18),
           (Z.leb_spec 18 (getHours tz_local x)),
           (Z.ltb_spec (getHours tz_local x) 22),
           (Z.leb_spec 0 (getHours tz_local x)),
           (Z.ltb_spec (getHours tz_local x) 6),
           (Z.leb_spec 22 (getHours tz_local x)),
           (Z.ltb_spec (getHours tz_local x) 24);
    try lia; simpl; lia.
Qed.

Lemma produce_tally (s : Produced) (f : Todo -> bool) (t : Todo) (l : list Todo) :
  mkProduced (prod_created s + countIf f (t :: l))
             (prod_completed s + countIf (fun x => f x && completed x) (t :: l))
  = if f t
    then mkProduced (prod_created (produce (completed t) s) + countIf f l)
                    (prod_completed (produce (completed t) s)
                     + countIf (fun x => f x && completed x) l)
    else mkProduced (prod_created s + countIf f l)
                    (prod_completed s + countIf (fun x => f x && completed x) l).
Proof.
  unfold countIf, produce. simpl.
  destruct (f t); simpl; [|reflexivity].
  destruct (completed t); simpl; f_equal; lia.
Qed.

Lemma hourStats_fold (l : list Todo) (s : HourStats) :
  fold_left (countHour tz_local) l s
  = mkHours
      (mkProduced
         (prod_created (hours_dawn s) + countIf (createdInHours tz_local 0 6) l)
         (prod_completed (hours_dawn s)
          + countIf (fun x => createdInHours tz_local 0 6 x && completed x) l))
      (mkProduced
         (prod_created (hours_morning s) + countIf (createdInHours tz_local 6 12) l)
         (prod_completed (hours_morning s)
          + countIf (fun x => createdInHours tz_local 6 12 x && completed x) l))
      (mkProduced
         (prod_created (hours_afternoon s) + countIf (createdInHours tz_local 12 18) l)
         (prod_completed (hours_afternoon s)
          + countIf (fun x => createdInHours tz_local 12 18 x && completed x) l))
      (mkProduced
         (prod_created (hours_evening s) + countIf (createdInHours tz_local 18 24) l)
         (prod_completed (hours_evening s)
          + countIf (fun x => createdInHours tz_local 18 24 x && completed x) l)).
Proof.
  revert s. induction l as [|t l IH]; intros s.
  - destruct s as [[] [] [] []]. unfold countIf. simpl.
    repeat f_equal; lia.
  - cbn [fold_left]. rewrite IH. rewrite !produce_tally.
    unfold countHour, createdInHours, inHours.
    pose proof (getHours_range (created_date t)) as Hr.
    destruct (Z.leb_spec 0 (getHours tz_local (created_date t))),
             (Z.ltb_spec (getHours tz_local (created_date t)) 6),
             (Z.leb_spec 6 (getHours tz_local (created_date t))),
             (Z.ltb_spec (getHours tz_local (created_date t)) 12),
             (Z.leb_spec 12 (getHours tz_local (created_date t))),
             (Z.ltb_spec (getHours tz_local (created_date t)) 18),
             (Z.leb_spec 18 (getHours tz_local (created_date t))),
             (Z.ltb_spec (getHours tz_local (created_date t)) 24);
      try lia; reflexivity.
Qed.

(** The four entries of [hourStats] count the tasks, and the completed ones
    among them, by the hour of their created timestamp: 0 to 5, 6 to 11, 12
    to 17 and 18 to 23; every task is counted in exactly one entry. *)
Theorem hour_stats_counts (todos : list Todo) :
  let s := hourStats tz_local todos in
  hours_dawn s = tallyWhere (createdInHours tz_local 0 6) todos /\
  hours_morning s = tallyWhere (createdInHours tz_local 6 12) todos /\
  hours_afternoon s = tallyWhere (createdInHours tz_local 12 18) todos /\
  hours_evening s = tallyWhere (createdInHours tz_local 18 24) todos /\
  (prod_created (hours_dawn s) + prod_created (hours_morning s)
   + prod_created (hours_afternoon s) + prod_created (hours_evening s)
   = length todos)%nat /\
  (prod_completed (hours_dawn s) + prod_completed (hours_morning s)
   + prod_completed (hours_afternoon s) + prod_completed (hours_evening s)
   = completedTodos todos)%nat.
Proof.
  unfold hourStats. rewrite hourStats_fold.
  cbn [hours_dawn hours_morning hours_afternoon hours_evening
       prod_created prod_completed Nat.add].
  split; [reflexivity|]. split; [reflexivity|]. split; [reflexivity|].
  split; [reflexivity|].
  unfold countIf, completedTodos, createdInHours, inHours.
  induction todos as [|t l IH]; simpl; [lia|].
  pose proof (getHours_range (created_date t)) as Hr.
  destruct (Z.leb_spec 0 (getHours tz_local (created_date t))),
           (Z.ltb_spec (getHours tz_local (created_date t)) 6),
           (Z.leb_spec 6 (getHours tz_local (created_date t))),
           (Z.ltb_spec (getHours tz_local (created_date t)) 12),
           (Z.leb_spec 12 (getHours tz_local (created_date t))),
           (Z.ltb_spec (getHours tz_local (created_date t)) 18),
           (Z.leb_spec 18 (getHours tz_local (created_date t))),
           (Z.ltb_spec (getHours tz_local (created_date t)) 24);
    try lia; destruct (completed t); simpl; lia.
Qed.

End TimesOfDay.

Section DaysOfWeek.
Import Analytics AnalyzeStats Productivity ProductivityWords.
Variable tz_local : Z.

Lemma dayStats_fold (l : list Todo) (stats : list Produced) (d : nat) :
  fold_left (countDay tz_local) l stats !! d
  = (fun s => mkProduced
       (prod_created s + countIf (createdOn tz_local (Z.of_nat d)) l)
       (prod_completed s
        + countIf (fun t => createdOn tz_local (Z.of_nat d) t && completed t) l))
    <$> stats !! d.
Proof.
  revert stats. induction l as [|t l IH]; intros stats.
  - simpl. destruct (stats !! d) as [[c k]|]; [|reflexivity].
    unfold countIf. simpl. do 2 f_equal; lia.
  - cbn [fold_left]. rewrite IH. unfold countDay, createdOn, countIf.
    pose proof (getDay_range tz_local (created_date t)) as Hr.
    simpl List.filter.
    destruct (Z.eqb_spec (getDay tz_local (created_date t)) (Z.of_nat d)) as [E|E].
    + replace (Z.to_nat (getDay tz_local (created_date t))) with d by lia.
      rewrite list_lookup_alter_eq.
      destruct (stats !! d) as [[c k]|]; [|reflexivity].
      unfold produce. simpl. destruct (completed t); simpl; do 2 f_equal; lia.
    + rewrite list_lookup_alter_ne by lia.
      destruct (stats !! d) as [[c k]|]; reflexivity.
Qed.

Lemma dayStats_length (l : list Todo) (stats : list Produced) :
  length (fold_left (countDay tz_local) l stats) = length stats.
Proof.
  revert stats. induction l as [|t l IH]; intros stats; [reflexivity|].
  cbn [fold_left]. rewrite IH. unfold countDay. apply length_alter.
Qed.

Lemma days_cover (todos : list Todo) :
  (countIf (createdOn tz_local 0) todos + countIf (createdOn tz_local 1) todos
   + countIf (createdOn tz_local 2) todos + countIf (createdOn tz_local 3) todos
   + countIf (createdOn tz_local 4) todos + countIf (createdOn tz_local 5) todos
   + countIf (createdOn tz_local 6) todos = length todos)%nat /\
  (countIf (fun t => createdOn tz_local 0 t && completed t) todos
   + countIf (fun t => createdOn tz_local 1 t && completed t) todos
   + countIf (fun t => createdOn tz_local 2 t && completed t) todos
   + countIf (fun t => createdOn tz_local 3 t && completed t) todos
   + countIf (fun t => createdOn tz_local 4 t && completed t) todos
   + countIf (fun t => createdOn tz_local 5 t && completed t) todos
   + countIf (fun t => createdOn tz_local 6 t && completed t) todos
   = completedTodos todos)%nat.
Proof.
  unfold countIf, completedTodos, createdOn.
  induction todos as [|t l [IH1 IH2]]; simpl; [lia|].
  pose proof (getDay_range tz_local (created_date t)) as Hr.
  assert (Hd : getDay tz_local (created_date t) = 0
               \/ getDay tz_local (created_date t) = 1
               \/ getDay tz_local (created_date t) = 2
               \/ getDay tz_local (created_date t) = 3
               \/ getDay tz_local (created_date t) = 4
               \/ getDay tz_local (created_date t) = 5
               \/ getDay tz_local (created_date t) = 6) by lia.
  destruct Hd as [E|[E|[E|[E|[E|[E|E]]]]]]; rewrite E;
    destruct (completed t); simpl; lia.
Qed.

(** [dayOfWeekStats] keeps its seven entries; the entry of a weekday counts
    the tasks created on that weekday and the completed ones among them;
    every task is counted in exactly one entry. *)
Theorem day_of_week_stats_counts (todos : list Todo) :
  let stats := dayOfWeekStats tz_local todos in
  length stats = 7%nat /\
  (forall d, (d < 7)%nat ->
     stats !! d = Some (tallyWhere (createdOn tz_local (Z.of_nat d)) todos)) /\
  list_sum (List.map prod_created stats) = length todos /\
  list_sum (List.map prod_completed stats) = completedTodos todos.
Proof.
  intros stats.
  assert (Hlen : length stats = 7%nat).
  { unfold stats, dayOfWeekStats. rewrite dayStats_length. reflexivity. }
  assert (Hd : forall d, (d < 7)%nat ->
     stats !! d = Some (tallyWhere (createdOn tz_local (Z.of_nat d)) todos)).
  { intros d Hlt. unfold stats, dayOfWeekStats. rewrite dayStats_fold.
    rewrite lookup_replicate_2 by exact Hlt. reflexivity. }
  split; [exact Hlen|]. split; [exact Hd|].
  pose proof (Hd 0%nat ltac:(lia)) as H0. pose proof (Hd 1%nat ltac:(lia)) as H1.
  pose proof (Hd 2%nat ltac:(lia)) as H2. pose proof (Hd 3%nat ltac:(lia)) as H3.
  pose proof (Hd 4%nat ltac:(lia)) as H4. pose proof (Hd 5%nat ltac:(lia)) as H5.
  pose proof (Hd 6%nat ltac:(lia)) as H6.
  destruct stats as [|s0 [|s1 [|s2 [|s3 [|s4 [|s5 [|s6 [|s7 r]]]]]]]];
    try discriminate Hlen.
  simpl in H0, H1, H2, H3, H4, H5, H6.
  injection H0 as ->. injection H1 as ->. injection H2 as ->.
  injection H3 as ->. injection H4 as ->. injection H5 as ->.
  injection H6 as ->.
  destruct (days_cover todos) as [Hc Hk].
  unfold tallyWhere. simpl.
  change (Z.of_nat 0) with 0. change (Z.of_nat 1) with 1.
  change (Z.of_nat 2) with 2. change (Z.of_nat 3) with 3.
  change (Z.of_nat 4) with 4. change (Z.of_nat 5) with 5.
  change (Z.of_nat 6) with 6. split; lia.
Qed.

End DaysOfWeek.

Section SortHead.
Context {A : Type}.
Variable compareFn : A -> A -> Z.
Hypothesis total : forall a b, before compareFn a b \/ before compareFn b a.
Hypothesis trans : forall a b c,
  before compareFn a b -> before compareFn b c -> before compareFn a c.

(** The first element of the sorted list is the first element of the input
    that the comparator puts after no other. *)
Lemma sort_head (l : list A) (x : A) (rest : list A) :
  sort compareFn l = x :: rest ->
  exists pre post,
    l = pre ++ x :: post /\
    Forall (fun y => 0 < compareFn y x) pre /\
    Forall (fun y => compareFn x y <= 0) post.
Proof.
  revert x rest. induction l as [|a l IH]; intros x rest H; [discriminate|].
  simpl in H. destruct (sort compareFn l) as [|x' rest'] eqn:E.
  - simpl in H. injection H as <- <-.
    assert (l = []) as ->.
    { destruct l; [reflexivity|].
      apply (f_equal (@length A)) in E. rewrite sort_length in E.
      discriminate. }
    exists [], []. repeat split; constructor.
  - destruct (IH x' rest' eq_refl) as (pre & post & -> & Hpre & Hpost).
    simpl in H. destruct (Z.leb_spec (compareFn a x') 0) as [Hle|Hgt].
    + injection H as <- <-. exists [], (pre ++ x' :: post).
      split; [reflexivity|]. split; [constructor|].
      apply Forall_app. split; [|constructor].
      * eapply List.Forall_impl; [|exact Hpre]. intros y Hy. cbv beta in Hy.
        destruct (total x' y) as [Hxy|Hyx]; unfold before in *; [|lia].
        apply (trans a x' y); assumption.
      * exact Hle.
      * eapply List.Forall_impl; [|exact Hpost]. intros y Hy. cbv beta in Hy.
        apply (trans a x' y); assumption.
    + injection H as <- <-. exists (a :: pre), post.
      split; [reflexivity|]. split; [constructor; assumption|exact Hpost].
Qed.

End SortHead.

Section MostProductive.
Import Analytics AnalyzeStats Productivity.
Variable toDouble : Q -> Q.

Lemma byRate_le (a b : jsstring * Produced) :
  byRate toDouble a b <= 0 <->
  (rateOf toDouble (snd b) <= rateOf toDouble (snd a))%Q.
Proof.
  unfold byRate, Qle, Qminus, Qplus, Qopp. cbn [Qnum Qden]. lia.
Qed.

Lemma mostProductive_first_best (entries : list (jsstring * Produced)) :
  entries <> [] ->
  exists pre e post,
    entries = pre ++ e :: post /\
    mostProductive toDouble entries = Some e /\
    Forall (fun x => rateOf toDouble (snd x) < rateOf toDouble (snd e))%Q pre /\
    Forall (fun x => rateOf toDouble (snd x) <= rateOf toDouble (snd e))%Q post.
Proof.
  intros Hne. unfold mostProductive.
  destruct (sort (byRate toDouble) entries) as [|e rest] eqn:E.
  { apply (f_equal (@length _)) in E. rewrite sort_length in E.
    destruct entries; [congruence|discriminate]. }
  apply sort_head in E as (pre & post & -> & Hpre & Hpost).
  - exists pre, e, post. split; [reflexivity|]. split; [reflexivity|]. split.
    + eapply List.Forall_impl; [|exact Hpre]. intros y Hy. cbv beta in Hy.
      apply Qnot_le_lt. intros Hle. apply byRate_le in Hle. lia.
    + eapply List.Forall_impl; [|exact Hpost]. intros y Hy. cbv beta in Hy.
      apply byRate_le. exact Hy.
  - intros a b. unfold before. rewrite !byRate_le.
    destruct (Qlt_le_dec (rateOf toDouble (snd a)) (rateOf toDouble (snd b)));
      [right; apply Qlt_le_weak; assumption|left; assumption].
  - intros a b c. unfold before. rewrite !byRate_le.
    intros H1 H2. eapply Qle_trans; eassumption.
Qed.

(** The most productive weekday and time of day: the entry named has the
    highest completion rate of all entries, and among entries of equal rate
    it is the first in the order of the keys (Sunday first, "새벽"
    first). *)
Theorem most_productive_is_first_best (tz_local : Z) (todos : list Todo) :
  (exists pre e post,
     dayEntries (dayOfWeekStats tz_local todos) = pre ++ e :: post /\
     mostProductive toDouble (dayEntries (dayOfWeekStats tz_local todos)) = Some e /\
     Forall (fun x => rateOf toDouble (snd x) < rateOf toDouble (snd e))%Q pre /\
     Forall (fun x => rateOf toDouble (snd x) <= rateOf toDouble (snd e))%Q post) /\
  (exists pre e post,
     hourEntries (hourStats tz_local todos) = pre ++ e :: post /\
     mostProductive toDouble (hourEntries (hourStats tz_local todos)) = Some e /\
     Forall (fun x => rateOf toDouble (snd x) < rateOf toDouble (snd e))%Q pre /\
     Forall (fun x => rateOf toDouble (snd x) <= rateOf toDouble (snd e))%Q post).
Proof.
  split; apply mostProductive_first_best.
  - unfold dayEntries. intros H. apply (f_equal (@length _)) in H.
    rewrite length_combine in H.
    unfold dayOfWeekStats in H. rewrite dayStats_length in H. discriminate H.
  - unfold hourEntries. discriminate.
Qed.

(** Two tasks created on a Thursday, one of them completed, and one
    completed task created on a Friday: Friday is the most productive
    day. *)
Example most_productive_friday :
  mostProductive exact
    (dayEntries (dayOfWeekStats 0
       [mkTodo [] [] [] None 0 None None None false;
        mkTodo [] [] [] None 1 None None None true;
        mkTodo [] [] [] None msPerDay None None None true]))
  = Some ([44552; 50836; 51068]%N, mkProduced 1 1).
Proof. vm_compute. reflexivity. Qed.

End MostProductive.

(** ** The form and the handlers of the page *)

Section FormFacts.
Import TodoForm PageHandlers GenerateTodo.

Lemma includesLabel_In (prev : list jsstring) (c : jsstring) :
  includesLabel prev c = true <-> In c prev.
Proof.
  unfold includesLabel. rewrite existsb_exists. split.
  - intros (x & Hx & E). apply bool_decide_eq_true in E. subst. exact Hx.
  - intros H. exists c. split; [exact H|]. apply bool_decide_eq_true. reflexivity.
Qed.

Lemma filter_absent (c : jsstring) (l : list jsstring) :
  ~ In c l -> List.filter (fun x => negb (bool_decide (x = c))) l = l.
Proof.
  induction l as [|x l IH]; intros H; [reflexivity|]. simpl.
  rewrite bool_decide_eq_false_2 by (intros ->; apply H; left; reflexivity).
  simpl. f_equal. apply IH. intros H'. apply H. right. exact H'.
Qed.

(** Toggling a label switches its membership and touches no other label;
    a list without repeated labels stays without repeated labels; and
    toggling twice a label that was absent gives the list back. *)
Theorem toggle_category_flips (c : jsstring) (prev : list jsstring) :
  (In c (toggleCategory c prev) <-> ~ In c prev) /\
  (forall d, d <> c -> (In d (toggleCategory c prev) <-> In d prev)) /\
  (List.NoDup prev -> List.NoDup (toggleCategory c prev)) /\
  (~ In c prev -> toggleCategory c (toggleCategory c prev) = prev).
Proof.
  unfold toggleCategory.
  pose proof (includesLabel_In prev c) as Hin.
  destruct (includesLabel prev c) eqn:E.
  - assert (Hc : In c prev) by (apply Hin; reflexivity).
    split; [|split; [|split]].
    + rewrite filter_In, negb_true_iff, bool_decide_eq_false. tauto.
    + intros d Hd. rewrite filter_In, negb_true_iff, bool_decide_eq_false. tauto.
    + intros Hnd. apply List.NoDup_filter. exact Hnd.
    + tauto.
  - assert (Hc : ~ In c prev).
    { intros H. apply Hin in H. discriminate. }
    split; [|split; [|split]].
    + rewrite in_app_iff. simpl. tauto.
    + intros d Hd. rewrite in_app_iff. simpl. intuition congruence.
    + intros Hnd. apply List.NoDup_app; [exact Hnd|repeat constructor; auto|].
      intros x Hx [<-|[]]. contradiction.
    + intros _.
      assert (Hi : includesLabel (prev ++ [c]) c = true).
      { apply includesLabel_In. rewrite in_app_iff. simpl. auto. }
      rewrite Hi. rewrite List.filter_app, filter_absent by exact Hc.
      simpl. rewrite bool_decide_eq_true_2 by reflexivity. simpl.
      apply app_nil_r.
Qed.

End FormFacts.

Section StoreRequests.
Import TodoForm PageHandlers GenerateTodo.

Lemma blank_trimEnd (s : jsstring) : blank (trimEnd s) = blank s.
Proof.
  induction s as [|c s IH]; [reflexivity|].
  pose proof (truthy_trimEnd s) as Ht.
  change (trimEnd (c :: s)) with
    (match trimEnd s with
     | [] => if isWhiteSpace c then [] else [c]
     | d :: r => c :: d :: r
     end).
  destruct (trimEnd s) as [|d r].
  - simpl in Ht. destruct (blank s) eqn:Eb; [|discriminate].
    simpl. rewrite Eb, andb_true_r.
    destruct (isWhiteSpace c) eqn:Ec; simpl; [reflexivity|].
    rewrite Ec. reflexivity.
  - change (blank (c :: d :: r)) with (isWhiteSpace c && blank (d :: r)).
    rewrite IH. reflexivity.
Qed.

Lemma blank_trim (s : jsstring) : blank (trim s) = blank s.
Proof. unfold trim. rewrite blank_trimEnd. apply blank_trimStart. Qed.

Lemma userId_Some (currentUser : option jsstring) (uid : jsstring) :
  userId currentUser = Some uid <-> currentUser = Some uid /\ truthy uid = true.
Proof.
  unfold userId. destruct currentUser as [i|]; [|split; [discriminate|intros [H _]; discriminate]].
  destruct (truthy i) eqn:E; split.
  - intros H. injection H as <-. auto.
  - intros [H _]. injection H as <-. reflexivity.
  - discriminate.
  - intros [H Ht]. injection H as <-. congruence.
Qed.

(** No handler writes to the store without a signed-in user, and every
    request names that user as the owner; an update names the task being
    edited, and a deletion is sent only after the confirmation. *)
Theorem requests_are_scoped_by_owner (currentUser : option jsstring)
    (editingTodo : option Todo) (data : TodoInput) (i : jsstring)
    (confirmed done : bool) (r : Request) :
  handleAddTodo currentUser data = Some r \/
  handleUpdateTodo currentUser editingTodo data = Some r \/
  handleDeleteTodo currentUser confirmed i = Some r \/
  handleToggleComplete currentUser i done = Some r \/
  handleFormSubmit currentUser editingTodo data = Some r ->
  (currentUser = Some (ownerOf r) /\ truthy (ownerOf r) = true) /\
  (forall f j u, r = update f j u ->
     exists editing, editingTodo = Some editing /\ j = id editing) /\
  (forall j u, r = delete j u -> confirmed = true /\ j = i) /\
  (forall b j u, r = update_completed b j u -> b = done /\ j = i).
Proof.
  unfold handleFormSubmit, handleAddTodo, handleUpdateTodo, handleDeleteTodo,
    handleToggleComplete.
  destruct (userId currentUser) as [uid|] eqn:E.
  - apply userId_Some in E as [-> Hu].
    destruct editingTodo as [e|], confirmed; simpl;
      intros [H|[H|[H|[H|H]]]]; try discriminate H;
      injection H as <-; simpl;
      (split; [auto|]; split; [|split]; intros; try discriminate;
       repeat match goal with
              | H : update _ _ _ = update _ _ _ |- _ => injection H as <- <- <-
              | H : delete _ _ = delete _ _ |- _ => injection H as <- <-
              | H : update_completed _ _ _ = update_completed _ _ _ |- _ =>
                  injection H as <- <- <-
              end; eauto).
  - destruct editingTodo; intros [H|[H|[H|[H|H]]]]; discriminate H.
Qed.

Lemma requests_are_scoped_by_owner_witness :
  handleDeleteTodo (Some (js "u1")) true (js "t1")
    = Some (delete (js "t1") (js "u1")) /\
  truthy (ownerOf (delete (js "t1") (js "u1"))) = true.
Proof.
  assert (H : handleDeleteTodo (Some (js "u1")) true (js "t1")
              = Some (delete (js "t1") (js "u1"))) by reflexivity.
  split; [exact H|].
  exact (proj2 (proj1 (requests_are_scoped_by_owner (Some (js "u1")) None
                (mkInput [] None None None None None) (js "t1") true false
                (delete (js "t1") (js "u1"))
                (or_intror (or_intror (or_introl H)))))).
Defined.


(** The text the form sends to the extraction endpoint is never answered
    "must be a string" or "empty input": with the credential in place the
    endpoint answers "too short" for a single character, "too long" beyond
    500 characters, and passes everything else on to the remote call. *)
Theorem form_request_passes_string_checks (k aiInput : jsstring)
    (body : InputField) :
  truthy k = true ->
  handleAiGenerate aiInput = Some body ->
  body = input_string (trim aiInput) /\
  POST (Some k) (Some (body_with body)) <> Respond 400 err_not_string /\
  POST (Some k) (Some (body_with body)) <> Respond 400 err_empty /\
  (POST (Some k) (Some (body_with body)) = Respond 400 err_too_short \/
   (exists n, POST (Some k) (Some (body_with body))
              = Respond 400 (err_too_long n)) \/
   exists p, POST (Some k) (Some (body_with body)) = GenerateObject p).
Proof.
  intros Hk. unfold handleAiGenerate.
  destruct (truthy (trim aiInput)) eqn:E; [|discriminate]. simpl.
  intros H. injection H as <-. split; [reflexivity|].
  assert (Hn : normalizedInput (trim aiInput) <> []).
  { intros Hn. apply normalizedInput_spec in Hn.
    rewrite blank_trim in Hn. rewrite truthy_trim, Hn in E. discriminate. }
  unfold POST. rewrite Hk. simpl. rewrite E. simpl.
  destruct (normalizedInput (trim aiInput)) as [|c r] eqn:En; [congruence|].
  simpl length. simpl Nat.eqb. cbv iota.
  destruct (S (length r) <? 2)%nat; [repeat split; try discriminate; auto|].
  destruct (500 <? S (length r))%nat;
    repeat split; try discriminate; eauto.
Qed.

Lemma form_request_passes_string_checks_witness :
  truthy (js "k") = true /\
  handleAiGenerate (js " buy milk ") = Some (input_string (js "buy milk")) /\
  POST (Some (js "k")) (Some (body_with (input_string (js "buy milk"))))
    <> Respond 400 err_empty.
Proof.
  assert (Hk : truthy (js "k") = true) by reflexivity.
  assert (H : handleAiGenerate (js " buy milk ")
              = Some (input_string (js "buy milk"))) by reflexivity.
  split; [exact Hk|]. split; [exact H|].
  exact (proj1 (proj2 (proj2 (form_request_passes_string_checks
           (js "k") (js " buy milk ") (input_string (js "buy milk")) Hk H)))).
Defined.

End StoreRequests.
